(** * Netflix content and viewership analysis: the notebook's pipeline

    A shallow embedding of [Milestone1.ipynb]: the dataset loader, the
    merge cell and the four analysis functions, over a list model of the
    pandas operations they call.

    - Cell values are [Value]s: a missing value (NaN), an integer, a string,
      a Python list, or some other Python object.  A number is an integer.
      In a column of integers without missing values the numbers are 64-bit
      integers ([int64]) and arithmetic wraps; a column of integers with
      missing values among them holds floating-point numbers, which are
      exact on the integers up to [2 ^ 53] in absolute value: the model
      keeps the integer, and the properties that depend on it are stated for
      that range.
    - A [DataFrame] is a list of column labels and a list of rows.  The row
      index of pandas is not modelled: the statements of the notebook assign
      to a table a column computed from the same table.
    - Python code is a state-and-exception computation [M S A]: it threads
      a state [S] and either returns or raises an [Exception], an instance
      of the Python class of that name.  Interrupts, which are not instances
      of it and do not come from the code, are not modelled.
    - The renderer, the console and the operating system are a list of
      [Event]s: what the notebook printed, displayed, showed and ran.
    - The built-in [eval] runs in the namespace of the notebook, where the
      name [data] is the table the analyses are called with: an evaluation
      is a computation on the table and the console. *)

From Stdlib Require Import ZArith Lia String Ascii DecimalString Bool Arith List.
Import ListNotations.

Local Open Scope string_scope.
Local Open Scope Z_scope.
Local Open Scope list_scope.

(** ** Values *)

Unset Elimination Schemes.
Inductive Value : Type :=
| VNaN
| VInt (z : Z)
| VStr (s : string)
| VList (xs : list Value)
| VObj (name : string).
Set Elimination Schemes.

(** Induction on values, with the elements of a list as smaller values. *)
Fixpoint Value_induction (P : Value -> Prop)
  (HNaN : P VNaN) (HInt : forall z, P (VInt z)) (HStr : forall s, P (VStr s))
  (HList : forall xs, Forall P xs -> P (VList xs))
  (HObj : forall n, P (VObj n)) (v : Value) {struct v} : P v :=
  match v with
  | VNaN => HNaN
  | VInt z => HInt z
  | VStr s => HStr s
  | VObj n => HObj n
  | VList xs =>
      HList xs
        ((fix all (xs : list Value) : Forall P xs :=
            match xs with
            | [] => Forall_nil P
            | x :: xs' =>
                Forall_cons x (Value_induction P HNaN HInt HStr HList HObj x) (all xs')
            end) xs)
  end.

(** Equality of two values as dictionary or join keys.  Missing keys are
    matched with each other, as pandas does when it joins. *)
Fixpoint Value_eqb (a b : Value) : bool :=
  match a, b with
  | VNaN, VNaN => true
  | VInt x, VInt y => Z.eqb x y
  | VStr s, VStr t => String.eqb s t
  | VObj s, VObj t => String.eqb s t
  | VList xs, VList ys =>
      (fix all2 (xs ys : list Value) {struct xs} : bool :=
         match xs, ys with
         | [], [] => true
         | x :: xs', y :: ys' => Value_eqb x y && all2 xs' ys'
         | _, _ => false
         end) xs ys
  | _, _ => false
  end.

(** [isinstance(x, str)] *)
Definition is_str (v : Value) : bool :=
  match v with VStr _ => true | _ => false end.

(** [pd.notna] *)
Definition notna (v : Value) : bool :=
  match v with VNaN => false | _ => true end.

(** Lists are not hashable: they cannot be group keys or join keys. *)
Definition hashable (v : Value) : bool :=
  match v with VList _ => false | _ => true end.

(** The order in which pandas sorts group keys: numbers by value, strings by
    code point, numbers before strings. *)
Definition Value_rank (v : Value) : Z :=
  match v with
  | VNaN => 3 | VInt _ => 0 | VStr _ => 1 | VObj _ => 2 | VList _ => 4
  end.

Definition Value_leb (a b : Value) : bool :=
  match a, b with
  | VInt x, VInt y => Z.leb x y
  | VStr s, VStr t => String.leb s t
  | VObj s, VObj t => String.leb s t
  | _, _ => Z.leb (Value_rank a) (Value_rank b)
  end.

(** ** Exceptions and computations *)

Inductive Exception : Type :=
| KeyError (key : string)
| TypeError (msg : string)
| ValueError (msg : string)
| SyntaxError (msg : string)
| NameError (name : string)
| AttributeError (name : string)
| OtherError (cls msg : string).

(** [str(e)] *)
Definition exception_str (e : Exception) : string :=
  match e with
  | KeyError k => ("'" ++ k ++ "'")%string
  | TypeError m | ValueError m | SyntaxError m => m
  | NameError n => ("name '" ++ n ++ "' is not defined")%string
  | AttributeError n => ("object has no attribute '" ++ n ++ "'")%string
  | OtherError _ m => m
  end.

Inductive Result (A : Type) : Type :=
| Ok (a : A)
| Raise (e : Exception).

Arguments Ok {A} a.
Arguments Raise {A} e.

Definition M (S A : Type) : Type := S -> S * Result A.

Definition ret {S A} (a : A) : M S A := fun s => (s, Ok a).

Definition raise {S A} (e : Exception) : M S A := fun s => (s, Raise e).

Definition bind {S A B} (m : M S A) (k : A -> M S B) : M S B :=
  fun s =>
    match m s with
    | (s', Ok a) => k a s'
    | (s', Raise e) => (s', Raise e)
    end.

(** A pure step that may raise. *)
Definition lift {S A} (r : Result A) : M S A := fun s => (s, r).

(** [try: body except Exception as e: handler(e)] *)
Definition try_except {S A} (body : M S A) (handler : Exception -> M S A) : M S A :=
  fun s =>
    match body s with
    | (s', Ok a) => (s', Ok a)
    | (s', Raise e) => handler e s'
    end.

Declare Scope py_scope.
Delimit Scope py_scope with py.
Notation "x <- m ;; k" := (bind m (fun x => k))
  (at level 61, m at next level, right associativity) : py_scope.
Notation "m ;;; k" := (bind m (fun _ => k))
  (at level 61, right associativity) : py_scope.

Fixpoint mapM {S A B} (f : A -> M S B) (xs : list A) : M S (list B) :=
  match xs with
  | [] => ret []
  | x :: xs' => (y <- f x ;; ys <- mapM f xs' ;; ret (y :: ys))%py
  end.

(** The same for steps that have no effect. *)
Fixpoint traverse {A B} (f : A -> Result B) (xs : list A) : Result (list B) :=
  match xs with
  | [] => Ok []
  | x :: xs' =>
      match f x with
      | Raise e => Raise e
      | Ok y => match traverse f xs' with
                | Raise e => Raise e
                | Ok ys => Ok (y :: ys)
                end
      end
  end.

(** ** Data frames *)

Definition Row : Type := list Value.

(** The tables of the notebook have pairwise distinct column labels, as
    [read_csv] and [merge] make them, and one cell per column in every row
    (see [well_formed]). *)
Record DataFrame : Type := mkFrame {
  columns : list string;
  rows : list Row
}.

Definition well_formed (df : DataFrame) : Prop :=
  NoDup (columns df)
  /\ forall r, In r (rows df) -> length r = length (columns df).

Fixpoint index_of (name : string) (cols : list string) : option nat :=
  match cols with
  | [] => None
  | c :: cols' =>
      if String.eqb c name then Some O
      else option_map S (index_of name cols')
  end.

(** [name in df.columns] *)
Definition has_column (name : string) (df : DataFrame) : bool :=
  existsb (String.eqb name) (columns df).

Definition cell (i : nat) (r : Row) : Value := nth i r VNaN.

Fixpoint set_cell (i : nat) (v : Value) (r : Row) : Row :=
  match i, r with
  | _, [] => []
  | O, _ :: r' => v :: r'
  | S i', x :: r' => x :: set_cell i' v r'
  end.

(** [df[name]] *)
Definition getitem (name : string) (df : DataFrame) : Result (list Value) :=
  match index_of name (columns df) with
  | Some i => Ok (map (cell i) (rows df))
  | None => Raise (KeyError name)
  end.

(** [df[name] = values]: an existing column is overwritten in place, a new
    one is appended as the last column. *)
Definition setitem (name : string) (values : list Value) (df : DataFrame) : DataFrame :=
  match index_of name (columns df) with
  | Some i =>
      mkFrame (columns df)
              (map (fun rv => set_cell i (snd rv) (fst rv)) (combine (rows df) values))
  | None =>
      mkFrame (columns df ++ [name])
              (map (fun rv => fst rv ++ [snd rv]) (combine (rows df) values))
  end.

(** [df.head()] *)
Definition head (df : DataFrame) : DataFrame :=
  mkFrame (columns df) (firstn 5 (rows df)).

(** ** Interval bucketing *)

(** The range of a 64-bit integer ([int64]), and what an operation that
    leaves the range gives: numpy wraps around without an error. *)
Definition in_int64 (z : Z) : bool := (- 2 ^ 63 <=? z) && (z <? 2 ^ 63).

Definition wrap64 (z : Z) : Z := (z + 2 ^ 63) mod 2 ^ 64 - 2 ^ 63.

(** A column of 64-bit integers, as [read_csv] makes it of a column of
    whole numbers: every cell is an integer of the range. *)
Definition int64_column (vs : list Value) : bool :=
  forallb (fun v => match v with VInt z => in_int64 z | _ => false end) vs.

(** [(y // 5) * 5] on an element of a column of 64-bit integers: [//]
    rounds towards minus infinity, as [Z.div] does for a positive divisor,
    and each of the two operations wraps. *)
Definition year_interval (y : Z) : Z := wrap64 (wrap64 (y / 5) * 5).

(** The same on a number that is not a 64-bit integer: a Python integer in
    a column of objects, which is unbounded, or a floating-point number
    with an integer value in a column that has missing values. *)
Definition floor_bucket (y : Z) : Z := (y / 5) * 5.

(** One element of [(column // 5) * 5], in a column of 64-bit integers
    ([wraps]) or in another column: a number is bucketed, a missing value
    stays missing, anything else has no [//]. *)
Definition floordiv_mul (wraps : bool) (v : Value) : Result Value :=
  match v with
  | VInt y => Ok (VInt (if wraps then year_interval y else floor_bucket y))
  | VNaN => Ok VNaN
  | VStr _ => Raise (TypeError "unsupported operand type(s) for //: 'str' and 'int'")
  | VList _ => Raise (TypeError "unsupported operand type(s) for //: 'list' and 'int'")
  | VObj _ => Raise (TypeError "unsupported operand type(s) for //")
  end.

(** [(df[name] // 5) * 5] *)
Definition bucket_column (name : string) (df : DataFrame) : Result (list Value) :=
  match getitem name df with
  | Raise e => Raise e
  | Ok vs => traverse (floordiv_mul (int64_column vs)) vs
  end.

(** Whether a column of a table is a column of 64-bit integers.  A
    selection of rows, a copy and an explosion keep the type the column has
    in the table the rows are taken from. *)
Definition is_int64 (name : string) (df : DataFrame) : bool :=
  match getitem name df with
  | Ok vs => int64_column vs
  | Raise _ => false
  end.

(** [(df[name] // 5) * 5] on rows taken from a table in which the column is
    a column of 64-bit integers ([wraps]) or another column. *)
Definition bucket_rows (wraps : bool) (name : string) (df : DataFrame)
  : Result (list Value) :=
  match getitem name df with
  | Raise e => Raise e
  | Ok vs => traverse (floordiv_mul wraps) vs
  end.

(** ** Selection, element-wise application, explosion *)

(** [df[df[name] == value]]: the rows whose cell equals the value. *)
Definition select_eq (name : string) (value : Value) (df : DataFrame) : Result DataFrame :=
  match index_of name (columns df) with
  | Some i => Ok (mkFrame (columns df)
                          (filter (fun r => Value_eqb (cell i r) value) (rows df)))
  | None => Raise (KeyError name)
  end.

(** [df[name].apply(f)]: [f] is called on every element, first row first. *)
Definition apply_column {S} (name : string) (f : Value -> M S Value) (df : DataFrame)
  : M S (list Value) :=
  (vs <- lift (getitem name df) ;; mapM f vs)%py.

(** The rows that [explode] makes of one row: one per element of a list, the
    row itself with a missing value for an empty list, and the row as it is
    when the cell is not a list. *)
Definition explode_row (i : nat) (r : Row) : list Row :=
  match cell i r with
  | VList [] => [set_cell i VNaN r]
  | VList xs => map (fun x => set_cell i x r) xs
  | _ => [r]
  end.

(** [df.explode(name)] *)
Definition explode (name : string) (df : DataFrame) : Result DataFrame :=
  match index_of name (columns df) with
  | Some i => Ok (mkFrame (columns df) (flat_map (explode_row i) (rows df)))
  | None => Raise (KeyError name)
  end.

(** ** Grouping, unstacking, melting *)

Fixpoint insert_sorted {A} (leb : A -> A -> bool) (x : A) (xs : list A) : list A :=
  match xs with
  | [] => [x]
  | y :: ys => if leb x y then x :: y :: ys else y :: insert_sorted leb x ys
  end.

Fixpoint sort_by {A} (leb : A -> A -> bool) (xs : list A) : list A :=
  match xs with
  | [] => []
  | x :: xs' => insert_sorted leb x (sort_by leb xs')
  end.

(** The distinct elements of a list, in the order of their first occurrence. *)
Fixpoint unique {A} (eqb : A -> A -> bool) (xs : list A) : list A :=
  match xs with
  | [] => []
  | x :: xs' => x :: filter (fun y => negb (eqb x y)) (unique eqb xs')
  end.

Definition Key2 : Type := (Value * Value)%type.

Definition Key2_eqb (a b : Key2) : bool :=
  Value_eqb (fst a) (fst b) && Value_eqb (snd a) (snd b).

Definition Key2_leb (a b : Key2) : bool :=
  if Value_eqb (fst a) (fst b) then Value_leb (snd a) (snd b)
  else Value_leb (fst a) (fst b).

(** The distinct values of a dimension, as the group index lists them. *)
Definition distinct_values (vs : list Value) : list Value :=
  sort_by Value_leb (unique Value_eqb vs).

(** A grouped frame: the sorted distinct key pairs, each with its rows.
    Rows with a missing value in either key are in no group. *)
Definition Groups : Type := list (Key2 * list Row).

Definition keyed (i j : nat) (r : Row) : Key2 := (cell i r, cell j r).

Definition valid_key (k : Key2) : bool := notna (fst k) && notna (snd k).

Definition valid_rows (i j : nat) (rs : list Row) : list Row :=
  filter (fun r => valid_key (keyed i j r)) rs.

(** How [groupby] reads a list of two keys.  When both are column labels
    the rows are grouped by the cells of the two columns.  When one of them
    is not, and the list is as long as the table has rows, pandas takes the
    list itself for an array of group labels, one per row; otherwise the
    first key that is not a column is a key error. *)
Inductive Grouper : Type :=
| KeyColumns (i j : nat)
| KeyLabels (labels : list Value).

Definition absent_key (d d1 d2 : string) (df : DataFrame) : Result Grouper :=
  if Nat.eqb (length (rows df)) 2 then Ok (KeyLabels [VStr d1; VStr d2])
  else Raise (KeyError d).

(** [df.groupby([d1, d2])] *)
Definition groupby2 (d1 d2 : string) (df : DataFrame) : Result Grouper :=
  match index_of d1 (columns df) with
  | None => absent_key d1 d1 d2 df
  | Some i =>
      match index_of d2 (columns df) with
      | None => absent_key d2 d1 d2 df
      | Some j => Ok (KeyColumns i j)
      end
  end.

(** The groups of the rows by two key columns, made when a result is asked
    for: the keys are hashed, and the rows with a missing key dropped. *)
Definition group_rows (i j : nat) (rs : list Row) : Result Groups :=
  if forallb (fun r => hashable (cell i r) && hashable (cell j r)) rs
  then
    let valid := valid_rows i j rs in
    let keys := sort_by Key2_leb (unique Key2_eqb (map (keyed i j) valid)) in
    Ok (map (fun k => (k, filter (fun r => Key2_eqb (keyed i j r) k) valid)) keys)
  else Raise (TypeError "unhashable type: 'list'").

(** The groups of the rows by an array of labels, one label per row. *)
Definition label_groups (labels : list Value) (rs : list Row) : list (Value * list Row) :=
  map (fun k => (k, map snd (filter (fun lr => Value_eqb (fst lr) k) (combine labels rs))))
      (distinct_values labels).

(** A series indexed by key pairs. *)
Definition Series2 : Type := list (Key2 * Value).

(** [.size()] *)
Definition size (g : Groups) : Series2 :=
  map (fun kr => (fst kr, VInt (Z.of_nat (length (snd kr))))) g.

(** Python's [+] on two cells. *)
Definition add_cells (a b : Value) : Result Value :=
  match a, b with
  | VInt x, VInt y => Ok (VInt (x + y))
  | VStr s, VStr t => Ok (VStr (s ++ t))
  | VList xs, VList ys => Ok (VList (xs ++ ys))
  | _, _ => Raise (TypeError "unsupported operand type(s) for +")
  end.

Fixpoint add_all (acc : Value) (vs : list Value) : Result Value :=
  match vs with
  | [] => Ok acc
  | v :: vs' =>
      match add_cells acc v with
      | Raise e => Raise e
      | Ok acc' => add_all acc' vs'
      end
  end.

(** The sum of the cells of a group.  Missing values are skipped, and a
    group without a value sums to zero.  The values are added in the order
    of the rows: numbers add up, wrapping in a column of 64-bit integers
    ([wraps]); in a column of objects texts are concatenated, and a number
    and a text cannot be added. *)
Definition sum_cells (wraps : bool) (vs : list Value) : Result Value :=
  match filter notna vs with
  | [] => Ok (VInt 0)
  | v :: vs' =>
      match add_all v vs' with
      | Ok (VInt z) => Ok (VInt (if wraps then wrap64 z else z))
      | r => r
      end
  end.

(** [.sum()] of the column at position [m] over the groups of a table. *)
Definition sum_groups {K} (m : nat) (df : DataFrame) (g : list (K * list Row))
  : Result (list (K * Value)) :=
  let wraps := int64_column (map (cell m) (rows df)) in
  traverse (fun kr => match sum_cells wraps (map (cell m) (snd kr)) with
                      | Ok v => Ok (fst kr, v)
                      | Raise e => Raise e
                      end) g.

Fixpoint lookup2 (k : Key2) (s : Series2) : option Value :=
  match s with
  | [] => None
  | (k', v) :: s' => if Key2_eqb k' k then Some v else lookup2 k s'
  end.

(** A wide table: one row per index value, one column per label. *)
Record Wide : Type := mkWide {
  index_name : string;
  index : list Value;
  labels : list Value;
  matrix : list (list Value)
}.

(** The cell of the wide table for a pair: its value in the series, or the
    fill value when the series has no such pair. *)
Definition wide_cell (fill : Value) (s : Series2) (a b : Value) : Value :=
  match lookup2 (a, b) s with
  | Some v => v
  | None => fill
  end.

(** [.unstack(fill_value=fill)]; without [fill_value] a combination that
    is not in the series is a missing value. *)
Definition unstack (name : string) (fill : Value) (s : Series2) : Wide :=
  let idx := distinct_values (map (fun kv => fst (fst kv)) s) in
  let lbl := distinct_values (map (fun kv => snd (fst kv)) s) in
  mkWide name idx lbl (map (fun a => map (wide_cell fill s a) lbl) idx).

(** [.reset_index().melt(id_vars=..., var_name=var, value_name=value)]:
    the long form lists, label after label, one row per index value.  The
    index cannot be inserted as a column when a label already has its name,
    and the value column cannot have the name of a label. *)
Definition reset_index_melt (var value : string) (w : Wide) : Result DataFrame :=
  if existsb (Value_eqb (VStr (index_name w))) (labels w)
  then Raise (ValueError ("cannot insert " ++ index_name w ++ ", already exists"))
  else if existsb (Value_eqb (VStr value)) (labels w)
  then Raise (ValueError ("value_name (" ++ value
                          ++ ") cannot match an element in the DataFrame columns."))
  else
    Ok (mkFrame [index_name w; var; value]
          (flat_map
             (fun jb => map (fun ar => [fst ar; snd jb; cell (fst jb) (snd ar)])
                            (combine (index w) (matrix w)))
             (combine (seq 0 (length (labels w))) (labels w)))).

(** ** Joining *)

(** [df.rename(columns={old: new}, inplace=True)] *)
Definition rename (old new : string) (df : DataFrame) : DataFrame :=
  mkFrame (map (fun c => if String.eqb c old then new else c) (columns df)) (rows df).

Fixpoint remove_nth {A} (i : nat) (xs : list A) : list A :=
  match i, xs with
  | _, [] => []
  | O, _ :: xs' => xs'
  | S i', x :: xs' => x :: remove_nth i' xs'
  end.

Definition count_label (name : string) (cols : list string) : nat :=
  count_occ string_dec cols name.

(** The position of the join key: the label must be there, and only once. *)
Definition key_position (on : string) (df : DataFrame) : Result nat :=
  match index_of on (columns df) with
  | None => Raise (KeyError on)
  | Some i =>
      if Nat.eqb (count_label on (columns df)) 1 then Ok i
      else Raise (ValueError ("The column label '" ++ on ++ "' is not unique."))
  end.

(** A label that both tables have, other than the key, gets a suffix. *)
Definition suffixed (on suffix : string) (others : list string) (c : string) : string :=
  if String.eqb c on then c
  else if existsb (String.eqb c) others then (c ++ suffix)%string
  else c.

(** The columns of a join: those of the left table, then those of the
    right table other than the key, with the suffixes. *)
Definition merged_columns (on : string) (j : nat) (left right : DataFrame) : list string :=
  map (suffixed on "_x" (columns right)) (columns left)
  ++ remove_nth j (map (suffixed on "_y" (columns left)) (columns right)).

(** The rows that an inner join makes of one left row: one per right row
    with the same key, in the order of the right table. *)
Definition join_row (i j : nat) (right : list Row) (l : Row) : list Row :=
  map (fun r => l ++ remove_nth j r)
      (filter (fun r => Value_eqb (cell i l) (cell j r)) right).

Definition is_int (v : Value) : bool :=
  match v with VInt _ => true | _ => false end.

(** The type pandas gives to a column: integers, numbers with missing
    values among them, or objects.  A column without cells is a column of
    objects. *)
Inductive Dtype : Type := int64 | float64 | object.

Definition dtype_of (vs : list Value) : Dtype :=
  match vs with
  | [] => object
  | _ =>
      if forallb is_int vs then int64
      else if forallb (fun v => is_int v || negb (notna v)) vs then float64
      else object
  end.

(** pandas refuses to join a column of numbers with a column of objects
    that has no number in it: only an empty column of objects goes with a
    column of integers. *)
Definition compatible_keys (ks1 ks2 : list Value) : bool :=
  let refused (numbers : Dtype) (objects : list Value) :=
    negb (existsb is_int objects)
    && negb (match numbers, objects with int64, [] => true | _, _ => false end) in
  match dtype_of ks1, dtype_of ks2 with
  | object, object => true
  | object, d => negb (refused d ks1)
  | d, object => negb (refused d ks2)
  | _, _ => true
  end.

Fixpoint distinct_labels (cols : list string) : bool :=
  match cols with
  | [] => true
  | c :: cols' => negb (existsb (String.eqb c) cols') && distinct_labels cols'
  end.

(** [pd.merge(left, right, on=on, how='inner')] *)
Definition merge (left right : DataFrame) (on : string) : Result DataFrame :=
  match key_position on left with
  | Raise e => Raise e
  | Ok i =>
      match key_position on right with
      | Raise e => Raise e
      | Ok j =>
          let cols := merged_columns on j left right in
          if negb (compatible_keys (map (cell i) (rows left)) (map (cell j) (rows right)))
          then Raise (ValueError ("You are trying to merge on columns of different types for key '"
                                  ++ on ++ "'"))
          else if negb (distinct_labels cols)
          then Raise (OtherError "MergeError"
                        "Passing 'suffixes' which cause duplicate columns is not allowed")
          else if forallb (fun r => hashable (cell i r)) (rows left)
                  && forallb (fun r => hashable (cell j r)) (rows right)
          then Ok (mkFrame cols (flat_map (join_row i j (rows right)) (rows left)))
          else Raise (TypeError "unhashable type: 'list'")
      end
  end.

(** ** Effects of the notebook *)

Inductive ChartKind : Type := Bar | Pie.

Record Figure : Type := mkFigure {
  kind : ChartKind;
  frame : DataFrame;
  title : string
}.

(** What a run leaves outside the tables: printed lines, displayed tables,
    figures handed to the renderer, pauses, and commands run by the
    operating system. *)
Inductive Event : Type :=
| Printed (line : string)
| Displayed (df : DataFrame)
| Shown (fig : Figure)
| Slept (seconds : Z)
| Executed (command : string).

Definition Console : Type := list Event.

Definition emit (e : Event) : M Console unit := fun c => (c ++ [e], Ok tt).

Definition print (line : string) : M Console unit := emit (Printed line).

(** The table an analysis function is called with is the caller's object,
    the notebook's variable [data]: what the function assigns into it is
    seen by the caller afterwards, and an expression that is evaluated
    while the function runs finds it under that name. *)
Record World : Type := mkWorld {
  table : DataFrame;
  console : Console
}.

Definition get_table : M World DataFrame := fun w => (w, Ok (table w)).

Definition put_table (df : DataFrame) : M World unit :=
  fun w => (mkWorld df (console w), Ok tt).

Definition on_console {A} (m : M Console A) : M World A :=
  fun w => let (c, r) := m (console w) in (mkWorld (table w) c, r).

(** [str(v)] and [repr(v)] *)
Fixpoint repr (v : Value) : string :=
  match v with
  | VNaN => "nan"
  | VInt z => NilZero.string_of_int (Z.to_int z)
  | VStr s => "'" ++ s ++ "'"
  | VObj n => n
  | VList xs =>
      "[" ++ (fix items (xs : list Value) : string :=
                match xs with
                | [] => EmptyString
                | [x] => repr x
                | x :: xs' => repr x ++ ", " ++ items xs'
                end) xs ++ "]"
  end%string.

Definition str (v : Value) : string :=
  match v with VStr s => s | _ => repr v end.

(** ** Python expressions: [eval] and the literal parser

    A fragment of Python's expression language, enough to tell a list
    literal from code: string literals without escapes in either quote,
    decimal integers, list displays, names, attribute references, calls and
    products.  Of the built-in names [__import__] and [len] are bound, of
    the modules only [os], of its attributes only [system]; of the names of
    the notebook [data] is bound, to the table, of which the fragment takes
    the length only. *)

Unset Elimination Schemes.
Inductive Expr : Type :=
| EStr (s : string)
| ENum (z : Z)
| EList (items : list Expr)
| EName (name : string)
| EAttr (e : Expr) (attr : string)
| ECall (f : Expr) (args : list Expr)
| EMul (a b : Expr).
Set Elimination Schemes.

(** Induction on expressions, with the items of a list and the arguments
    of a call as smaller expressions. *)
Fixpoint Expr_induction (P : Expr -> Prop)
  (HStr : forall s, P (EStr s)) (HNum : forall z, P (ENum z))
  (HList : forall es, Forall P es -> P (EList es))
  (HName : forall n, P (EName n))
  (HAttr : forall e a, P e -> P (EAttr e a))
  (HCall : forall f args, P f -> Forall P args -> P (ECall f args))
  (HMul : forall a b, P a -> P b -> P (EMul a b))
  (e : Expr) {struct e} : P e :=
  let all :=
    fix all (es : list Expr) : Forall P es :=
      match es with
      | [] => Forall_nil P
      | e' :: es' =>
          Forall_cons e' (Expr_induction P HStr HNum HList HName HAttr HCall HMul e')
                      (all es')
      end in
  match e with
  | EStr s => HStr s
  | ENum z => HNum z
  | EList es => HList es (all es)
  | EName n => HName n
  | EAttr e' a => HAttr e' a (Expr_induction P HStr HNum HList HName HAttr HCall HMul e')
  | ECall f args =>
      HCall f args (Expr_induction P HStr HNum HList HName HAttr HCall HMul f) (all args)
  | EMul a b =>
      HMul a b (Expr_induction P HStr HNum HList HName HAttr HCall HMul a)
           (Expr_induction P HStr HNum HList HName HAttr HCall HMul b)
  end.

Definition double_quote : ascii := ascii_of_nat 34.

Definition is_space (c : ascii) : bool :=
  Ascii.eqb c " " || Ascii.eqb c "009".

Definition is_digit (c : ascii) : bool :=
  (48 <=? nat_of_ascii c)%nat && (nat_of_ascii c <=? 57)%nat.

Definition is_name_start (c : ascii) : bool :=
  let n := nat_of_ascii c in
  ((65 <=? n) && (n <=? 90) || (97 <=? n) && (n <=? 122) || (n =? 95))%nat.

Definition is_name_char (c : ascii) : bool := is_name_start c || is_digit c.

Fixpoint skip_spaces (cs : list ascii) : list ascii :=
  match cs with
  | c :: cs' => if is_space c then skip_spaces cs' else cs
  | [] => []
  end.

(** The characters up to the closing quote, and what follows it. *)
Fixpoint read_quoted (q : ascii) (cs : list ascii) : option (list ascii * list ascii) :=
  match cs with
  | [] => None
  | c :: cs' =>
      if Ascii.eqb c q then Some ([], cs')
      else match read_quoted q cs' with
           | Some (s, rest) => Some (c :: s, rest)
           | None => None
           end
  end.

Fixpoint read_while (p : ascii -> bool) (cs : list ascii) : list ascii * list ascii :=
  match cs with
  | c :: cs' =>
      if p c then let (s, rest) := read_while p cs' in (c :: s, rest)
      else ([], cs)
  | [] => ([], [])
  end.

Definition digits_value (ds : list ascii) : Z :=
  fold_left (fun acc d => acc * 10 + Z.of_nat (nat_of_ascii d - 48)) ds 0.

(** A decimal integer: no leading zero unless it is all zeros, and nothing
    that would continue it as another kind of number or as a name. *)
Definition read_number (cs : list ascii) : option (Z * list ascii) :=
  match read_while is_digit cs with
  | ([], _) => None
  | (d :: ds, rest) =>
      let continued :=
        match rest with
        | c :: _ => Ascii.eqb c "." || is_name_char c
        | [] => false
        end in
      if continued then None
      else if Ascii.eqb d "0" && negb (forallb (Ascii.eqb "0") ds) then None
      else Some (digits_value (d :: ds), rest)
  end.

Definition read_name (cs : list ascii) : option (string * list ascii) :=
  match cs with
  | c :: _ =>
      if is_name_start c then
        let (n, rest) := read_while is_name_char cs in
        Some (string_of_list_ascii n, rest)
      else None
  | [] => None
  end.

(** An expression is a product of operands; an operand is a literal, a
    list display or a name, followed by attribute references and calls. *)
Fixpoint parse_expr (fuel : nat) (cs : list ascii) : option (Expr * list ascii) :=
  match fuel with
  | O => None
  | S fuel' =>
      match parse_operand fuel' cs with
      | Some (e, rest) => parse_product fuel' e rest
      | None => None
      end
  end

with parse_product (fuel : nat) (e : Expr) (cs : list ascii) : option (Expr * list ascii) :=
  match fuel with
  | O => None
  | S fuel' =>
      match skip_spaces cs with
      | c :: rest =>
          if Ascii.eqb c "*" then
            match parse_operand fuel' rest with
            | Some (e', rest') => parse_product fuel' (EMul e e') rest'
            | None => None
            end
          else Some (e, c :: rest)
      | [] => Some (e, [])
      end
  end

with parse_operand (fuel : nat) (cs : list ascii) : option (Expr * list ascii) :=
  match fuel with
  | O => None
  | S fuel' =>
      match skip_spaces cs with
      | [] => None
      | c :: rest =>
          if Ascii.eqb c "[" then
            match parse_items fuel' "]" rest with
            | Some (es, rest') => parse_postfix fuel' (EList es) rest'
            | None => None
            end
          else if Ascii.eqb c "'" || Ascii.eqb c double_quote then
            match read_quoted c rest with
            | Some (s, rest') => parse_postfix fuel' (EStr (string_of_list_ascii s)) rest'
            | None => None
            end
          else if is_digit c then
            match read_number (c :: rest) with
            | Some (z, rest') => parse_postfix fuel' (ENum z) rest'
            | None => None
            end
          else if Ascii.eqb c "-" then
            match read_number (skip_spaces rest) with
            | Some (z, rest') => parse_postfix fuel' (ENum (- z)) rest'
            | None => None
            end
          else
            match read_name (c :: rest) with
            | Some (n, rest') => parse_postfix fuel' (EName n) rest'
            | None => None
            end
      end
  end

with parse_items (fuel : nat) (close : ascii) (cs : list ascii)
  : option (list Expr * list ascii) :=
  match fuel with
  | O => None
  | S fuel' =>
      match skip_spaces cs with
      | [] => None
      | c :: rest =>
          if Ascii.eqb c close then Some ([], rest)
          else
            match parse_expr fuel' (c :: rest) with
            | None => None
            | Some (e, rest') =>
                match skip_spaces rest' with
                | d :: rest'' =>
                    if Ascii.eqb d close then Some ([e], rest'')
                    else if Ascii.eqb d "," then
                      match parse_items fuel' close rest'' with
                      | Some (es, rest3) => Some (e :: es, rest3)
                      | None => None
                      end
                    else None
                | [] => None
                end
            end
      end
  end

with parse_postfix (fuel : nat) (e : Expr) (cs : list ascii) : option (Expr * list ascii) :=
  match fuel with
  | O => None
  | S fuel' =>
      match skip_spaces cs with
      | c :: rest =>
          if Ascii.eqb c "." then
            match read_name (skip_spaces rest) with
            | Some (n, rest') => parse_postfix fuel' (EAttr e n) rest'
            | None => None
            end
          else if Ascii.eqb c "(" then
            match parse_items fuel' ")" rest with
            | Some (args, rest') => parse_postfix fuel' (ECall e args) rest'
            | None => None
            end
          else Some (e, c :: rest)
      | [] => Some (e, [])
      end
  end.

(** The expression a text denotes, when it is one of the fragment. *)
Definition parse (text : string) : option Expr :=
  let cs := list_ascii_of_string text in
  match parse_expr (S (List.length cs) * 4) cs with
  | Some (e, rest) => match skip_spaces rest with [] => Some e | _ => None end
  | None => None
  end.

(** What an expression evaluates to: a cell value, or one of the objects
    the bound names give access to. *)
Inductive Object : Type :=
| OVal (v : Value)
| OImport
| OLen
| OFrame
| OModule (name : string)
| OFunction (module name : string).

Definition object_value (o : Object) : Value :=
  match o with
  | OVal v => v
  | OImport => VObj "<built-in function __import__>"
  | OLen => VObj "<built-in function len>"
  | OFrame => VObj "DataFrame"
  | OModule n => VObj ("<module '" ++ n ++ "'>")
  | OFunction _ n => VObj ("<built-in function " ++ n ++ ">")
  end.

(** [len(o)]: the number of rows of the table as it is when the call is
    made, the length of a list or of a string. *)
Definition len (o : Object) : M World Object :=
  match o with
  | OFrame => fun w => (w, Ok (OVal (VInt (Z.of_nat (length (rows (table w)))))))
  | OVal (VList xs) => ret (OVal (VInt (Z.of_nat (length xs))))
  | OVal (VStr s) => ret (OVal (VInt (Z.of_nat (String.length s))))
  | _ => raise (TypeError "object has no len()")
  end.

(** A call: [__import__('os')] gives the module, [os.system(cmd)] hands
    the command to the operating system, [len] reads its argument. *)
Definition call (f : Object) (args : list Object) : M World Object :=
  match f, args with
  | OImport, [OVal (VStr m)] =>
      if String.eqb m "os" then ret (OModule m)
      else raise (OtherError "ModuleNotFoundError" ("No module named '" ++ m ++ "'"))
  | OFunction "os" "system", [OVal (VStr cmd)] =>
      (on_console (emit (Executed cmd)) ;;; ret (OVal (VInt 0)))%py
  | OLen, [o] => len o
  | OVal _, _ => raise (TypeError "object is not callable")
  | OModule _, _ => raise (TypeError "'module' object is not callable")
  | OFrame, _ => raise (TypeError "'DataFrame' object is not callable")
  | _, _ => raise (TypeError "bad arguments")
  end.

Definition getattr (o : Object) (attr : string) : Result Object :=
  match o with
  | OModule "os" => if String.eqb attr "system" then Ok (OFunction "os" "system")
                    else Raise (AttributeError attr)
  | _ => Raise (AttributeError attr)
  end.

Definition repeat_string (n : nat) (s : string) : string :=
  String.concat EmptyString (repeat s n).

(** [a * b]: the product of two numbers, or a list or a string repeated. *)
Definition multiply (a b : Object) : Result Object :=
  match a, b with
  | OVal (VInt x), OVal (VInt y) => Ok (OVal (VInt (x * y)))
  | OVal (VList xs), OVal (VInt n) | OVal (VInt n), OVal (VList xs) =>
      Ok (OVal (VList (concat (repeat xs (Z.to_nat n)))))
  | OVal (VStr s), OVal (VInt n) | OVal (VInt n), OVal (VStr s) =>
      Ok (OVal (VStr (repeat_string (Z.to_nat n) s)))
  | _, _ => Raise (TypeError "unsupported operand type(s) for *")
  end.

Fixpoint eval_expr (e : Expr) : M World Object :=
  match e with
  | EStr s => ret (OVal (VStr s))
  | ENum z => ret (OVal (VInt z))
  | EList es =>
      (vs <- (fix eval_items (es : list Expr) : M World (list Value) :=
                match es with
                | [] => ret []
                | e' :: es' =>
                    (o <- eval_expr e' ;; vs <- eval_items es' ;; ret (object_value o :: vs))
                end) es ;;
       ret (OVal (VList vs)))
  | EName n =>
      if String.eqb n "__import__" then ret OImport
      else if String.eqb n "len" then ret OLen
      else if String.eqb n "data" then ret OFrame
      else raise (NameError n)
  | EAttr e' a => (o <- eval_expr e' ;; lift (getattr o a))
  | ECall f args =>
      (fo <- eval_expr f ;;
       os <- (fix eval_args (es : list Expr) : M World (list Object) :=
                match es with
                | [] => ret []
                | e' :: es' => (o <- eval_expr e' ;; os <- eval_args es' ;; ret (o :: os))
                end) args ;;
       call fo os)
  | EMul a b => (x <- eval_expr a ;; y <- eval_expr b ;; lift (multiply x y))
  end%py.

(** The built-in [eval] on the fragment: any expression is run, in the
    namespace of the notebook. *)
Definition py_eval (text : string) : M World Value :=
  match parse text with
  | None => raise (SyntaxError "invalid syntax")
  | Some e => (o <- eval_expr e ;; ret (object_value o))%py
  end.

(** An expression made of literals only: strings, numbers and lists of them. *)
Fixpoint is_literal (e : Expr) : bool :=
  match e with
  | EStr _ | ENum _ => true
  | EList es => forallb is_literal es
  | EName _ | EAttr _ _ | ECall _ _ | EMul _ _ => false
  end.

(** The value a literal denotes. *)
Fixpoint literal_value (e : Expr) : Value :=
  match e with
  | EStr s => VStr s
  | ENum z => VInt z
  | EList es => VList (map literal_value es)
  | _ => VNaN
  end.

(** The literal parser ([ast.literal_eval]): it builds the value of a literal
    and refuses everything else without running it.  It has no namespace:
    it is a computation on nothing but its text. *)
Definition literal_eval (text : string) : M Console Value :=
  match parse text with
  | None => raise (SyntaxError "invalid syntax")
  | Some e =>
      if is_literal e then ret (literal_value e)
      else raise (ValueError "malformed node or string")
  end.

(** ** The notebook *)

(** The variables of the notebook that the merge cell reads and writes.
    A loaded table is [None] when the loader returned the null marker;
    [data] is [None] as long as no merged table has been assigned to it. *)
Record Globals : Type := mkGlobals {
  netflix_df : option DataFrame;
  viewership_df : option DataFrame;
  data : option DataFrame;
  output : Console
}.

(** A series whose index has one level cannot be unstacked. *)
Definition unstack_one_level {A} : Result A :=
  Raise (ValueError "index must be a MultiIndex to unstack, <class 'pandas.core.indexes.base.Index'> was passed").

(** [df.groupby([d1, d2]).size().unstack(fill_value=fill)] *)
Definition size_unstack (d1 d2 : string) (fill : Value) (df : DataFrame) : Result Wide :=
  match groupby2 d1 d2 df with
  | Raise e => Raise e
  | Ok (KeyColumns i j) =>
      match group_rows i j (rows df) with
      | Raise e => Raise e
      | Ok g => Ok (unstack d1 fill (size g))
      end
  | Ok (KeyLabels _) => unstack_one_level
  end.

(** [df.groupby([d1, d2])[measure].sum().unstack()]: the column is looked
    up before the groups are made. *)
Definition sum_unstack (d1 d2 measure : string) (df : DataFrame) : Result Wide :=
  match groupby2 d1 d2 df with
  | Raise e => Raise e
  | Ok grouper =>
      match index_of measure (columns df) with
      | None => Raise (KeyError ("Column not found: " ++ measure))
      | Some m =>
          match grouper with
          | KeyColumns i j =>
              match group_rows i j (rows df) with
              | Raise e => Raise e
              | Ok g =>
                  match sum_groups m df g with
                  | Raise e => Raise e
                  | Ok s => Ok (unstack d1 VNaN s)
                  end
              end
          | KeyLabels labels =>
              match sum_groups m df (label_groups labels (rows df)) with
              | Raise e => Raise e
              | Ok _ => unstack_one_level
              end
          end
      end
  end.

(** [wide.loc[region].reset_index()] with the columns renamed to
    [Genre] and [Count]. *)
Definition loc_reset_index (dim : string) (w : Wide) (region : Value) (counts : list Value)
  : Result DataFrame :=
  if Value_eqb region (VStr dim)
  then Raise (ValueError ("cannot insert " ++ dim ++ ", already exists"))
  else Ok (mkFrame ["Genre"; "Count"]
                   (map (fun bc => [fst bc; snd bc]) (combine (labels w) counts))).

(** What a cell adds to the sum of a column of numbers: its number, and
    nothing when it is a missing value, which a sum skips.  It is used on
    columns of counts and of numbers only. *)
Definition number_of (v : Value) : Z :=
  match v with VInt z => z | _ => 0 end.

(** [df[column].sum()] on a column of counts, which are numbers of rows. *)
Definition column_sum (i : nat) (df : DataFrame) : Z :=
  fold_right Z.add 0 (map (fun r => number_of (cell i r)) (rows df)).

Fixpoint for_each {S A} (xs : list A) (body : A -> M S unit) : M S unit :=
  match xs with
  | [] => ret tt
  | x :: xs' => (body x ;;; for_each xs' body)%py
  end.

Definition on_output {A} (m : M Console A) : M Globals A :=
  fun g =>
    let (c, r) := m (output g) in
    (mkGlobals (netflix_df g) (viewership_df g) (data g) c, r).

Definition assign_netflix_df (df : option DataFrame) : M Globals unit :=
  fun g => (mkGlobals df (viewership_df g) (data g) (output g), Ok tt).

Definition assign_viewership_df (df : option DataFrame) : M Globals unit :=
  fun g => (mkGlobals (netflix_df g) df (data g) (output g), Ok tt).

Definition netflix_url : string :=
  "https://gitlab.crio.do/public_content/da_ds_artifacts/-/raw/master/netflix-dataset.csv".

Definition viewership_url : string :=
  "https://gitlab.crio.do/public_content/da_ds_artifacts/-/raw/master/Viewership_Data_with_Demographics.csv".

Definition newline : string := String (ascii_of_nat 10) EmptyString.

Definition load_message : string :=
  (newline
   ++ "We've defined a function to load datasets from URLs and used it to load our Netflix content and viewership datasets."
   ++ newline)%string.

(** The line each cell prints after it has defined its analysis function. *)
Definition movies_defined : string :=
  (newline
   ++ "We've defined a function to create a stacked bar chart showing the count of Movies vs TV Shows over 5-year intervals."
   ++ newline)%string.

Definition genre_popularity_defined : string :=
  (newline
   ++ "We've defined a function to create a stacked bar chart showing the popularity of different TV show genres over 5-year intervals."
   ++ newline)%string.

Definition genre_distribution_defined : string :=
  (newline
   ++ "We've defined a function to create pie charts showing the distribution of genres for each region in our dataset."
   ++ newline)%string.

Definition viewership_defined : string :=
  (newline
   ++ "We've defined a function to create a stacked bar chart showing viewership patterns across different age groups and regions."
   ++ newline)%string.

(** A cell that defines a function and prints its line: the definition
    itself runs nothing of the function. *)
Definition definition_cell (line : string) : M Globals unit :=
  on_output (print line).

Section Notebook.

(** What [pd.read_csv] does at a location: it returns the parsed table or
    raises an instance of [Exception]. *)
Variable read_csv : string -> Result DataFrame.

(** The built-in [eval]: it runs the text in the namespace of the notebook,
    where it can read and change the table, and on the console. *)
Variable eval : string -> M World Value.

Definition load_dataset (url : string) : M Console (option DataFrame) :=
  try_except
    (df <- lift (read_csv url) ;; ret (Some df))%py
    (fun e =>
       (print ("Error loading dataset: " ++ exception_str e) ;;;
        ret None)%py).

(** The body of the loop of the merge cell. *)
Definition normalize_key (df : DataFrame) : DataFrame :=
  if has_column "id" df then rename "id" "show_id" df else df.

(** The merge cell.  The renaming is in place: it changes the two loaded
    tables themselves. *)
Definition merge_cell : M Globals unit :=
  fun g =>
    match netflix_df g, viewership_df g with
    | Some n, Some v =>
        let n' := normalize_key n in
        let v' := normalize_key v in
        match merge n' v' "show_id" with
        | Raise e => (mkGlobals (Some n') (Some v') (data g) (output g), Raise e)
        | Ok d =>
            (mkGlobals (Some n') (Some v') (Some d)
               (output g ++
                [Displayed (head d);
                 Printed "We've successfully merged the Netflix content and viewership datasets on the 'show_id' column. This combined dataset will be used for our analysis."]),
             Ok tt)
        end
    | _, _ =>
        (mkGlobals (netflix_df g) (viewership_df g) (data g)
           (output g ++ [Printed "Failed to load or merge datasets"]),
         Ok tt)
    end.

Definition plot_movies_vs_shows : M World unit :=
  (data <- get_table ;;
   intervals <- lift (bucket_column "release_year" data) ;;
   put_table (setitem "year_interval" intervals data) ;;;
   data <- get_table ;;
   movies_vs_shows_interval <- lift (size_unstack "year_interval" "type" (VInt 0) data) ;;
   movies_vs_shows_long <- lift (reset_index_melt "Type" "Count" movies_vs_shows_interval) ;;
   on_console (emit (Shown (mkFigure Bar movies_vs_shows_long
                              "Movies vs TV Shows Over 5-Year Intervals"))))%py.

(** [lambda x: eval(x) if isinstance(x, str) else x] *)
Definition genres_lambda (x : Value) : M World Value :=
  match x with
  | VStr s => eval s
  | _ => ret x
  end.

(** The shows are a copy of the selected rows: the evaluation of their
    genre texts can reach the table, not the copy.  The copy has the column
    types of the table. *)
Definition plot_genre_popularity : M World unit :=
  (data <- get_table ;;
   if negb (has_column "genres" data) then
     on_console (print "No 'genres' column found. Please check the dataset.")
   else
     tv_shows <- lift (select_eq "type" (VStr "SHOW") data) ;;
     genres <- apply_column "genres" genres_lambda tv_shows ;;
     let tv_shows := setitem "genres" genres tv_shows in
     tv_shows_exploded <- lift (explode "genres" tv_shows) ;;
     intervals <- lift (bucket_rows (is_int64 "release_year" data) "release_year"
                                    tv_shows_exploded) ;;
     let tv_shows_exploded := setitem "year_interval" intervals tv_shows_exploded in
     genres_popularity <-
       lift (size_unstack "year_interval" "genres" (VInt 0) tv_shows_exploded) ;;
     genres_popularity_long <- lift (reset_index_melt "Genre" "Count" genres_popularity) ;;
     on_console (emit (Shown (mkFigure Bar genres_popularity_long
                                "Popularity of TV Show Genres Over 5-Year Intervals"))))%py.

(** The body of the loop over the regions of the wide table. *)
Definition plot_region (w : Wide) (rc : Value * list Value) : M World unit :=
  (genre_counts <- lift (loc_reset_index "genres" w (fst rc) (snd rc)) ;;
   if column_sum 1 genre_counts =? 0 then
     on_console (print ("No genre data available for " ++ str (fst rc) ++ ". Skipping plot."))
   else
     on_console (emit (Shown (mkFigure Pie genre_counts
                                ("Genre Distribution in " ++ str (fst rc))))) ;;;
     on_console (emit (Slept 1)))%py.

(** The genre column is read before its texts are evaluated, and the
    evaluated values are assigned, in the order of the rows, to the table as
    the evaluations left it. *)
Definition plot_genre_distribution_by_region : M World unit :=
  (data <- get_table ;;
   if negb (has_column "genres" data) || negb (has_column "viewer_region" data) then
     on_console (print "The 'genres' or 'viewer_region' column is not found in the dataset.")
   else
     genres <- apply_column "genres" genres_lambda data ;;
     data <- get_table ;;
     put_table (setitem "genres" genres data) ;;;
     data <- get_table ;;
     data_exploded <- lift (explode "genres" data) ;;
     genre_region_distribution <-
       lift (size_unstack "viewer_region" "genres" (VInt 0) data_exploded) ;;
     for_each (combine (index genre_region_distribution)
                       (matrix genre_region_distribution))
              (plot_region genre_region_distribution))%py.

Definition plot_viewership_by_age_and_region : M World unit :=
  (data <- get_table ;;
   age_region_viewership <-
     lift (sum_unstack "viewer_age_group" "viewer_region" "viewership_count" data) ;;
   age_region_viewership_long <-
     lift (reset_index_melt "Region" "Viewership" age_region_viewership) ;;
   on_console (emit (Shown (mkFigure Bar age_region_viewership_long
                              "Stacked Viewership by Age Group and Region"))))%py.

(** The cell that loads the two datasets: both loads are made, whatever
    the first one gives, and the closing line is printed. *)
Definition load_cell : M Globals unit :=
  (netflix <- on_output (load_dataset netflix_url) ;;
   assign_netflix_df netflix ;;;
   viewership <- on_output (load_dataset viewership_url) ;;
   assign_viewership_df viewership ;;;
   on_output (print load_message))%py.

(** A cell that calls an analysis on [data] and prints its closing line.
    The name [data] is bound only once the merge cell has assigned it; the
    analysis works on the object the name refers to, so that what it assigns
    into the table stays in [data]; the closing line is printed when the call
    returns. *)
Definition analysis_cell (analysis : M World unit) (closing : string) : M Globals unit :=
  fun g =>
    match data g with
    | None => (g, Raise (NameError "data"))
    | Some d =>
        match analysis (mkWorld d (output g)) with
        | (w, Raise e) =>
            (mkGlobals (netflix_df g) (viewership_df g) (Some (table w)) (console w),
             Raise e)
        | (w, Ok _) =>
            (mkGlobals (netflix_df g) (viewership_df g) (Some (table w))
               (console w ++ [Printed closing]),
             Ok tt)
        end
    end.

Definition movies_cell : M Globals unit :=
  analysis_cell plot_movies_vs_shows
    "This chart visualizes the trend in Netflix's content production, showing how the balance between Movies and TV Shows has changed over time.".

Definition genre_popularity_cell : M Globals unit :=
  analysis_cell plot_genre_popularity
    "This chart visualizes the changing popularity of different TV show genres over time, helping identify trends in content preferences.".

Definition genre_distribution_cell : M Globals unit :=
  analysis_cell plot_genre_distribution_by_region
    "These pie charts visualize the genre distribution for each region, allowing us to compare content preferences across different geographical areas.".

Definition viewership_cell : M Globals unit :=
  analysis_cell plot_viewership_by_age_and_region
    "This stacked bar chart visualizes the viewership distribution across different age groups and regions, allowing us to identify demographic trends in content consumption.".

(** The cells from the loading on, run in order: each analysis has a cell
    that defines its function and a cell that calls it.  The run stops at
    the first cell that raises. *)
Definition pipeline : M Globals unit :=
  (load_cell ;;; merge_cell ;;;
   definition_cell movies_defined ;;; movies_cell ;;;
   definition_cell genre_popularity_defined ;;; genre_popularity_cell ;;;
   definition_cell genre_distribution_defined ;;; genre_distribution_cell ;;;
   definition_cell viewership_defined ;;; viewership_cell)%py.

End Notebook.


(** ** Quantities the properties are stated with *)

(** The keys of a table, row after row. *)
Definition keys (i : nat) (rs : list Row) : list Value := map (cell i) rs.

(** The distinct keys of the left table that the right table has too: its
    length is the cardinality of the intersection of the two key sets. *)
Definition key_intersection (ks1 ks2 : list Value) : list Value :=
  filter (fun k => existsb (Value_eqb k) ks2) (unique Value_eqb ks1).

(** How many rows of the right table have the key of a left row. *)
Definition matches (i j : nat) (right : list Row) (l : Row) : nat :=
  length (filter (fun r => Value_eqb (cell i l) (cell j r)) right).

(** The number of elements of a genre cell that holds a list. *)
Definition genre_length (i : nat) (r : Row) : nat :=
  match cell i r with VList xs => length xs | _ => 0%nat end.

Definition is_list (v : Value) : bool :=
  match v with VList _ => true | _ => false end.

(** How many rows have a pair of dimension values. *)
Definition occurrences (i j : nat) (a b : Value) (rs : list Row) : nat :=
  length (filter (fun r => Key2_eqb (keyed i j r) (a, b)) rs).

Definition sum_nat (ns : list nat) : nat := fold_right Nat.add 0%nat ns.

(** The key pairs of the groups of a table, as [groupby2] lists them. *)
Definition group_keys (i j : nat) (rs : list Row) : list Key2 :=
  sort_by Key2_leb (unique Key2_eqb (map (keyed i j) (valid_rows i j rs))).

(** The values of the two dimensions that the groups have. *)
Definition dimension1 (i j : nat) (rs : list Row) : list Value :=
  distinct_values (map (cell i) (valid_rows i j rs)).

Definition dimension2 (i j : nat) (rs : list Row) : list Value :=
  distinct_values (map (cell j) (valid_rows i j rs)).

(** How many columns of a table become the key of the join: those named
    [id] and those named [show_id]. *)
Definition key_labels (df : DataFrame) : nat :=
  (count_label "id" (columns df) + count_label "show_id" (columns df))%nat.

(** What a load leaves in the variable, and what it prints. *)
Definition loaded (read_csv : string -> Result DataFrame) (url : string) : option DataFrame :=
  match read_csv url with
  | Ok df => Some df
  | Raise _ => None
  end.

Definition load_diagnostic (read_csv : string -> Result DataFrame) (url : string)
  : list Event :=
  match read_csv url with
  | Ok _ => []
  | Raise e => [Printed ("Error loading dataset: " ++ exception_str e)]
  end.

(** No genre cell of the table is a text. *)
Definition no_genre_text (df : DataFrame) : Prop :=
  forall i, index_of "genres" (columns df) = Some i ->
            forall r, In r (rows df) -> is_str (cell i r) = false.

(** The pie chart of a region: one row per genre with its count. *)
Definition pie_of (genres : list Value) (region : Value) (counts : list Value) : Figure :=
  mkFigure Pie
           (mkFrame ["Genre"; "Count"]
                    (map (fun bc => [fst bc; snd bc]) (combine genres counts)))
           ("Genre Distribution in " ++ str region).

(** The sum of a measure over the rows that have a pair of dimension
    values. *)
Definition total (i j m : nat) (a b : Value) (rs : list Row) : Z :=
  fold_right Z.add 0
             (map (fun r => number_of (cell m r))
                  (filter (fun r => Key2_eqb (keyed i j r) (a, b)) rs)).



(** A cell of a column of numbers: a number or a missing value. *)
Definition is_number_or_missing (v : Value) : bool :=
  match v with VInt _ | VNaN => true | _ => false end.

(** The sum of the absolute values of the numbers of a column. *)
Definition magnitude (m : nat) (rs : list Row) : Z :=
  fold_right Z.add 0 (map (fun r => Z.abs (number_of (cell m r))) rs).

(** A column whose sums are exact: it holds numbers or missing values, and
    the absolute values of the numbers add up to [2 ^ 53] at most, so that
    no sum of 64-bit integers wraps and no floating-point sum is rounded. *)
Definition summable (m : nat) (rs : list Row) : Prop :=
  (forall r, In r rs -> is_number_or_missing (cell m r) = true)
  /\ magnitude m rs <= 2 ^ 53.

(** What the sum grouping leaves in the long form for a pair: the sum of
    the measure when some row has the pair, a missing value when none has. *)
Definition sum_cell (i j m : nat) (rs : list Row) (a b : Value) : Value :=
  if Nat.eqb (occurrences i j a b rs) 0 then VNaN else VInt (total i j m a b rs).

(** The long-form table of the genre-popularity chart, from the shows with
    their genre cells evaluated: the explosion, the bucketing and the
    grouping of the analysis.  The release years are 64-bit integers
    ([wraps]) when they are in the table the shows are selected from. *)
Definition genre_popularity_long (wraps : bool) (tv_shows : DataFrame) : Result DataFrame :=
  match explode "genres" tv_shows with
  | Raise e => Raise e
  | Ok exploded =>
      match bucket_rows wraps "release_year" exploded with
      | Raise e => Raise e
      | Ok intervals =>
          match size_unstack "year_interval" "genres" (VInt 0)
                             (setitem "year_interval" intervals exploded) with
          | Raise e => Raise e
          | Ok wide => reset_index_melt "Genre" "Count" wide
          end
      end
  end.

(** A value put into a list after its first [n] elements. *)
Definition insert_at {A} (n : nat) (x : A) (xs : list A) : list A :=
  firstn n xs ++ x :: skipn n xs.

(** A computation that reads and writes the console only: it leaves the
    table as it is, and what it prints and returns does not depend on it. *)
Definition console_only {A} (m : M World A) : Prop :=
  forall c, exists c' r, forall t, m (mkWorld t c) = (mkWorld t c', r).

(** A computation that may read the table and does not change it. *)
Definition keeps_table {A} (m : M World A) : Prop :=
  forall w, table (fst (m w)) = table w.

(** The genre texts of a table whose evaluation reads and writes the
    console only: it neither reads nor changes the table. *)
Definition confined (eval : string -> M World Value) (df : DataFrame) : Prop :=
  forall g r s, index_of "genres" (columns df) = Some g -> In r (rows df) ->
                cell g r = VStr s -> console_only (eval s).

(** The genre texts of a table whose evaluation does not change the table. *)
Definition unchanging (eval : string -> M World Value) (df : DataFrame) : Prop :=
  forall g r s, index_of "genres" (columns df) = Some g -> In r (rows df) ->
                cell g r = VStr s -> keeps_table (eval s).

(** One step after another, for steps that have no effect. *)
Definition and_then {A B} (r : Result A) (k : A -> Result B) : Result B :=
  match r with
  | Ok a => k a
  | Raise e => Raise e
  end.

(** ** Sample tables *)

Definition sample_content : DataFrame :=
  mkFrame ["show_id"; "type"; "release_year"; "genres"]
          [[VInt 1; VStr "SHOW"; VInt 2019; VStr "['Drama','Comedy']"];
           [VInt 2; VStr "MOVIE"; VInt 2021; VStr "['Action']"]].

Definition sample_viewership : DataFrame :=
  mkFrame ["show_id"; "viewer_age_group"; "viewer_region"; "viewership_count"]
          [[VInt 1; VStr "18-25"; VStr "US"; VInt 100]].

Definition sample_titles : DataFrame :=
  mkFrame ["year_interval"; "type"]
          [[VInt 2015; VStr "MOVIE"]; [VInt 2020; VStr "SHOW"]].


(** A merged table of one show with one viewership row. *)
Definition sample_data : DataFrame :=
  mkFrame ["show_id"; "type"; "release_year"; "genres";
           "viewer_age_group"; "viewer_region"; "viewership_count"]
          [[VInt 1; VStr "SHOW"; VInt 2019; VStr "['Drama','Comedy']";
            VStr "18-25"; VStr "US"; VInt 100]].

(** A merged table that came without the release year. *)
Definition sample_no_year : DataFrame :=
  mkFrame ["show_id"; "type"; "genres"; "viewer_region"]
          [[VInt 1; VStr "SHOW"; VStr "['Drama']"; VStr "US"]].

(** A merged table with a genre cell that is not a list literal. *)
Definition sample_hostile : DataFrame :=
  mkFrame ["show_id"; "type"; "release_year"; "genres"; "viewer_region"]
          [[VInt 1; VStr "SHOW"; VInt 2019; VStr "__import__('os').system('id')";
            VStr "US"]].

(** The two tables as they are read, with the key still named [id]. *)
Definition scenario_content : DataFrame :=
  mkFrame ["id"; "type"; "release_year"; "genres"]
          [[VInt 1; VStr "SHOW"; VInt 2019; VStr "['Drama','Comedy']"];
           [VInt 2; VStr "SHOW"; VInt 2020; VStr "['Crime']"]].

Definition scenario_viewership : DataFrame :=
  mkFrame ["id"; "viewer_age_group"; "viewer_region"; "viewership_count"]
          [[VInt 1; VStr "18-25"; VStr "US"; VInt 100]].

(** * Properties *)

(** ** Values and keys *)

Lemma Value_eqb_eq (a b : Value) : Value_eqb a b = true <-> a = b.
Proof.
  revert b. induction a as [ | x | s | xs IH | n ] using Value_induction; intros [ | y | t | ys | m ];
    simpl; try (split; [discriminate | congruence]); try tauto.
  - rewrite Z.eqb_eq. split; congruence.
  - rewrite String.eqb_eq. split; congruence.
  - revert ys. induction IH as [ | x xs Hx _ IHxs ]; intros [ | y ys ];
      try (split; [discriminate | congruence]); try tauto.
    rewrite andb_true_iff, Hx, IHxs. split.
    + intros [-> E]. now inversion E.
    + intros E. inversion E. auto.
  - rewrite String.eqb_eq. split; congruence.
Qed.

Lemma Value_eqb_refl (a : Value) : Value_eqb a a = true.
Proof. now apply Value_eqb_eq. Qed.

Lemma Value_eqb_neq (a b : Value) : Value_eqb a b = false <-> a <> b.
Proof.
  rewrite <- Value_eqb_eq. destruct (Value_eqb a b); split; congruence.
Qed.

Lemma Value_eqb_sym (a b : Value) : Value_eqb a b = Value_eqb b a.
Proof.
  destruct (Value_eqb a b) eqn:E.
  - apply Value_eqb_eq in E. subst. symmetry. apply Value_eqb_refl.
  - destruct (Value_eqb b a) eqn:E'; [ | reflexivity ].
    apply Value_eqb_eq in E'. subst. now rewrite Value_eqb_refl in E.
Qed.

Lemma Key2_eqb_eq (a b : Key2) : Key2_eqb a b = true <-> a = b.
Proof.
  destruct a as [a1 a2], b as [b1 b2]. unfold Key2_eqb. simpl.
  rewrite andb_true_iff, !Value_eqb_eq. split.
  - intros [-> ->]. reflexivity.
  - intros E. inversion E. auto.
Qed.

(** ** Lists: distinct elements, sorting, counting *)

Section Unique.

Context {A : Type} (eqb : A -> A -> bool).
Hypothesis eqb_eq : forall a b, eqb a b = true <-> a = b.

Lemma unique_In (x : A) (xs : list A) : In x (unique eqb xs) <-> In x xs.
Proof.
  induction xs as [ | y ys IH ]; simpl; [ tauto | ].
  rewrite filter_In, IH. split.
  - intros [H | [H _]]; auto.
  - intros [H | H]; auto.
    destruct (eqb y x) eqn:E.
    + left. now apply eqb_eq.
    + right. split; [ assumption | reflexivity ].
Qed.

Lemma unique_NoDup (xs : list A) : NoDup (unique eqb xs).
Proof.
  induction xs as [ | y ys IH ]; simpl; constructor.
  - rewrite filter_In. intros [_ H].
    assert (E : eqb y y = true) by now apply eqb_eq.
    now rewrite E in H.
  - now apply NoDup_filter.
Qed.

Lemma unique_of_NoDup (xs : list A) : NoDup xs -> unique eqb xs = xs.
Proof.
  induction 1 as [ | y ys Hy _ IH ]; simpl; [ reflexivity | ].
  rewrite IH. f_equal.
  apply forallb_filter_id. apply forallb_forall. intros z Hz.
  destruct (eqb y z) eqn:E; [ | reflexivity ].
  apply eqb_eq in E. subst. contradiction.
Qed.

(** Two lists with the same elements have as many distinct elements. *)
Lemma unique_length (xs ys : list A) :
  (forall x, In x xs <-> In x ys) ->
  length (unique eqb xs) = length (unique eqb ys).
Proof.
  intros H. apply Nat.le_antisymm; apply NoDup_incl_length;
    try apply unique_NoDup; intros x; rewrite !unique_In; apply H.
Qed.

End Unique.

Lemma insert_sorted_length {A} (leb : A -> A -> bool) (x : A) (xs : list A) :
  length (insert_sorted leb x xs) = S (length xs).
Proof.
  induction xs as [ | y ys IH ]; simpl; [ reflexivity | ].
  destruct (leb x y); simpl; congruence.
Qed.

Lemma sort_by_length {A} (leb : A -> A -> bool) (xs : list A) :
  length (sort_by leb xs) = length xs.
Proof.
  induction xs as [ | x xs IH ]; simpl; [ reflexivity | ].
  now rewrite insert_sorted_length, IH.
Qed.

Lemma insert_sorted_In {A} (leb : A -> A -> bool) (x y : A) (xs : list A) :
  In y (insert_sorted leb x xs) <-> y = x \/ In y xs.
Proof.
  induction xs as [ | z zs IH ]; simpl.
  - intuition congruence.
  - destruct (leb x z); simpl; rewrite ?IH; intuition congruence.
Qed.

Lemma sort_by_In {A} (leb : A -> A -> bool) (y : A) (xs : list A) :
  In y (sort_by leb xs) <-> In y xs.
Proof.
  induction xs as [ | x xs IH ]; simpl; [ tauto | ].
  rewrite insert_sorted_In, IH. intuition congruence.
Qed.

Lemma distinct_values_In (v : Value) (vs : list Value) :
  In v (distinct_values vs) <-> In v vs.
Proof.
  unfold distinct_values. rewrite sort_by_In. apply unique_In, Value_eqb_eq.
Qed.

Lemma distinct_values_length (vs ws : list Value) :
  (forall v, In v vs <-> In v ws) ->
  length (distinct_values vs) = length (distinct_values ws).
Proof.
  intros H. unfold distinct_values. rewrite !sort_by_length.
  now apply unique_length; [ apply Value_eqb_eq | ].
Qed.

Lemma flat_map_count {A B} (f : A -> list B) (xs : list A) :
  length (flat_map f xs) = sum_nat (map (fun x => length (f x)) xs).
Proof.
  induction xs as [ | x xs IH ]; simpl; [ reflexivity | ].
  now rewrite length_app, IH.
Qed.

Lemma sum_nat_ext {A} (f g : A -> nat) (xs : list A) :
  (forall x, In x xs -> f x = g x) ->
  sum_nat (map f xs) = sum_nat (map g xs).
Proof.
  induction xs as [ | x xs IH ]; simpl; intros H; [ reflexivity | ].
  rewrite H, IH; auto.
Qed.

Lemma sum_nat_indicator {A} (p : A -> bool) (xs : list A) :
  sum_nat (map (fun x => if p x then 1 else 0)%nat xs) = length (filter p xs).
Proof.
  induction xs as [ | x xs IH ]; simpl; [ reflexivity | ].
  rewrite IH. now destruct (p x).
Qed.

Lemma forallb_of_map {A B} (f : A -> B) (p : B -> bool) (xs : list A) :
  forallb p (map f xs) = forallb (fun x => p (f x)) xs.
Proof.
  induction xs as [ | x xs IH ]; simpl; [ reflexivity | now rewrite IH ].
Qed.

Lemma filter_map_length {A B} (f : A -> B) (p : B -> bool) (xs : list A) :
  length (filter p (map f xs)) = length (filter (fun x => p (f x)) xs).
Proof.
  induction xs as [ | x xs IH ]; simpl; [ reflexivity | ].
  destruct (p (f x)); simpl; now rewrite IH.
Qed.

Lemma existsb_Value_In (k : Value) (ks : list Value) :
  existsb (Value_eqb k) ks = true <-> In k ks.
Proof.
  rewrite existsb_exists. split.
  - intros [x [Hx E]]. apply Value_eqb_eq in E. now subst.
  - intros H. exists k. split; [ assumption | apply Value_eqb_refl ].
Qed.

(** ** Cells *)

Lemma cell_set_cell_other (i k : nat) (v : Value) (r : Row) :
  k <> i -> cell k (set_cell i v r) = cell k r.
Proof.
  unfold cell. revert k r. induction i as [ | i IH ]; intros [ | k ] [ | x r ] H;
    simpl; try reflexivity; try congruence.
  apply IH. congruence.
Qed.

Lemma cell_set_cell_same (i : nat) (v : Value) (r : Row) :
  (i < length r)%nat -> cell i (set_cell i v r) = v.
Proof.
  unfold cell. revert r. induction i as [ | i IH ]; intros [ | x r ] H;
    simpl in *; try lia; [ reflexivity | ].
  apply IH. lia.
Qed.

Lemma set_cell_length (i : nat) (v : Value) (r : Row) :
  length (set_cell i v r) = length r.
Proof.
  revert r. induction i as [ | i IH ]; intros [ | x r ]; simpl; auto.
Qed.

Lemma remove_nth_length {A} (i : nat) (xs : list A) :
  (i < length xs)%nat -> length (remove_nth i xs) = (length xs - 1)%nat.
Proof.
  revert xs. induction i as [ | i IH ]; intros [ | x xs ] H; simpl in *; try lia.
  rewrite IH by lia. lia.
Qed.

Lemma index_of_bound (name : string) (cols : list string) (i : nat) :
  index_of name cols = Some i -> (i < length cols)%nat /\ nth i cols EmptyString = name.
Proof.
  revert i. induction cols as [ | c cols IH ]; simpl; intros i; [ discriminate | ].
  destruct (String.eqb c name) eqn:E.
  - intros [= <-]. apply String.eqb_eq in E. split; [ lia | assumption ].
  - destruct (index_of name cols) as [k | ]; simpl; [ | discriminate ].
    intros [= <-]. destruct (IH k eq_refl). split; [ lia | assumption ].
Qed.

Lemma index_of_has_column (name : string) (df : DataFrame) :
  has_column name df = true <-> exists i, index_of name (columns df) = Some i.
Proof.
  unfold has_column. induction (columns df) as [ | c cols IH ]; simpl.
  - split; [ discriminate | intros [i H]; discriminate ].
  - rewrite String.eqb_sym. destruct (String.eqb c name); simpl.
    + split; eauto.
    + rewrite IH. split; intros [i H].
      * rewrite H. simpl. eauto.
      * destruct (index_of name cols); [ eauto | discriminate ].
Qed.

(** ** Interval bucketing *)

Lemma floor_bucket_floor (y : Z) :
  floor_bucket y <= y < floor_bucket y + 5.
Proof.
  unfold floor_bucket.
  pose proof (Z.div_mod y 5 ltac:(lia)) as E.
  pose proof (Z.mod_pos_bound y 5 ltac:(lia)) as B.
  lia.
Qed.

Lemma floor_bucket_idempotent (y : Z) :
  floor_bucket (floor_bucket y) = floor_bucket y.
Proof.
  unfold floor_bucket. now rewrite Z.div_mul by lia.
Qed.

Lemma floor_bucket_monotone (y1 y2 : Z) :
  y1 <= y2 -> floor_bucket y1 <= floor_bucket y2.
Proof.
  intros H. unfold floor_bucket.
  pose proof (Z.div_le_mono y1 y2 5 ltac:(lia) H). lia.
Qed.

Lemma wrap64_small (z : Z) : - 2 ^ 63 <= z < 2 ^ 63 -> wrap64 z = z.
Proof.
  intros H. unfold wrap64. rewrite Z.mod_small; lia.
Qed.

(** On a column of 64-bit integers the wrapped operations give the bucket
    of every year whose bucket is a 64-bit integer: the years from
    [- 2 ^ 63 + 3] on. *)
Lemma year_interval_exact (y : Z) :
  - 2 ^ 63 + 3 <= y < 2 ^ 63 -> year_interval y = floor_bucket y.
Proof.
  intros H. unfold year_interval.
  pose proof (floor_bucket_floor y) as B. unfold floor_bucket in *.
  assert (Hq : - 2 ^ 63 <= y / 5 < 2 ^ 63).
  { split.
    - apply Z.div_le_lower_bound; lia.
    - apply Z.div_lt_upper_bound; lia. }
  assert (Hm : - 2 ^ 63 <= y / 5 * 5 < 2 ^ 63).
  { assert (exists k, y / 5 * 5 = 5 * k) as [k Hk] by (exists (y / 5); lia).
    change (2 ^ 63) with 9223372036854775808 in *. lia. }
  now rewrite (wrap64_small (y / 5)), wrap64_small.
Qed.

(** The bucket of such a year is such a year. *)
Lemma floor_bucket_range (y : Z) :
  - 2 ^ 63 + 3 <= y < 2 ^ 63 -> - 2 ^ 63 + 3 <= floor_bucket y < 2 ^ 63.
Proof.
  intros H. pose proof (floor_bucket_floor y) as B. split; [ | lia ].
  replace (- 2 ^ 63 + 3) with (floor_bucket (- 2 ^ 63 + 3)) by reflexivity.
  apply floor_bucket_monotone. lia.
Qed.

(** C4, as the code has it.  The years of a table are 64-bit integers, and
    the two operations of the bucketing wrap.  Interval bucketing sends
    every year [y] from [- 2 ^ 63 + 3] on to [floor(y / 5) * 5], the
    multiple [q * 5] with [q * 5 <= y < q * 5 + 5]; on these years it is
    idempotent and monotone, and it sends 2021 to 2020, 1999 to 1995 and
    0 to 0.  The bucketing of a column of such years returns, cell by cell,
    this multiple. *)
Theorem year_interval_bucketing :
  (forall y, - 2 ^ 63 + 3 <= y < 2 ^ 63 ->
     exists q, year_interval y = q * 5 /\ q * 5 <= y < q * 5 + 5)
  /\ (forall y, - 2 ^ 63 + 3 <= y < 2 ^ 63 ->
        year_interval (year_interval y) = year_interval y)
  /\ (forall y1 y2, - 2 ^ 63 + 3 <= y1 -> y1 <= y2 -> y2 < 2 ^ 63 ->
        year_interval y1 <= year_interval y2)
  /\ year_interval 2021 = 2020
  /\ year_interval 1999 = 1995
  /\ year_interval 0 = 0
  /\ (forall name df years,
        getitem name df = Ok (map VInt years) ->
        Forall (fun y => - 2 ^ 63 + 3 <= y < 2 ^ 63) years ->
        bucket_column name df = Ok (map (fun y => VInt (y / 5 * 5)) years)).
Proof.
  split; [ | split; [ | split; [ | split; [ | split; [ | split ] ] ] ] ];
    try reflexivity.
  - intros y Hy. exists (y / 5). rewrite (year_interval_exact y Hy).
    pose proof (floor_bucket_floor y). unfold floor_bucket in *. lia.
  - intros y Hy. rewrite (year_interval_exact y Hy).
    rewrite (year_interval_exact (floor_bucket y)) by now apply floor_bucket_range.
    apply floor_bucket_idempotent.
  - intros y1 y2 H1 H12 H2.
    rewrite (year_interval_exact y1), (year_interval_exact y2) by lia.
    now apply floor_bucket_monotone.
  - intros name df years Hget Hall. unfold bucket_column. rewrite Hget.
    assert (Hint : int64_column (map VInt years) = true).
    { unfold int64_column. apply forallb_forall. intros v Hv.
      apply in_map_iff in Hv as [y [<- Hy]]. rewrite Forall_forall in Hall.
      specialize (Hall y Hy). unfold in_int64.
      apply andb_true_iff. split; [ apply Z.leb_le | apply Z.ltb_lt ]; lia. }
    rewrite Hint. clear Hget Hint.
    induction Hall as [ | y years Hy _ IH ]; [ reflexivity | ].
    cbn [map traverse floordiv_mul]. rewrite IH, (year_interval_exact y Hy).
    reflexivity.
Qed.

Lemma year_interval_bucketing_witness :
  - 2 ^ 63 + 3 <= 1999 /\ 1999 <= 2021 /\ 2021 < 2 ^ 63
  /\ year_interval 1999 <= year_interval 2021.
Proof.
  assert (H1 : - 2 ^ 63 + 3 <= 1999) by (apply Z.leb_le; reflexivity).
  assert (H2 : 1999 <= 2021) by lia.
  assert (H3 : 2021 < 2 ^ 63) by (apply Z.ltb_lt; reflexivity).
  split; [ exact H1 | ]. split; [ exact H2 | ]. split; [ exact H3 | ].
  exact (proj1 (proj2 (proj2 year_interval_bucketing)) 1999 2021 H1 H2 H3).
Defined.

(** C4 as stated fails on the three least years a column can hold: the
    product leaves the range and wraps around, so that the bucket of
    [- 2 ^ 63] is [2 ^ 63 - 2], which is neither at most the year nor in
    order with the bucket of a later year. *)
Lemma year_interval_counterexample :
  let y := - 2 ^ 63 in
  bucket_column "release_year" (mkFrame ["release_year"] [[VInt y]])
  = Ok [VInt (2 ^ 63 - 2)]
  /\ year_interval y = 2 ^ 63 - 2
  /\ year_interval (y + 1) = 2 ^ 63 - 2
  /\ year_interval (y + 2) = 2 ^ 63 - 2
  /\ floor_bucket y = - 2 ^ 63 - 2
  /\ ~ (forall y0, exists q, year_interval y0 = q * 5 /\ q * 5 <= y0 < q * 5 + 5)
  /\ ~ (forall y1 y2, y1 <= y2 -> year_interval y1 <= year_interval y2).
Proof.
  intros y. do 5 (split; [ reflexivity | ]). split.
  - intros H. destruct (H y) as [q [E [B _]]]. rewrite <- E in B.
    vm_compute in B. now apply B.
  - intros H. specialize (H y (y + 3) ltac:(lia)). vm_compute in H. now apply H.
Qed.

(** The bucket of a number cell. *)
Lemma floordiv_mul_int (wraps : bool) (y : Z) :
  floordiv_mul wraps (VInt y)
  = Ok (VInt (if wraps then year_interval y else floor_bucket y)).
Proof. reflexivity. Qed.

(** ** The dataset loader *)

Lemma load_dataset_returns (read_csv : string -> Result DataFrame)
    (url : string) (c : Console) (df : DataFrame) :
  read_csv url = Ok df -> load_dataset read_csv url c = (c, Ok (Some df)).
Proof.
  intros H. unfold load_dataset, try_except, bind, lift. now rewrite H.
Qed.

Lemma load_dataset_fails (read_csv : string -> Result DataFrame)
    (url : string) (c : Console) (e : Exception) :
  read_csv url = Raise e ->
  load_dataset read_csv url c
  = (c ++ [Printed ("Error loading dataset: " ++ exception_str e)], Ok None).
Proof.
  intros H. unfold load_dataset, try_except, bind, lift. now rewrite H.
Qed.

(** C7.  At every source location the loader returns: the parsed table when
    the reader returns one, and otherwise the null marker, after printing
    one diagnostic line that carries the reader's error.  It raises
    nothing, whatever the reader does. *)
Theorem load_dataset_total (read_csv : string -> Result DataFrame)
    (url : string) (c : Console) :
  ((exists df, read_csv url = Ok df
               /\ load_dataset read_csv url c = (c, Ok (Some df)))
   \/ (exists e, read_csv url = Raise e
                 /\ load_dataset read_csv url c
                    = (c ++ [Printed ("Error loading dataset: " ++ exception_str e)],
                       Ok None)))
  /\ forall e, snd (load_dataset read_csv url c) <> Raise e.
Proof.
  destruct (read_csv url) as [df | e] eqn:E.
  - rewrite (load_dataset_returns _ _ _ _ E). split; [ | discriminate ].
    left. exists df. split; reflexivity.
  - rewrite (load_dataset_fails _ _ _ _ E). split; [ | discriminate ].
    right. exists e. split; reflexivity.
Qed.

(** ** The inner join *)

Lemma key_intersection_In (k : Value) (ks1 ks2 : list Value) :
  In k (key_intersection ks1 ks2) <-> In k ks1 /\ In k ks2.
Proof.
  unfold key_intersection.
  rewrite filter_In, existsb_Value_In, (unique_In _ Value_eqb_eq). tauto.
Qed.

Lemma key_intersection_NoDup (ks1 ks2 : list Value) :
  NoDup (key_intersection ks1 ks2).
Proof.
  apply NoDup_filter, unique_NoDup, Value_eqb_eq.
Qed.

Lemma join_row_length (i j : nat) (right : list Row) (l : Row) :
  length (join_row i j right l) = matches i j right l.
Proof. unfold join_row, matches. apply length_map. Qed.

(** With distinct keys on the right, a left row has one match or none. *)
Lemma matches_unique_right (i j : nat) (right : list Row) (l : Row) :
  NoDup (keys j right) ->
  matches i j right l
  = if existsb (Value_eqb (cell i l)) (keys j right) then 1%nat else 0%nat.
Proof.
  unfold matches, keys. induction right as [ | r rs IH ]; simpl; intros H.
  - reflexivity.
  - inversion H as [ | ? ? Hr Hrs ]; subst.
    destruct (Value_eqb (cell i l) (cell j r)) eqn:E; simpl.
    + rewrite IH by assumption.
      apply Value_eqb_eq in E.
      destruct (existsb (Value_eqb (cell i l)) (map (cell j) rs)) eqn:E'.
      * apply existsb_Value_In in E'. rewrite E in E'. contradiction.
      * reflexivity.
    + now apply IH.
Qed.

Lemma merge_rows (left right : DataFrame) (on : string) (i j : nat) :
  key_position on left = Ok i -> key_position on right = Ok j ->
  compatible_keys (keys i (rows left)) (keys j (rows right)) = true ->
  distinct_labels (merged_columns on j left right) = true ->
  forallb hashable (keys i (rows left)) = true ->
  forallb hashable (keys j (rows right)) = true ->
  merge left right on
  = Ok (mkFrame (merged_columns on j left right)
                (flat_map (join_row i j (rows right)) (rows left))).
Proof.
  intros Hi Hj Hc Hd Hl Hr. unfold merge. rewrite Hi, Hj.
  unfold keys in Hl, Hr, Hc. rewrite forallb_of_map in Hl, Hr.
  now rewrite Hc, Hd, Hl, Hr.
Qed.

Lemma key_position_bound (on : string) (df : DataFrame) (i : nat) :
  key_position on df = Ok i -> (i < length (columns df))%nat.
Proof.
  unfold key_position. destruct (index_of on (columns df)) as [k | ] eqn:E;
    [ | discriminate ].
  destruct (count_label on (columns df) =? 1)%nat; [ | discriminate ].
  intros [= <-]. now apply index_of_bound in E.
Qed.

(** C2, as the code has it.  On two tables that have the key column once,
    with hashable keys of compatible types and no clash among the suffixed
    labels, the inner join returns a table whose rows are the
    left rows, each followed by the cells other than the key of a right row
    with the same key, once for every such pair; it has all the columns of
    both tables, the key once.  The number of rows is the sum over the left
    rows of the number of right rows with that key.  When no key repeats
    within either table, that number is the cardinality of the intersection
    of the two key sets, and at most the smaller of the two row counts. *)
Theorem merge_inner_join (left right : DataFrame) (on : string) (i j : nat) :
  key_position on left = Ok i -> key_position on right = Ok j ->
  compatible_keys (keys i (rows left)) (keys j (rows right)) = true ->
  distinct_labels (merged_columns on j left right) = true ->
  forallb hashable (keys i (rows left)) = true ->
  forallb hashable (keys j (rows right)) = true ->
  exists m,
    merge left right on = Ok m
    /\ length (rows m) = sum_nat (map (matches i j (rows right)) (rows left))
    /\ (forall row, In row (rows m) <->
          exists l r, In l (rows left) /\ In r (rows right)
                      /\ cell i l = cell j r /\ row = l ++ remove_nth j r)
    /\ length (columns m) = (length (columns left) + length (columns right) - 1)%nat
    /\ (NoDup (keys i (rows left)) -> NoDup (keys j (rows right)) ->
        length (rows m)
        = length (key_intersection (keys i (rows left)) (keys j (rows right)))
        /\ (length (rows m) <= Nat.min (length (rows left)) (length (rows right)))%nat).
Proof.
  intros Hi Hj Hc Hd Hl Hr. eexists.
  split; [ exact (merge_rows _ _ _ i j Hi Hj Hc Hd Hl Hr) | ]. simpl.
  assert (Hcount : length (flat_map (join_row i j (rows right)) (rows left))
                   = sum_nat (map (matches i j (rows right)) (rows left))).
  { rewrite flat_map_count. apply sum_nat_ext. intros l _. apply join_row_length. }
  split; [ exact Hcount | ]. split; [ | split ].
  - intros row. rewrite in_flat_map. unfold join_row. split.
    + intros [l [Hin Hrow]]. apply in_map_iff in Hrow as [r [<- Hr']].
      apply filter_In in Hr' as [Hr' E]. apply Value_eqb_eq in E.
      exists l, r. auto.
    + intros [l [r [Hin [Hin' [E ->]]]]]. exists l. split; [ assumption | ].
      apply in_map_iff. exists r. split; [ reflexivity | ].
      apply filter_In. split; [ assumption | ].
      now apply Value_eqb_eq.
  - unfold merged_columns.
    rewrite length_app, length_map, remove_nth_length, length_map.
    + apply key_position_bound in Hj. lia.
    + rewrite length_map. now apply key_position_bound in Hj.
  - intros Nl Nr. rewrite Hcount.
    assert (E : sum_nat (map (matches i j (rows right)) (rows left))
                = length (key_intersection (keys i (rows left)) (keys j (rows right)))).
    { unfold key_intersection.
      rewrite (unique_of_NoDup _ Value_eqb_eq) by assumption.
      rewrite (sum_nat_ext _ (fun l => if existsb (Value_eqb (cell i l)) (keys j (rows right))
                                       then 1 else 0)%nat)
        by (intros l _; now apply matches_unique_right).
      rewrite sum_nat_indicator. unfold keys at 2.
      symmetry. apply filter_map_length. }
    split; [ exact E | ]. rewrite E. apply Nat.min_glb.
    + unfold key_intersection. rewrite (unique_of_NoDup _ Value_eqb_eq) by assumption.
      etransitivity; [ apply filter_length_le | ]. unfold keys. now rewrite length_map.
    + replace (length (rows right)) with (length (keys j (rows right)))
        by apply length_map.
      apply NoDup_incl_length; [ apply key_intersection_NoDup | ].
      intros k Hk. now apply key_intersection_In in Hk.
Qed.

Lemma merge_inner_join_witness :
  exists m, merge sample_content sample_viewership "show_id" = Ok m
            /\ length (rows m) = 1%nat
            /\ length (columns m) = 7%nat.
Proof.
  destruct (merge_inner_join sample_content sample_viewership "show_id" 0 0
              eq_refl eq_refl eq_refl eq_refl eq_refl eq_refl)
    as [m [Hm [Hn [_ [Hc _]]]]].
  exists m. split; [ exact Hm | ]. split; [ exact Hn | exact Hc ].
Defined.

(** C2 as stated fails: with one content row and two viewership rows of
    the same show, the join has two rows, more than the smaller table and
    more than the one key the tables share. *)
Lemma merge_row_count_counterexample :
  let left := mkFrame ["show_id"; "type"] [[VInt 1; VStr "SHOW"]] in
  let right := mkFrame ["show_id"; "viewer_region"]
                       [[VInt 1; VStr "US"]; [VInt 1; VStr "IN"]] in
  merge left right "show_id"
  = Ok (mkFrame ["show_id"; "type"; "viewer_region"]
                [[VInt 1; VStr "SHOW"; VStr "US"]; [VInt 1; VStr "SHOW"; VStr "IN"]])
  /\ Nat.min (length (rows left)) (length (rows right)) = 1%nat
  /\ length (key_intersection (keys 0 (rows left)) (keys 0 (rows right))) = 1%nat
  /\ ~ (forall m, merge left right "show_id" = Ok m ->
          (length (rows m) <= Nat.min (length (rows left)) (length (rows right)))%nat
          /\ length (rows m)
             = length (key_intersection (keys 0 (rows left)) (keys 0 (rows right)))).
Proof.
  intros left right. repeat split.
  intros H. destruct (H _ eq_refl) as [H1 _]. simpl in H1. lia.
Qed.

(** ** Well-formed tables *)

Lemma distinct_labels_NoDup (cols : list string) :
  distinct_labels cols = true <-> NoDup cols.
Proof.
  induction cols as [ | c cols IH ]; simpl.
  - split; [ constructor | reflexivity ].
  - rewrite andb_true_iff, negb_true_iff, IH, NoDup_cons_iff.
    assert (E : existsb (String.eqb c) cols = false <-> ~ In c cols).
    { rewrite <- not_true_iff_false, existsb_exists. split.
      - intros H Hin. apply H. exists c. split; [ assumption | apply String.eqb_refl ].
      - intros H [x [Hx Ex]]. apply String.eqb_eq in Ex. now subst. }
    now rewrite E.
Qed.

Lemma remove_nth_length_le {A} (i : nat) (xs : list A) :
  length (remove_nth i xs)
  = if (i <? length xs)%nat then (length xs - 1)%nat else length xs.
Proof.
  revert xs. induction i as [ | i IH ]; intros [ | x xs ]; simpl; try reflexivity.
  - lia.
  - rewrite IH. change (S i <? S (length xs))%nat with (i <? length xs)%nat.
    destruct (i <? length xs)%nat eqn:E; [ | reflexivity ].
    apply Nat.ltb_lt in E. lia.
Qed.

(** The join of two well-formed tables is well formed. *)
Lemma merge_well_formed (left right m : DataFrame) (on : string) :
  well_formed left -> well_formed right ->
  merge left right on = Ok m -> well_formed m.
Proof.
  intros [_ Hl] [_ Hr]. unfold merge.
  destruct (key_position on left) as [i | ] eqn:Hi; [ | discriminate ].
  destruct (key_position on right) as [j | ] eqn:Hj; [ | discriminate ].
  destruct (negb (compatible_keys _ _)); [ discriminate | ].
  destruct (negb (distinct_labels _)) eqn:Hd; [ discriminate | ].
  destruct (_ && _); [ | discriminate ].
  intros [= <-]. split; simpl.
  - apply distinct_labels_NoDup. now apply negb_false_iff in Hd.
  - intros row Hrow. apply in_flat_map in Hrow as [l [Hin Hrow]].
    unfold join_row in Hrow. apply in_map_iff in Hrow as [r [<- Hin']].
    apply filter_In in Hin' as [Hin' _].
    apply key_position_bound in Hj. unfold merged_columns.
    rewrite !length_app, !remove_nth_length_le, !length_map.
    rewrite (Hl l Hin), (Hr r Hin').
    now destruct (j <? length (columns right))%nat.
Qed.

Lemma select_eq_well_formed (name : string) (value : Value) (df tv : DataFrame) :
  well_formed df -> select_eq name value df = Ok tv -> well_formed tv.
Proof.
  intros [Hc Hr]. unfold select_eq.
  destruct (index_of name (columns df)); [ | discriminate ].
  intros [= <-]. split; simpl; [ assumption | ].
  intros r Hin. apply filter_In in Hin as [Hin _]. now apply Hr.
Qed.

Lemma explode_well_formed (name : string) (df ex : DataFrame) :
  well_formed df -> explode name df = Ok ex -> well_formed ex.
Proof.
  intros [Hc Hr]. unfold explode.
  destruct (index_of name (columns df)) as [i | ]; [ | discriminate ].
  intros [= <-]. split; simpl; [ assumption | ].
  intros row Hin. apply in_flat_map in Hin as [r [Hin Hrow]].
  rewrite <- (Hr r Hin). unfold explode_row in Hrow.
  destruct (cell i r) as [ | | | [ | x xs] | ]; simpl in Hrow.
  1, 2, 3, 6: destruct Hrow as [<- | []]; reflexivity.
  - destruct Hrow as [<- | []]. apply set_cell_length.
  - destruct Hrow as [<- | Hrow]; [ apply set_cell_length | ].
    apply in_map_iff in Hrow as [y [<- _]]. apply set_cell_length.
Qed.

(** ** The merge cell *)

(** C8.  When either loaded dataset is the null marker, the cell takes the
    failure branch: it prints the diagnostic and changes nothing else, so
    that no merged table is assigned and the join is not run on either
    dataset. *)
Theorem merge_cell_null (g : Globals) :
  netflix_df g = None \/ viewership_df g = None ->
  merge_cell g
  = (mkGlobals (netflix_df g) (viewership_df g) (data g)
       (output g ++ [Printed "Failed to load or merge datasets"]),
     Ok tt).
Proof.
  intros [H | H]; unfold merge_cell; rewrite H.
  - reflexivity.
  - destruct (netflix_df g); reflexivity.
Qed.

Lemma merge_cell_null_witness :
  let g := mkGlobals (Some (mkFrame ["show_id"; "type"] [[VInt 1; VStr "SHOW"]]))
                     None None [] in
  (netflix_df g = None \/ viewership_df g = None)
  /\ data (fst (merge_cell g)) = None
  /\ output (fst (merge_cell g)) = [Printed "Failed to load or merge datasets"].
Proof.
  intros g. split; [ right; reflexivity | ]. rewrite (merge_cell_null g (or_intror eq_refl)). split; reflexivity.
Defined.

(** The cell assigns a merged table only when both datasets are there. *)
Lemma merge_cell_assigns (g : Globals) (d : DataFrame) :
  data g = None -> data (fst (merge_cell g)) = Some d ->
  exists n v, netflix_df g = Some n /\ viewership_df g = Some v
              /\ merge (normalize_key n) (normalize_key v) "show_id" = Ok d.
Proof.
  intros Hd. unfold merge_cell.
  destruct (netflix_df g) as [n | ], (viewership_df g) as [v | ]; simpl;
    try (rewrite Hd; discriminate).
  destruct (merge (normalize_key n) (normalize_key v) "show_id") as [m | e] eqn:E;
    simpl; [ | rewrite Hd; discriminate ].
  intros [= ->]. exists n, v. auto.
Qed.

(** ** Explosion *)

Lemma explode_row_length (i : nat) (r : Row) :
  is_list (cell i r) = true ->
  length (explode_row i r) = Nat.max 1 (genre_length i r).
Proof.
  unfold explode_row, genre_length. destruct (cell i r) as [ | | | [ | x xs] | ];
    try discriminate; intros _; simpl; [ reflexivity | ].
  now rewrite length_map.
Qed.

(** The rows made of a row differ from it in the exploded cell only. *)
Lemma explode_row_other_cells (i k : nat) (r row : Row) :
  In row (explode_row i r) -> k <> i -> cell k row = cell k r.
Proof.
  unfold explode_row. intros H Hk.
  destruct (cell i r) as [ | | | [ | x xs] | ]; simpl in H.
  1, 2, 3, 6: destruct H as [<- | []]; reflexivity.
  - destruct H as [<- | []]. now apply cell_set_cell_other.
  - destruct H as [<- | H]; [ now apply cell_set_cell_other | ].
    apply in_map_iff in H as [y [<- _]]. now apply cell_set_cell_other.
Qed.

(** A list with elements gives one row per element, in order; an empty
    list gives one row whose cell is missing. *)
Lemma explode_row_elements (i : nat) (r : Row) (xs : list Value) :
  cell i r = VList xs ->
  explode_row i r
  = match xs with
    | [] => [set_cell i VNaN r]
    | _ => map (fun x => set_cell i x r) xs
    end.
Proof. unfold explode_row. now intros ->. Qed.

(** C3, as the code has it.  On a table whose genre cells are all lists,
    explosion returns a table with the same columns that has, for every
    source row, one row per element of its list, and one row with a missing
    genre when the list is empty; every output row has the cells of its
    source row in all the other columns.  The number of output rows is the
    sum over the input rows of the length of the list, an empty list
    counting for one; when no list is empty it is the sum of the lengths. *)
Theorem explode_row_count (name : string) (df : DataFrame) (i : nat) :
  index_of name (columns df) = Some i ->
  (forall r, In r (rows df) -> is_list (cell i r) = true) ->
  exists ex,
    explode name df = Ok ex
    /\ columns ex = columns df
    /\ length (rows ex)
       = sum_nat (map (fun r => Nat.max 1 (genre_length i r)) (rows df))
    /\ ((forall r, In r (rows df) -> genre_length i r <> 0%nat) ->
        length (rows ex) = sum_nat (map (genre_length i) (rows df)))
    /\ (forall row, In row (rows ex) ->
          exists r, In r (rows df) /\ In row (explode_row i r)
                    /\ forall k, k <> i -> cell k row = cell k r)
    /\ (forall r, In r (rows df) -> cell i r = VList [] ->
          In (set_cell i VNaN r) (rows ex)).
Proof.
  intros Hi Hlist. unfold explode. rewrite Hi. eexists. split; [ reflexivity | ].
  simpl. split; [ reflexivity | ].
  assert (Hcount : length (flat_map (explode_row i) (rows df))
                   = sum_nat (map (fun r => Nat.max 1 (genre_length i r)) (rows df))).
  { rewrite flat_map_count. apply sum_nat_ext. intros r Hr.
    apply explode_row_length. now apply Hlist. }
  split; [ exact Hcount | ]. split; [ | split ].
  - intros Hne. rewrite Hcount. apply sum_nat_ext. intros r Hr.
    specialize (Hne r Hr). lia.
  - intros row Hrow. apply in_flat_map in Hrow as [r [Hr Hrow]].
    exists r. split; [ assumption | ]. split; [ assumption | ].
    intros k Hk. now apply explode_row_other_cells with (i := i).
  - intros r Hr He. apply in_flat_map. exists r. split; [ assumption | ].
    rewrite (explode_row_elements i r [] He). now left.
Qed.

Lemma explode_row_count_witness :
  let df := mkFrame ["show_id"; "genres"]
                    [[VInt 1; VList [VStr "Drama"; VStr "Comedy"]];
                     [VInt 2; VList [VStr "Action"]]] in
  exists ex, explode "genres" df = Ok ex /\ length (rows ex) = 3%nat.
Proof.
  intros df.
  assert (Hlist : forall r, In r (rows df) -> is_list (cell 1 r) = true).
  { intros r [<- | [<- | []]]; reflexivity. }
  destruct (explode_row_count "genres" df 1 eq_refl Hlist) as [ex [Hex [_ [Hn _]]]].
  exists ex. split; [ exact Hex | exact Hn ].
Defined.

(** C3 as stated fails on an empty list: the row does not disappear, it
    stays as one row with a missing genre, so that the output has one row
    where the sum of the lengths is zero. *)
Lemma explode_empty_counterexample :
  let df := mkFrame ["show_id"; "genres"] [[VInt 7; VList []]] in
  explode "genres" df = Ok (mkFrame ["show_id"; "genres"] [[VInt 7; VNaN]])
  /\ sum_nat (map (genre_length 1) (rows df)) = 0%nat
  /\ ~ (forall ex, explode "genres" df = Ok ex ->
          length (rows ex) = sum_nat (map (genre_length 1) (rows df))).
Proof.
  intros df. split; [ reflexivity | ]. split; [ reflexivity | ].
  intros H. specialize (H _ eq_refl). discriminate H.
Qed.

(** ** Wide and long form *)

Lemma sum_nat_const {A} (c : nat) (xs : list A) :
  sum_nat (map (fun _ => c) xs) = (length xs * c)%nat.
Proof.
  induction xs as [ | x xs IH ]; simpl; [ reflexivity | now rewrite IH ].
Qed.

Lemma combine_map_self {A B} (f : A -> B) (xs : list A) :
  combine xs (map f xs) = map (fun x => (x, f x)) xs.
Proof.
  induction xs as [ | x xs IH ]; simpl; [ reflexivity | now rewrite IH ].
Qed.

(** The pairs of [combine (seq s n) xs] are the elements with their
    positions. *)
Lemma combine_seq_In {A} (d : A) (xs : list A) (s k : nat) (x : A) :
  In (k, x) (combine (seq s (length xs)) xs)
  <-> (s <= k < s + length xs)%nat /\ nth (k - s) xs d = x.
Proof.
  revert s. induction xs as [ | y ys IH ]; intros s; simpl.
  - split; [ tauto | lia ].
  - rewrite IH. split.
    + intros [[= <- <-] | [H <-]].
      * rewrite Nat.sub_diag. split; [ lia | reflexivity ].
      * split; [ lia | ]. replace (k - s)%nat with (S (k - S s)) by lia. reflexivity.
    + intros [H <-]. destruct (Nat.eq_dec k s) as [-> | Hk].
      * left. now rewrite Nat.sub_diag.
      * right. split; [ lia | ].
        replace (k - s)%nat with (S (k - S s)) by lia. reflexivity.
Qed.

Lemma cell_map {A} (f : A -> Value) (xs : list A) (d : A) (k : nat) :
  (k < length xs)%nat -> cell k (map f xs) = f (nth k xs d).
Proof.
  intros H. unfold cell. rewrite (nth_indep _ VNaN (f d)) by now rewrite length_map.
  apply map_nth.
Qed.

(** The rows of the long form of a wide table made by [unstack]: one for
    every pair of an index value and a label. *)
Lemma melt_unstack (name var value : string) (fill : Value) (s : Series2)
    (long : DataFrame) :
  reset_index_melt var value (unstack name fill s) = Ok long ->
  let idx := distinct_values (map (fun kv => fst (fst kv)) s) in
  let lbl := distinct_values (map (fun kv => snd (fst kv)) s) in
  columns long = [name; var; value]
  /\ length (rows long) = (length idx * length lbl)%nat
  /\ (forall row, In row (rows long) <->
        exists a b, In a idx /\ In b lbl /\ row = [a; b; wide_cell fill s a b]).
Proof.
  intros H idx lbl. unfold reset_index_melt, unstack in H. simpl in H.
  fold idx lbl in H.
  destruct (existsb _ lbl); [ discriminate | ]. destruct (existsb _ lbl); [ discriminate | ].
  injection H as <-. simpl.
  rewrite combine_map_self. split; [ reflexivity | ]. split.
  - rewrite flat_map_count.
    rewrite (sum_nat_ext _ (fun _ => length idx))
      by (intros x _; now rewrite !length_map).
    rewrite sum_nat_const, length_combine, length_seq, Nat.min_id. apply Nat.mul_comm.
  - intros row. rewrite in_flat_map. split.
    + intros [[k b] [Hkb Hrow]]. simpl in Hrow. rewrite map_map in Hrow.
      apply in_map_iff in Hrow as [a [<- Ha]]. simpl.
      apply (combine_seq_In VNaN) in Hkb as [Hk Hb]. rewrite Nat.sub_0_r in Hb.
      exists a, b. split; [ assumption | ]. split.
      * subst b. apply nth_In. lia.
      * rewrite (cell_map _ _ VNaN) by lia. now rewrite Hb.
    + intros [a [b [Ha [Hb ->]]]].
      destruct (In_nth _ _ VNaN Hb) as [k [Hk Hnth]].
      exists (k, b). split.
      * apply (combine_seq_In VNaN). rewrite Nat.sub_0_r. split; [ lia | assumption ].
      * simpl. rewrite map_map. apply in_map_iff. exists a. split; [ | assumption ].
        simpl. rewrite (cell_map _ _ VNaN) by assumption. now rewrite Hnth.
Qed.

Lemma reset_index_melt_returns (var value : string) (w : Wide) :
  (forall b, In b (labels w) -> b <> VStr (index_name w) /\ b <> VStr value) ->
  exists long, reset_index_melt var value w = Ok long.
Proof.
  intros H. unfold reset_index_melt.
  destruct (existsb (Value_eqb (VStr (index_name w))) (labels w)) eqn:E1.
  { apply existsb_Value_In in E1. now destruct (H _ E1). }
  destruct (existsb (Value_eqb (VStr value)) (labels w)) eqn:E2.
  { apply existsb_Value_In in E2. now destruct (H _ E2). }
  eauto.
Qed.

(** ** Grouping *)

Lemma groupby2_returns (d1 d2 : string) (df : DataFrame) (i j : nat) :
  index_of d1 (columns df) = Some i -> index_of d2 (columns df) = Some j ->
  groupby2 d1 d2 df = Ok (KeyColumns i j).
Proof.
  intros Hi Hj. unfold groupby2. now rewrite Hi, Hj.
Qed.

Lemma group_rows_returns (i j : nat) (rs : list Row) :
  forallb (fun r => hashable (cell i r) && hashable (cell j r)) rs = true ->
  group_rows i j rs
  = Ok (map (fun k => (k, filter (fun r => Key2_eqb (keyed i j r) k) (valid_rows i j rs)))
            (group_keys i j rs)).
Proof.
  intros Hh. unfold group_rows. now rewrite Hh.
Qed.

Lemma size_unstack_returns (d1 d2 : string) (fill : Value) (df : DataFrame) (i j : nat) :
  index_of d1 (columns df) = Some i -> index_of d2 (columns df) = Some j ->
  forallb (fun r => hashable (cell i r) && hashable (cell j r)) (rows df) = true ->
  size_unstack d1 d2 fill df
  = Ok (unstack d1 fill
          (size (map (fun k => (k, filter (fun r => Key2_eqb (keyed i j r) k)
                                          (valid_rows i j (rows df))))
                     (group_keys i j (rows df))))).
Proof.
  intros Hi Hj Hh. unfold size_unstack.
  now rewrite (groupby2_returns d1 d2 df i j Hi Hj), (group_rows_returns i j _ Hh).
Qed.

Lemma group_keys_In (i j : nat) (rs : list Row) (k : Key2) :
  In k (group_keys i j rs) <-> In k (map (keyed i j) (valid_rows i j rs)).
Proof.
  unfold group_keys. rewrite sort_by_In. apply unique_In, Key2_eqb_eq.
Qed.

Lemma valid_rows_In (i j : nat) (rs : list Row) (r : Row) :
  In r (valid_rows i j rs)
  <-> In r rs /\ cell i r <> VNaN /\ cell j r <> VNaN.
Proof.
  unfold valid_rows, valid_key, keyed. rewrite filter_In, andb_true_iff. simpl.
  assert (N : forall v, notna v = true <-> v <> VNaN).
  { intros [ | | | | ]; simpl; split; congruence. }
  now rewrite !N.
Qed.

Lemma group_keys_fst (i j : nat) (rs : list Row) (a : Value) :
  In a (map fst (group_keys i j rs)) <-> In a (map (cell i) (valid_rows i j rs)).
Proof.
  rewrite !in_map_iff. split.
  - intros [[a' b] [<- Hk]]. apply group_keys_In, in_map_iff in Hk as [r [E Hr]].
    exists r. split; [ | assumption ]. now inversion E.
  - intros [r [<- Hr]]. exists (keyed i j r). split; [ reflexivity | ].
    apply group_keys_In. now apply in_map.
Qed.

Lemma group_keys_snd (i j : nat) (rs : list Row) (b : Value) :
  In b (map snd (group_keys i j rs)) <-> In b (map (cell j) (valid_rows i j rs)).
Proof.
  rewrite !in_map_iff. split.
  - intros [[a b'] [<- Hk]]. apply group_keys_In, in_map_iff in Hk as [r [E Hr]].
    exists r. split; [ | assumption ]. now inversion E.
  - intros [r [<- Hr]]. exists (keyed i j r). split; [ reflexivity | ].
    apply group_keys_In. now apply in_map.
Qed.

Lemma lookup2_keys (f : Key2 -> Value) (ks : list Key2) (k : Key2) :
  lookup2 k (map (fun k' => (k', f k')) ks)
  = if existsb (Key2_eqb k) ks then Some (f k) else None.
Proof.
  induction ks as [ | k' ks IH ]; simpl; [ reflexivity | ].
  destruct (Key2_eqb k' k) eqn:E.
  - apply Key2_eqb_eq in E. subst.
    assert (R : Key2_eqb k k = true) by now apply Key2_eqb_eq.
    now rewrite R.
  - assert (R : Key2_eqb k k' = false).
    { destruct (Key2_eqb k k') eqn:E'; [ | reflexivity ].
      apply Key2_eqb_eq in E'. subst.
      rewrite (proj2 (Key2_eqb_eq k' k') eq_refl) in E. discriminate. }
    now rewrite R.
Qed.

Lemma existsb_Key2_In (k : Key2) (ks : list Key2) :
  existsb (Key2_eqb k) ks = true <-> In k ks.
Proof.
  rewrite existsb_exists. split.
  - intros [x [Hx E]]. apply Key2_eqb_eq in E. now subst.
  - intros H. exists k. split; [ assumption | now apply Key2_eqb_eq ].
Qed.

Lemma filter_none {A} (p : A -> bool) (xs : list A) :
  (forall x, In x xs -> p x = false) -> filter p xs = [].
Proof.
  induction xs as [ | x xs IH ]; simpl; intros H; [ reflexivity | ].
  rewrite (H x) by now left. apply IH. intros y Hy. apply H. now right.
Qed.

Lemma filter_filter_implied {A} (p q : A -> bool) (xs : list A) :
  (forall x, p x = true -> q x = true) ->
  filter p (filter q xs) = filter p xs.
Proof.
  intros H. induction xs as [ | x xs IH ]; simpl; [ reflexivity | ].
  destruct (q x) eqn:Q; simpl.
  - now rewrite IH.
  - destruct (p x) eqn:P; [ | assumption ].
    apply H in P. congruence.
Qed.

(** Rows with a missing dimension are in no group, and have no pair of
    present values: counting over the groups is counting over the table. *)
Lemma occurrences_valid (i j : nat) (a b : Value) (rs : list Row) :
  a <> VNaN -> b <> VNaN ->
  occurrences i j a b (valid_rows i j rs) = occurrences i j a b rs.
Proof.
  intros Ha Hb. unfold occurrences, valid_rows. f_equal.
  apply filter_filter_implied. intros r E. apply Key2_eqb_eq in E.
  unfold valid_key. rewrite E. simpl.
  destruct a, b; simpl; congruence.
Qed.

(** The cell of the wide table of counts, with zero as the fill value, is
    the number of rows that have the pair. *)
Lemma wide_cell_size (i j : nat) (rs : list Row) (a b : Value) :
  let groups := map (fun k => (k, filter (fun r => Key2_eqb (keyed i j r) k)
                                         (valid_rows i j rs)))
                    (group_keys i j rs) in
  wide_cell (VInt 0) (size groups) a b
  = VInt (Z.of_nat (occurrences i j a b (valid_rows i j rs))).
Proof.
  intros groups. unfold wide_cell, size, groups. rewrite map_map. simpl.
  rewrite (lookup2_keys
             (fun k => VInt (Z.of_nat (length (filter (fun r => Key2_eqb (keyed i j r) k)
                                                      (valid_rows i j rs)))))).
  destruct (existsb (Key2_eqb (a, b)) (group_keys i j rs)) eqn:E; [ reflexivity | ].
  unfold occurrences. rewrite filter_none; [ reflexivity | ].
  intros r Hr. destruct (Key2_eqb (keyed i j r) (a, b)) eqn:E'; [ | reflexivity ].
  apply Key2_eqb_eq in E'.
  assert (In (a, b) (group_keys i j rs)) as Hin.
  { apply group_keys_In. rewrite <- E'. now apply in_map. }
  apply existsb_Key2_In in Hin. congruence.
Qed.

Lemma dimension1_In (i j : nat) (rs : list Row) (a : Value) :
  In a (dimension1 i j rs)
  <-> exists r, In r rs /\ cell i r = a /\ cell i r <> VNaN /\ cell j r <> VNaN.
Proof.
  unfold dimension1. rewrite distinct_values_In, in_map_iff. split.
  - intros [r [<- Hr]]. apply valid_rows_In in Hr. exists r. tauto.
  - intros [r [Hr [<- H]]]. exists r. split; [ reflexivity | ].
    apply valid_rows_In. tauto.
Qed.

Lemma dimension2_In (i j : nat) (rs : list Row) (b : Value) :
  In b (dimension2 i j rs)
  <-> exists r, In r rs /\ cell j r = b /\ cell i r <> VNaN /\ cell j r <> VNaN.
Proof.
  unfold dimension2. rewrite distinct_values_In, in_map_iff. split.
  - intros [r [<- Hr]]. apply valid_rows_In in Hr. exists r. tauto.
  - intros [r [Hr [<- H]]]. exists r. split; [ reflexivity | ].
    apply valid_rows_In. tauto.
Qed.

(** The long form of any series over the groups of a table. *)
Lemma long_form_of_series (name var value : string) (fill : Value) (s : Series2)
    (i j : nat) (rs : list Row) :
  map fst s = group_keys i j rs ->
  (forall r, In r rs -> cell j r <> VStr name /\ cell j r <> VStr value) ->
  exists long,
    reset_index_melt var value (unstack name fill s) = Ok long
    /\ columns long = [name; var; value]
    /\ length (rows long)
       = (length (dimension1 i j rs) * length (dimension2 i j rs))%nat
    /\ (forall row, In row (rows long) <->
          exists a b, In a (dimension1 i j rs) /\ In b (dimension2 i j rs)
                      /\ row = [a; b; wide_cell fill s a b]).
Proof.
  intros Hs Hlabels.
  assert (H1 : forall a, In a (map (fun kv : Key2 * Value => fst (fst kv)) s)
                         <-> In a (map (cell i) (valid_rows i j rs))).
  { intros a.
    replace (map (fun kv : Key2 * Value => fst (fst kv)) s) with (map fst (map fst s))
      by apply map_map.
    rewrite Hs. apply group_keys_fst. }
  assert (H2 : forall b, In b (map (fun kv : Key2 * Value => snd (fst kv)) s)
                         <-> In b (map (cell j) (valid_rows i j rs))).
  { intros b.
    replace (map (fun kv : Key2 * Value => snd (fst kv)) s) with (map snd (map fst s))
      by apply map_map.
    rewrite Hs. apply group_keys_snd. }
  destruct (reset_index_melt_returns var value (unstack name fill s)) as [long Hlong].
  { simpl. intros b Hb. apply distinct_values_In, H2, in_map_iff in Hb as [r [<- Hr]].
    apply Hlabels. now apply valid_rows_In in Hr. }
  exists long. split; [ exact Hlong | ].
  destruct (melt_unstack _ _ _ _ _ _ Hlong) as [Hc [Hn Hrows]].
  split; [ exact Hc | ]. split.
  - rewrite Hn. unfold dimension1, dimension2.
    f_equal; apply distinct_values_length; [ exact H1 | exact H2 ].
  - intros row. rewrite Hrows. unfold dimension1, dimension2.
    split; intros [a [b [Ha [Hb ->]]]]; exists a, b;
      apply (proj1 (distinct_values_In _ _)) in Ha;
      apply (proj1 (distinct_values_In _ _)) in Hb.
    + apply (proj1 (H1 a)) in Ha. apply (proj1 (H2 b)) in Hb.
      rewrite !distinct_values_In. auto.
    + apply (proj2 (H1 a)) in Ha. apply (proj2 (H2 b)) in Hb.
      split; [ | split; [ | reflexivity ] ];
        apply (proj2 (distinct_values_In _ _)); assumption.
Qed.

Lemma total_valid (i j m : nat) (a b : Value) (rs : list Row) :
  a <> VNaN -> b <> VNaN ->
  total i j m a b (valid_rows i j rs) = total i j m a b rs.
Proof.
  intros Ha Hb. unfold total, valid_rows. do 2 f_equal.
  apply filter_filter_implied. intros r E. apply Key2_eqb_eq in E.
  unfold valid_key. rewrite E. simpl.
  destruct a, b; simpl; congruence.
Qed.

(** ** Sums of a column of numbers *)

Lemma traverse_map {A B} (f : A -> Result B) (g : A -> B) (xs : list A) :
  (forall x, In x xs -> f x = Ok (g x)) -> traverse f xs = Ok (map g xs).
Proof.
  induction xs as [ | x xs IH ]; simpl; intros H; [ reflexivity | ].
  rewrite (H x) by now left. rewrite IH; [ reflexivity | ].
  intros y Hy. apply H. now right.
Qed.

Lemma add_all_numbers (z : Z) (vs : list Value) :
  forallb is_int vs = true ->
  add_all (VInt z) vs = Ok (VInt (z + fold_right Z.add 0 (map number_of vs))).
Proof.
  revert z. induction vs as [ | v vs IH ]; simpl; intros z H.
  - f_equal. f_equal. lia.
  - apply andb_true_iff in H as [Hv Hvs]. destruct v; try discriminate. simpl.
    rewrite (IH _ Hvs). f_equal. f_equal. lia.
Qed.

Lemma filter_notna_numbers (vs : list Value) :
  forallb is_number_or_missing vs = true ->
  forallb is_int (filter notna vs) = true
  /\ fold_right Z.add 0 (map number_of (filter notna vs))
     = fold_right Z.add 0 (map number_of vs).
Proof.
  induction vs as [ | v vs IH ]; simpl; intros H; [ split; reflexivity | ].
  apply andb_true_iff in H as [Hv Hvs]. destruct (IH Hvs) as [H1 H2].
  destruct v; try discriminate; simpl; rewrite ?H1, ?H2; split; reflexivity.
Qed.

(** The sum of numbers and missing values is the sum of the numbers,
    wrapped in a column of 64-bit integers. *)
Lemma sum_cells_numbers (wraps : bool) (vs : list Value) :
  forallb is_number_or_missing vs = true ->
  sum_cells wraps vs
  = Ok (VInt (if wraps then wrap64 (fold_right Z.add 0 (map number_of vs))
              else fold_right Z.add 0 (map number_of vs))).
Proof.
  intros H. destruct (filter_notna_numbers vs H) as [H1 H2]. unfold sum_cells.
  destruct (filter notna vs) as [ | v vs' ]; simpl in *.
  - now rewrite <- H2, Tauto.if_same.
  - apply andb_true_iff in H1 as [Hv Hvs]. destruct v; try discriminate.
    cbn [number_of] in H2. rewrite (add_all_numbers _ _ Hvs). now rewrite H2.
Qed.

Lemma magnitude_filter (m : nat) (p : Row -> bool) (rs : list Row) :
  Z.abs (fold_right Z.add 0 (map (fun r => number_of (cell m r)) (filter p rs)))
  <= magnitude m rs.
Proof.
  unfold magnitude. induction rs as [ | r rs IH ]; simpl; [ lia | ].
  destruct (p r); simpl; lia.
Qed.

(** The sum of a summable column over some of the rows of the table. *)
Lemma sum_cells_exact (wraps : bool) (m : nat) (p : Row -> bool) (rs : list Row) :
  summable m rs ->
  sum_cells wraps (map (cell m) (filter p rs))
  = Ok (VInt (fold_right Z.add 0 (map (fun r => number_of (cell m r)) (filter p rs)))).
Proof.
  intros [Hnum Hmag]. rewrite sum_cells_numbers.
  - rewrite map_map. destruct wraps; [ | reflexivity ].
    rewrite wrap64_small; [ reflexivity | ].
    pose proof (magnitude_filter m p rs) as B.
    change (2 ^ 53) with 9007199254740992 in Hmag.
    change (2 ^ 63) with 9223372036854775808. lia.
  - rewrite forallb_of_map. apply forallb_forall. intros r Hr.
    apply filter_In in Hr as [Hr _]. now apply Hnum.
Qed.

Lemma summable_valid (i j m : nat) (rs : list Row) :
  summable m rs -> summable m (valid_rows i j rs).
Proof.
  intros [Hnum Hmag]. split.
  - intros r Hr. apply filter_In in Hr as [Hr _]. now apply Hnum.
  - unfold valid_rows.
    pose proof (magnitude_filter m (fun r => valid_key (keyed i j r)) rs) as B.
    unfold magnitude in *.
    assert (E : forall xs : list Row,
              0 <= fold_right Z.add 0 (map (fun r => Z.abs (number_of (cell m r))) xs)).
    { induction xs as [ | x xs IH ]; simpl; lia. }
    assert (L : forall xs : list Row,
              fold_right Z.add 0
                (map (fun r => Z.abs (number_of (cell m r)))
                     (filter (fun r => valid_key (keyed i j r)) xs))
              <= fold_right Z.add 0 (map (fun r => Z.abs (number_of (cell m r))) xs)).
    { induction xs as [ | x xs IH ]; simpl; [ lia | ].
      destruct (valid_key (keyed i j x)); simpl; lia. }
    specialize (L rs). lia.
Qed.

(** On a table that has the two dimension columns and a summable measure,
    the sum grouping returns the wide table of the sums of the groups. *)
Lemma sum_unstack_returns (d1 d2 measure : string) (df : DataFrame) (i j m : nat) :
  index_of d1 (columns df) = Some i -> index_of d2 (columns df) = Some j ->
  index_of measure (columns df) = Some m ->
  forallb (fun r => hashable (cell i r) && hashable (cell j r)) (rows df) = true ->
  summable m (rows df) ->
  sum_unstack d1 d2 measure df
  = Ok (unstack d1 VNaN
          (map (fun k => (k, VInt (total i j m (fst k) (snd k) (valid_rows i j (rows df)))))
               (group_keys i j (rows df)))).
Proof.
  intros Hi Hj Hm Hh Hsum. unfold sum_unstack.
  rewrite (groupby2_returns d1 d2 df i j Hi Hj), Hm, (group_rows_returns i j _ Hh).
  unfold sum_groups.
  rewrite (traverse_map _
             (fun kr : Key2 * list Row =>
                (fst kr, VInt (fold_right Z.add 0
                                 (map (fun r => number_of (cell m r)) (snd kr)))))).
  - rewrite map_map. reflexivity.
  - intros kr Hkr. apply in_map_iff in Hkr as [k [<- _]]. cbn [fst snd].
    now rewrite (sum_cells_exact _ m _ _ (summable_valid i j m _ Hsum)).
Qed.

(** The cell of the wide table of sums for a pair of dimension values. *)
Lemma wide_cell_sum (i j m : nat) (rs : list Row) (a b : Value) :
  a <> VNaN -> b <> VNaN ->
  wide_cell VNaN
    (map (fun k => (k, VInt (total i j m (fst k) (snd k) (valid_rows i j rs))))
         (group_keys i j rs)) a b
  = sum_cell i j m rs a b.
Proof.
  intros Na Nb. unfold wide_cell, sum_cell.
  rewrite (lookup2_keys (fun k => VInt (total i j m (fst k) (snd k) (valid_rows i j rs)))).
  cbn [fst snd]. rewrite (total_valid i j m a b rs Na Nb).
  rewrite <- (occurrences_valid i j a b rs Na Nb).
  destruct (existsb (Key2_eqb (a, b)) (group_keys i j rs)) eqn:E.
  - apply existsb_Key2_In, group_keys_In, in_map_iff in E as [r [E Hr]].
    assert (Hin : In r (filter (fun r0 => Key2_eqb (keyed i j r0) (a, b))
                               (valid_rows i j rs))).
    { apply filter_In. split; [ assumption | now apply Key2_eqb_eq ]. }
    unfold occurrences. destruct (filter _ (valid_rows i j rs));
      [ destruct Hin | reflexivity ].
  - unfold occurrences. rewrite filter_none; [ reflexivity | ].
    intros r Hr. destruct (Key2_eqb (keyed i j r) (a, b)) eqn:E'; [ | reflexivity ].
    apply Key2_eqb_eq in E'.
    assert (In (a, b) (group_keys i j rs)) as Hin.
    { apply group_keys_In. rewrite <- E'. now apply in_map. }
    apply existsb_Key2_In in Hin. congruence.
Qed.

(** The long form of the sum grouping: one row for every pair, with the
    sum of the pair or a missing value. *)
Lemma sum_long_form (d1 d2 measure var value : string) (df : DataFrame) (i j m : nat) :
  index_of d1 (columns df) = Some i -> index_of d2 (columns df) = Some j ->
  index_of measure (columns df) = Some m ->
  forallb (fun r => hashable (cell i r) && hashable (cell j r)) (rows df) = true ->
  (forall r, In r (rows df) -> cell j r <> VStr d1 /\ cell j r <> VStr value) ->
  summable m (rows df) ->
  exists w long,
    sum_unstack d1 d2 measure df = Ok w
    /\ reset_index_melt var value w = Ok long
    /\ columns long = [d1; var; value]
    /\ length (rows long)
       = (length (dimension1 i j (rows df)) * length (dimension2 i j (rows df)))%nat
    /\ (forall row, In row (rows long) <->
          exists a b, In a (dimension1 i j (rows df))
                      /\ In b (dimension2 i j (rows df))
                      /\ row = [a; b; sum_cell i j m (rows df) a b]).
Proof.
  intros Hi Hj Hm Hh Hlabels Hsum.
  rewrite (sum_unstack_returns d1 d2 measure df i j m Hi Hj Hm Hh Hsum).
  match goal with |- context [unstack _ _ ?series] => set (s := series) end.
  destruct (long_form_of_series d1 var value VNaN s i j (rows df))
    as [long [Hlong [Hcols [Hn Hrows]]]]; [ | exact Hlabels | ].
  { unfold s. rewrite map_map. simpl. apply map_id. }
  exists (unstack d1 VNaN s), long.
  split; [ reflexivity | ]. split; [ exact Hlong | ]. split; [ exact Hcols | ].
  split; [ exact Hn | ].
  assert (Hcell : forall a b, In a (dimension1 i j (rows df)) ->
            In b (dimension2 i j (rows df)) ->
            wide_cell VNaN s a b = sum_cell i j m (rows df) a b).
  { intros a b Ha Hb. apply wide_cell_sum.
    - apply dimension1_In in Ha as [r [_ [<- [N _]]]]. exact N.
    - apply dimension2_In in Hb as [r [_ [<- [_ N]]]]. exact N. }
  intros row. rewrite Hrows.
  split; intros [a [b [Ha [Hb ->]]]]; exists a, b;
    (split; [ assumption | split; [ assumption | ] ]);
    now rewrite (Hcell a b Ha Hb).
Qed.



(** In a grouping that sums a measure, a pair of dimension values that no
    row has is a missing value in the long form: [unstack] is called without
    a fill value there. *)
Lemma sum_long_form_missing (d1 d2 measure var value : string) (df : DataFrame)
    (i j m : nat) :
  index_of d1 (columns df) = Some i -> index_of d2 (columns df) = Some j ->
  index_of measure (columns df) = Some m ->
  forallb (fun r => hashable (cell i r) && hashable (cell j r)) (rows df) = true ->
  (forall r, In r (rows df) -> cell j r <> VStr d1 /\ cell j r <> VStr value) ->
  summable m (rows df) ->
  exists w long,
    sum_unstack d1 d2 measure df = Ok w
    /\ reset_index_melt var value w = Ok long
    /\ forall a b, In a (dimension1 i j (rows df)) -> In b (dimension2 i j (rows df)) ->
                   occurrences i j a b (rows df) = 0%nat ->
                   In [a; b; VNaN] (rows long).
Proof.
  intros Hi Hj Hm Hh Hlabels Hsum.
  destruct (sum_long_form d1 d2 measure var value df i j m Hi Hj Hm Hh Hlabels Hsum)
    as [w [long [Hw [Hlong [_ [_ Hrows]]]]]].
  exists w, long. split; [ exact Hw | ]. split; [ exact Hlong | ].
  intros a b Ha Hb Hnone. apply Hrows. exists a, b.
  split; [ assumption | ]. split; [ assumption | ].
  unfold sum_cell. now rewrite Hnone.
Qed.


(** ** Computations that leave the table alone *)

Lemma console_only_on_console {A} (m : M Console A) : console_only (on_console m).
Proof.
  intros c. unfold on_console. simpl. destruct (m c) as [c' r]. now exists c', r.
Qed.

Lemma console_only_lift {A} (r : Result A) : console_only (lift r).
Proof. intros c. now exists c, r. Qed.

Lemma console_only_ret {A} (a : A) : console_only (ret a).
Proof. intros c. now exists c, (Ok a). Qed.

Lemma console_only_bind {A B} (m : M World A) (k : A -> M World B) :
  console_only m -> (forall a, console_only (k a)) -> console_only (bind m k).
Proof.
  intros Hm Hk c. destruct (Hm c) as [c' [[a | e] H]].
  - destruct (Hk a c') as [c'' [r' H']]. exists c'', r'. intros t.
    unfold bind. now rewrite H, H'.
  - exists c', (Raise e). intros t. unfold bind. now rewrite H.
Qed.

Lemma console_only_if {A} (b : bool) (m1 m2 : M World A) :
  console_only m1 -> console_only m2 -> console_only (if b then m1 else m2).
Proof. now destruct b. Qed.

Lemma console_only_for_each {A} (xs : list A) (body : A -> M World unit) :
  (forall x, console_only (body x)) -> console_only (for_each xs body).
Proof.
  intros H. induction xs as [ | x xs IH ]; simpl.
  - apply console_only_ret.
  - apply console_only_bind; [ apply H | intros _; exact IH ].
Qed.

Create HintDb frame.
#[local] Hint Resolve console_only_on_console console_only_lift console_only_ret
  console_only_if console_only_for_each : frame.

Ltac frame :=
  repeat first
    [ apply console_only_bind; [ | intros ? ]
    | apply console_only_if
    | apply console_only_for_each; intros ?
    | solve [ auto with frame ] ].

Lemma console_only_table {A} (m : M World A) (w : World) :
  console_only m -> table (fst (m w)) = table w.
Proof.
  intros H. destruct w as [t c]. destruct (H c) as [c' [r E]]. now rewrite E.
Qed.

Lemma plot_region_console_only (w : Wide) (rc : Value * list Value) :
  console_only (plot_region w rc).
Proof. unfold plot_region. frame. Qed.

Lemma console_only_mapM {A B} (f : A -> M World B) (xs : list A) :
  (forall x, In x xs -> console_only (f x)) -> console_only (mapM f xs).
Proof.
  induction xs as [ | x xs IH ]; simpl; intros H.
  - apply console_only_ret.
  - apply console_only_bind; [ apply H; now left | intros y ].
    apply console_only_bind; [ | intros ys; apply console_only_ret ].
    apply IH. intros z Hz. apply H. now right.
Qed.

Lemma console_only_keeps_table {A} (m : M World A) : console_only m -> keeps_table m.
Proof. intros H w. now apply console_only_table. Qed.

Lemma keeps_table_mapM {A B} (f : A -> M World B) (xs : list A) :
  (forall x, In x xs -> keeps_table (f x)) -> keeps_table (mapM f xs).
Proof.
  induction xs as [ | x xs IH ]; simpl; intros H w; [ reflexivity | ].
  unfold bind. pose proof (H x (or_introl eq_refl) w) as Hx.
  destruct (f x w) as [w1 [y | e]]; [ | exact Hx ].
  assert (Hxs : keeps_table (mapM f xs)) by (apply IH; intros z Hz; apply H; now right).
  specialize (Hxs w1). destruct (mapM f xs w1) as [w2 [ys | e]]; simpl in *; congruence.
Qed.

(** ** Evaluation of the genre texts *)

(** The normalization hands every text to [eval], as it is. *)
Lemma genres_lambda_str (eval : string -> M World Value) (s : string) :
  genres_lambda eval (VStr s) = eval s.
Proof. reflexivity. Qed.

Lemma genres_lambda_other (eval : string -> M World Value) (x : Value) :
  is_str x = false -> genres_lambda eval x = ret x.
Proof. destruct x; simpl; congruence. Qed.

Lemma apply_column_run {S} (name : string) (f : Value -> M S Value) (df : DataFrame)
    (s : S) :
  apply_column name f df s
  = match getitem name df with
    | Ok vs => mapM f vs s
    | Raise e => (s, Raise e)
    end.
Proof.
  unfold apply_column, bind, lift. now destruct (getitem name df).
Qed.

(** The normalization of a column whose texts are confined reads and
    writes the console only. *)
Lemma apply_column_console_only (eval : string -> M World Value) (df : DataFrame) :
  confined eval df -> console_only (apply_column "genres" (genres_lambda eval) df).
Proof.
  intros H c. unfold getitem in *.
  destruct (index_of "genres" (columns df)) as [g | ] eqn:E.
  - destruct (console_only_mapM (genres_lambda eval) (map (cell g) (rows df))) with (c := c)
      as [c' [r Hrun]].
    { intros x Hx. apply in_map_iff in Hx as [row [<- Hrow]].
      destruct (cell g row) as [ | | s | | ] eqn:Ec; try apply console_only_ret.
      exact (H g row s E Hrow Ec). }
    exists c', r. intros t. rewrite apply_column_run. unfold getitem. now rewrite E.
  - exists c, (Raise (KeyError "genres")). intros t.
    rewrite apply_column_run. unfold getitem. now rewrite E.
Qed.

(** The normalization of a column whose texts leave the table alone leaves
    the table alone. *)
Lemma apply_column_keeps_table (eval : string -> M World Value) (df : DataFrame) :
  unchanging eval df -> keeps_table (apply_column "genres" (genres_lambda eval) df).
Proof.
  intros H w. rewrite apply_column_run. unfold getitem.
  destruct (index_of "genres" (columns df)) as [g | ] eqn:E; [ | reflexivity ].
  apply keeps_table_mapM. intros x Hx. apply in_map_iff in Hx as [row [<- Hrow]].
  destruct (cell g row) as [ | | s | | ] eqn:Ec; try (intros w'; reflexivity).
  exact (H g row s E Hrow Ec).
Qed.

Lemma select_eq_confined (eval : string -> M World Value) (name : string) (value : Value)
    (df tv : DataFrame) :
  confined eval df -> select_eq name value df = Ok tv -> confined eval tv.
Proof.
  intros H. unfold select_eq. destruct (index_of name (columns df)); [ | discriminate ].
  intros [= <-] g r s Hg Hr Hs. cbn [columns rows] in *.
  apply filter_In in Hr as [Hr _]. exact (H g r s Hg Hr Hs).
Qed.

Lemma select_eq_unchanging (eval : string -> M World Value) (name : string) (value : Value)
    (df tv : DataFrame) :
  unchanging eval df -> select_eq name value df = Ok tv -> unchanging eval tv.
Proof.
  intros H. unfold select_eq. destruct (index_of name (columns df)); [ | discriminate ].
  intros [= <-] g r s Hg Hr Hs. cbn [columns rows] in *.
  apply filter_In in Hr as [Hr _]. exact (H g r s Hg Hr Hs).
Qed.

(** ** The literal parser has no effect *)

(** A literal evaluates to its value and leaves the table and the console
    as they are. *)
Lemma eval_literal (e : Expr) :
  is_literal e = true -> forall w, eval_expr e w = (w, Ok (OVal (literal_value e))).
Proof.
  induction e as [ s | z | es IH | n | e a _ | f args _ _ | a b _ _ ] using Expr_induction;
    simpl; try discriminate; intros Hlit w; try reflexivity.
  assert (Hitems :
            (fix eval_items (es : list Expr) : M World (list Value) :=
               match es with
               | [] => ret []
               | e' :: es' =>
                   (o <- eval_expr e' ;; vs <- eval_items es' ;;
                    ret (object_value o :: vs))%py
               end) es w = (w, Ok (map literal_value es))).
  { induction IH as [ | e' es' He' _ IHes ]; simpl in *; [ reflexivity | ].
    apply andb_true_iff in Hlit as [H1 H2].
    unfold bind at 1. rewrite (He' H1 w).
    unfold bind at 1. now rewrite (IHes H2). }
  unfold bind at 1. now rewrite Hitems.
Qed.

(** Whatever the text, the literal parser changes nothing outside: it
    returns a value or raises, and the console is as before. *)
Lemma literal_eval_no_effect (text : string) (c : Console) :
  fst (literal_eval text c) = c.
Proof.
  unfold literal_eval. destruct (parse text) as [e | ]; [ | reflexivity ].
  destruct (is_literal e); reflexivity.
Qed.

(** On a list literal the two evaluators agree. *)
Lemma py_eval_literal (text : string) (e : Expr) :
  parse text = Some e -> is_literal e = true ->
  forall w, py_eval text w = on_console (literal_eval text) w.
Proof.
  intros Hp Hl w. unfold py_eval, literal_eval, on_console. rewrite Hp, Hl.
  unfold bind. rewrite (eval_literal e Hl w). now destruct w.
Qed.

(** The evaluation of a literal neither reads nor changes the table. *)
Lemma py_eval_literal_console_only (text : string) (e : Expr) :
  parse text = Some e -> is_literal e = true -> console_only (py_eval text).
Proof.
  intros Hp Hl c. exists c, (Ok (literal_value e)). intros t.
  rewrite (py_eval_literal text e Hp Hl). unfold on_console, literal_eval.
  now rewrite Hp, Hl.
Qed.

(** C1 fails on the code.  A genre text that is a call, not a literal, is
    run: the command it names reaches the operating system, in the
    genre-popularity analysis and in the genre-distribution analysis alike.
    The literal parser refuses the same text and runs nothing. *)
Theorem genre_text_is_executed :
  let text := "__import__('os').system('id')" in
  option_map is_literal (parse text) = Some false
  /\ genres_lambda py_eval (VStr text) (mkWorld sample_hostile [])
     = (mkWorld sample_hostile [Executed "id"], Ok (VInt 0))
  /\ In (Executed "id")
        (console (fst (plot_genre_popularity py_eval (mkWorld sample_hostile []))))
  /\ In (Executed "id")
        (console (fst (plot_genre_distribution_by_region py_eval
                         (mkWorld sample_hostile []))))
  /\ literal_eval text [] = ([], Raise (ValueError "malformed node or string")).
Proof.
  intros text. split; [ reflexivity | ]. split; [ reflexivity | ].
  split; [ now left | ]. split; [ now left | ]. reflexivity.
Qed.

(** ** The genre-popularity analysis *)

(** The analysis, step by step: the guard, the selection of the shows, the
    evaluation of their genre texts, and the chart of the counts.  The
    evaluation is the only step that can touch the table. *)
Lemma plot_genre_popularity_run (eval : string -> M World Value) (w : World) :
  plot_genre_popularity eval w
  = if negb (has_column "genres" (table w)) then
      (mkWorld (table w)
         (console w ++ [Printed "No 'genres' column found. Please check the dataset."]),
       Ok tt)
    else
      match select_eq "type" (VStr "SHOW") (table w) with
      | Raise e => (w, Raise e)
      | Ok tv =>
          match apply_column "genres" (genres_lambda eval) tv w with
          | (w1, Raise e) => (w1, Raise e)
          | (w1, Ok genres) =>
              match genre_popularity_long (is_int64 "release_year" (table w))
                                          (setitem "genres" genres tv) with
              | Raise e => (w1, Raise e)
              | Ok long =>
                  (mkWorld (table w1)
                     (console w1
                      ++ [Shown (mkFigure Bar long
                                   "Popularity of TV Show Genres Over 5-Year Intervals")]),
                   Ok tt)
              end
          end
      end.
Proof.
  unfold plot_genre_popularity, genre_popularity_long.
  unfold bind at 1. unfold get_table at 1.
  destruct (negb (has_column "genres" (table w))); [ reflexivity | ].
  unfold bind at 1. unfold lift at 1.
  destruct (select_eq "type" (VStr "SHOW") (table w)) as [tv | e]; [ | reflexivity ].
  unfold bind at 1.
  destruct (apply_column "genres" (genres_lambda eval) tv w) as [w1 [gs | e]];
    [ | reflexivity ].
  unfold bind, lift, on_console, emit.
  destruct (explode "genres" (setitem "genres" gs tv)) as [ex | e]; [ | reflexivity ].
  destruct (bucket_rows _ "release_year" ex) as [ys | e]; [ | reflexivity ].
  destruct (size_unstack "year_interval" "genres" (VInt 0) (setitem "year_interval" ys ex))
    as [wide | e]; [ | reflexivity ].
  destruct (reset_index_melt "Genre" "Count" wide); reflexivity.
Qed.

(** A 64-bit integer put into a column leaves its type as it is. *)
Lemma int64_column_insert (z : Z) (vs1 vs2 : list Value) :
  in_int64 z = true ->
  int64_column (vs1 ++ VInt z :: vs2) = int64_column (vs1 ++ vs2).
Proof.
  intros H. unfold int64_column. rewrite !forallb_app. cbn [forallb]. now rewrite H.
Qed.

(** So does a row put into a table, when its cell is a 64-bit integer. *)
Lemma is_int64_insert (name : string) (cols : list string) (rows1 rows2 : list Row)
    (r : Row) :
  (forall y, index_of name cols = Some y ->
             exists z, cell y r = VInt z /\ in_int64 z = true) ->
  is_int64 name (mkFrame cols (rows1 ++ r :: rows2))
  = is_int64 name (mkFrame cols (rows1 ++ rows2)).
Proof.
  intros H. unfold is_int64, getitem. cbn [columns rows].
  destruct (index_of name cols) as [y | ]; [ | reflexivity ].
  destruct (H y eq_refl) as [z [Hz Hr]].
  rewrite !map_app. cbn [map]. rewrite Hz. now apply int64_column_insert.
Qed.

Lemma select_eq_drops (name : string) (value : Value) (cols : list string)
    (rows1 rows2 : list Row) (r : Row) (i : nat) :
  index_of name cols = Some i -> cell i r <> value ->
  select_eq name value (mkFrame cols (rows1 ++ r :: rows2))
  = select_eq name value (mkFrame cols (rows1 ++ rows2)).
Proof.
  intros Hi Hr. unfold select_eq. simpl. rewrite Hi. do 2 f_equal.
  rewrite !filter_app. simpl.
  apply Value_eqb_neq in Hr. now rewrite Hr.
Qed.

(** What is evaluated on the console only gives the same chart on two
    tables with the same shows and the same type of years. *)
Lemma plot_genre_popularity_same_shows (eval : string -> M World Value)
    (t1 t2 tv : DataFrame) (c : Console) :
  has_column "genres" t1 = has_column "genres" t2 ->
  is_int64 "release_year" t1 = is_int64 "release_year" t2 ->
  select_eq "type" (VStr "SHOW") t1 = Ok tv ->
  select_eq "type" (VStr "SHOW") t2 = Ok tv ->
  confined eval tv ->
  console (fst (plot_genre_popularity eval (mkWorld t1 c)))
  = console (fst (plot_genre_popularity eval (mkWorld t2 c)))
  /\ snd (plot_genre_popularity eval (mkWorld t1 c))
     = snd (plot_genre_popularity eval (mkWorld t2 c)).
Proof.
  intros Hg Hy H1 H2 Hconf. rewrite !plot_genre_popularity_run. cbn [table console].
  rewrite Hg, Hy, H1, H2.
  destruct (negb (has_column "genres" t2)); [ split; reflexivity | ].
  destruct (apply_column_console_only eval tv Hconf c) as [c' [r Hrun]].
  rewrite !Hrun. destruct r as [genres | e]; [ | split; reflexivity ].
  destruct (genre_popularity_long _ (setitem "genres" genres tv)); split; reflexivity.
Qed.

(** Without a row that is not a show the analysis selects the same shows. *)
Lemma plot_genre_popularity_drops_row (eval : string -> M World Value)
    (cols : list string) (rows1 rows2 : list Row) (r : Row) (i : nat) (c : Console) :
  index_of "type" cols = Some i ->
  cell i r <> VStr "SHOW" ->
  (forall y, index_of "release_year" cols = Some y ->
             exists z, cell y r = VInt z /\ in_int64 z = true) ->
  confined eval (mkFrame cols (rows1 ++ rows2)) ->
  console (fst (plot_genre_popularity eval (mkWorld (mkFrame cols (rows1 ++ r :: rows2)) c)))
  = console (fst (plot_genre_popularity eval (mkWorld (mkFrame cols (rows1 ++ rows2)) c)))
  /\ snd (plot_genre_popularity eval (mkWorld (mkFrame cols (rows1 ++ r :: rows2)) c))
     = snd (plot_genre_popularity eval (mkWorld (mkFrame cols (rows1 ++ rows2)) c)).
Proof.
  intros Hi Hr Hyear Hconf.
  pose proof (select_eq_drops "type" (VStr "SHOW") cols rows1 rows2 r i Hi Hr) as Hsel.
  destruct (select_eq "type" (VStr "SHOW") (mkFrame cols (rows1 ++ rows2)))
    as [tv | e] eqn:E.
  - apply (plot_genre_popularity_same_shows eval _ _ tv c);
      [ reflexivity | now apply is_int64_insert | exact Hsel | exact E | ].
    exact (select_eq_confined eval _ _ _ _ Hconf E).
  - unfold select_eq in E. cbn [columns] in E. rewrite Hi in E. discriminate.
Qed.

(** X17.  A row whose type is not exactly the string SHOW adds nothing to
    the genre-popularity analysis when the genre texts of the other rows are
    evaluated on the console only, as literals are: with the row or without
    it, the analysis shows the same chart of the same counts, prints the
    same lines, and ends in the same way.  The release year of the row is a
    64-bit integer, as the years of a table read from a file are, so that
    the row does not change the type of the column. *)
Theorem genre_popularity_only_SHOW (eval : string -> M World Value)
    (cols : list string) (rows1 rows2 : list Row) (r : Row) (i : nat) (c : Console) :
  index_of "type" cols = Some i ->
  cell i r <> VStr "SHOW" ->
  (forall y, index_of "release_year" cols = Some y ->
             exists z, cell y r = VInt z /\ in_int64 z = true) ->
  confined eval (mkFrame cols (rows1 ++ rows2)) ->
  let with_row := plot_genre_popularity eval (mkWorld (mkFrame cols (rows1 ++ r :: rows2)) c) in
  let without := plot_genre_popularity eval (mkWorld (mkFrame cols (rows1 ++ rows2)) c) in
  console (fst with_row) = console (fst without) /\ snd with_row = snd without.
Proof.
  intros Hi Hr Hyear Hconf with_row without. subst with_row without.
  rewrite !plot_genre_popularity_run. cbn [table console].
  rewrite (select_eq_drops "type" (VStr "SHOW") cols rows1 rows2 r i Hi Hr).
  rewrite (is_int64_insert "release_year" cols rows1 rows2 r Hyear).
  unfold has_column. cbn [columns].
  destruct (negb (existsb (String.eqb "genres") cols)); [ split; reflexivity | ].
  destruct (select_eq "type" (VStr "SHOW") (mkFrame cols (rows1 ++ rows2)))
    as [tv | e] eqn:E; [ | split; reflexivity ].
  destruct (apply_column_console_only eval tv (select_eq_confined eval _ _ _ _ Hconf E) c)
    as [c' [res Hrun]].
  rewrite !Hrun. destruct res as [genres | e]; [ | split; reflexivity ].
  destruct (genre_popularity_long _ (setitem "genres" genres tv)); split; reflexivity.
Qed.

Lemma genre_popularity_only_SHOW_witness :
  let cols := ["show_id"; "type"; "release_year"; "genres"] in
  let show := [VInt 1; VStr "SHOW"; VInt 2019; VStr "['Drama']"] in
  let other := [VInt 2; VStr "show"; VInt 2019; VStr "['Comedy'] * len(data)"] in
  index_of "type" cols = Some 1%nat
  /\ cell 1 other <> VStr "SHOW"
  /\ confined py_eval (mkFrame cols [show])
  /\ console (fst (plot_genre_popularity py_eval (mkWorld (mkFrame cols [show; other]) [])))
     = console (fst (plot_genre_popularity py_eval (mkWorld (mkFrame cols [show]) []))).
Proof.
  intros cols show other.
  assert (Hr : cell 1 other <> VStr "SHOW") by discriminate.
  assert (Hyear : forall y, index_of "release_year" cols = Some y ->
                            exists z, cell y other = VInt z /\ in_int64 z = true).
  { intros y [= <-]. exists 2019. split; reflexivity. }
  assert (Hconf : confined py_eval (mkFrame cols [show])).
  { intros g r s Hg [<- | []] Hs. injection Hg as <-. injection Hs as <-.
    eapply py_eval_literal_console_only; reflexivity. }
  split; [ reflexivity | ]. split; [ exact Hr | ]. split; [ exact Hconf | ].
  exact (proj1 (genre_popularity_only_SHOW py_eval cols [show] [] other 1 []
                  eq_refl Hr Hyear Hconf)).
Defined.

(** C10 fails on the code.  The genre texts are evaluated in the namespace
    of the notebook, where [data] is the whole table: a genre text of a show
    that takes the length of the table evaluates to two genres when a movie
    is in the table and to one when it is not, so that the movie changes the
    counts of the chart.  The literal parser refuses the text and the
    analysis ends in the same way with the movie and without it. *)
Theorem genre_popularity_counts_other_rows :
  let cols := ["show_id"; "type"; "release_year"; "genres"] in
  let show := [VInt 1; VStr "SHOW"; VInt 2019; VStr "['x'] * len(data)"] in
  let movie := [VInt 2; VStr "MOVIE"; VInt 2021; VStr "['y']"] in
  let chart := fun count =>
    [Shown (mkFigure Bar
              (mkFrame ["year_interval"; "Genre"; "Count"]
                       [[VInt 2015; VStr "x"; VInt count]])
              "Popularity of TV Show Genres Over 5-Year Intervals")] in
  cell 1 movie <> VStr "SHOW"
  /\ plot_genre_popularity py_eval (mkWorld (mkFrame cols [show; movie]) [])
     = (mkWorld (mkFrame cols [show; movie]) (chart 2), Ok tt)
  /\ plot_genre_popularity py_eval (mkWorld (mkFrame cols [show]) [])
     = (mkWorld (mkFrame cols [show]) (chart 1), Ok tt)
  /\ snd (plot_genre_popularity (fun text => on_console (literal_eval text))
            (mkWorld (mkFrame cols [show; movie]) []))
     = Raise (ValueError "malformed node or string")
  /\ snd (plot_genre_popularity (fun text => on_console (literal_eval text))
            (mkWorld (mkFrame cols [show]) []))
     = Raise (ValueError "malformed node or string").
Proof.
  intros cols show movie chart. split; [ discriminate | ].
  repeat split; reflexivity.
Qed.

(** The analysis works on a copy: the table is changed by nothing but the
    evaluation of the genre texts. *)
Lemma plot_genre_popularity_keeps_table (eval : string -> M World Value) (w : World) :
  unchanging eval (table w) ->
  table (fst (plot_genre_popularity eval w)) = table w.
Proof.
  intros H. rewrite plot_genre_popularity_run.
  destruct (negb (has_column "genres" (table w))); [ reflexivity | ].
  destruct (select_eq "type" (VStr "SHOW") (table w)) as [tv | e] eqn:E; [ | reflexivity ].
  pose proof (apply_column_keeps_table eval tv (select_eq_unchanging _ _ _ _ _ H E) w) as Hk.
  destruct (apply_column "genres" (genres_lambda eval) tv w) as [w1 [genres | e]];
    [ | exact Hk ].
  destruct (genre_popularity_long _ (setitem "genres" genres tv)); exact Hk.
Qed.

(** ** The table after an analysis *)


Lemma plot_viewership_keeps_table (w : World) :
  table (fst (plot_viewership_by_age_and_region w)) = table w.
Proof.
  unfold plot_viewership_by_age_and_region.
  unfold bind at 1. unfold get_table at 1.
  match goal with |- table (fst (?m w)) = _ => apply (console_only_table m w) end.
  frame.
Qed.

(** The genre-distribution analysis evaluates the genre cells of the table
    itself, assigns them to the table as the evaluations left it, and goes
    on without the evaluator. *)
Lemma plot_genre_distribution_by_region_steps :
  exists rest : DataFrame -> M World unit,
    (forall data, console_only (rest data))
    /\ forall (eval : string -> M World Value) (w : World),
         plot_genre_distribution_by_region eval w
         = if negb (has_column "genres" (table w))
              || negb (has_column "viewer_region" (table w)) then
             on_console
               (print "The 'genres' or 'viewer_region' column is not found in the dataset.")
               w
           else
             match apply_column "genres" (genres_lambda eval) (table w) w with
             | (w1, Raise e) => (w1, Raise e)
             | (w1, Ok genres) =>
                 rest (setitem "genres" genres (table w1))
                      (mkWorld (setitem "genres" genres (table w1)) (console w1))
             end.
Proof.
  eexists (fun data => _). split.
  - intros data. shelve.
  - intros eval w. unfold plot_genre_distribution_by_region at 1.
    unfold bind at 1. unfold get_table at 1.
    destruct (negb (has_column "genres" (table w))
              || negb (has_column "viewer_region" (table w))); [ reflexivity | ].
    unfold bind at 1.
    destruct (apply_column "genres" (genres_lambda eval) (table w) w)
      as [w1 [gs | e]]; [ | reflexivity ].
    unfold bind at 1. unfold get_table at 1.
    unfold bind at 1. unfold put_table at 1.
    unfold bind at 1. unfold get_table at 1. cbn [table console].
    generalize (setitem "genres" gs (table w1)). intros data. reflexivity.
  Unshelve. simpl. frame.
Qed.

(** The table after the analysis holds the evaluated genres, whatever
    happens afterwards. *)
Lemma plot_genre_distribution_by_region_assigns (eval : string -> M World Value)
    (w w1 : World) (genres : list Value) :
  has_column "genres" (table w) = true ->
  has_column "viewer_region" (table w) = true ->
  apply_column "genres" (genres_lambda eval) (table w) w = (w1, Ok genres) ->
  table (fst (plot_genre_distribution_by_region eval w))
  = setitem "genres" genres (table w1).
Proof.
  intros Hg Hr Happly.
  destruct plot_genre_distribution_by_region_steps as [rest [Hrest Hrun]].
  rewrite Hrun, Hg, Hr, Happly. cbn [negb orb].
  now rewrite (console_only_table _ _ (Hrest _)).
Qed.

(** C6 fails on the code.  The movies-versus-shows analysis leaves a new
    column in the table it was given, and the genre-distribution analysis
    replaces the genre texts of that table by what they evaluate to; the
    genre-popularity analysis, which copies first, changes nothing. *)
Theorem analyses_change_the_table :
  table (fst (plot_movies_vs_shows (mkWorld sample_data [])))
  = mkFrame (columns sample_data ++ ["year_interval"])
            [[VInt 1; VStr "SHOW"; VInt 2019; VStr "['Drama','Comedy']";
              VStr "18-25"; VStr "US"; VInt 100; VInt 2015]]
  /\ table (fst (plot_movies_vs_shows (mkWorld sample_data []))) <> sample_data
  /\ table (fst (plot_genre_distribution_by_region py_eval (mkWorld sample_data [])))
     = mkFrame (columns sample_data)
               [[VInt 1; VStr "SHOW"; VInt 2019; VList [VStr "Drama"; VStr "Comedy"];
                 VStr "18-25"; VStr "US"; VInt 100]]
  /\ table (fst (plot_genre_distribution_by_region py_eval (mkWorld sample_data [])))
     <> sample_data
  /\ table (fst (plot_genre_popularity py_eval (mkWorld sample_data []))) = sample_data.
Proof.
  split; [ reflexivity | ]. split; [ discriminate | ].
  split; [ reflexivity | ]. split; [ discriminate | ].
  reflexivity.
Qed.

(** ** Guards on the columns *)

Lemma plot_genre_popularity_guard (eval : string -> M World Value) (w : World) :
  has_column "genres" (table w) = false ->
  plot_genre_popularity eval w
  = (mkWorld (table w)
       (console w ++ [Printed "No 'genres' column found. Please check the dataset."]),
     Ok tt).
Proof.
  intros H. unfold plot_genre_popularity, bind, get_table. now rewrite H.
Qed.

Lemma plot_genre_distribution_by_region_guard (eval : string -> M World Value)
    (w : World) :
  has_column "genres" (table w) = false \/ has_column "viewer_region" (table w) = false ->
  plot_genre_distribution_by_region eval w
  = (mkWorld (table w)
       (console w
        ++ [Printed "The 'genres' or 'viewer_region' column is not found in the dataset."]),
     Ok tt).
Proof.
  intros H. unfold plot_genre_distribution_by_region, bind, get_table.
  destruct H as [H | H]; rewrite H; simpl; [ reflexivity | ].
  now rewrite orb_true_r.
Qed.

Lemma index_of_absent (name : string) (df : DataFrame) :
  has_column name df = false -> index_of name (columns df) = None.
Proof.
  intros H. destruct (index_of name (columns df)) as [i | ] eqn:E; [ | reflexivity ].
  assert (has_column name df = true) by (apply index_of_has_column; eauto).
  congruence.
Qed.

(** Without the release year the movies-versus-shows analysis raises at
    its first line: nothing is printed, nothing is shown. *)
Lemma plot_movies_vs_shows_no_year (w : World) :
  has_column "release_year" (table w) = false ->
  plot_movies_vs_shows w = (w, Raise (KeyError "release_year")).
Proof.
  intros H. unfold plot_movies_vs_shows, bind, get_table, lift, bucket_column, getitem.
  now rewrite (index_of_absent _ _ H).
Qed.

(** Without the type column the genre-popularity analysis passes its
    guard and raises at the selection. *)
Lemma plot_genre_popularity_no_type (eval : string -> M World Value) (w : World) :
  has_column "genres" (table w) = true ->
  has_column "type" (table w) = false ->
  plot_genre_popularity eval w = (w, Raise (KeyError "type")).
Proof.
  intros Hg Ht. unfold plot_genre_popularity, bind, get_table, lift, select_eq.
  rewrite Hg. simpl. now rewrite (index_of_absent _ _ Ht).
Qed.

Lemma setitem_columns_existing (name : string) (values : list Value) (df : DataFrame)
    (i : nat) :
  index_of name (columns df) = Some i ->
  columns (setitem name values df) = columns df.
Proof. intros H. unfold setitem. now rewrite H. Qed.

Lemma select_eq_columns (name : string) (value : Value) (df tv : DataFrame) :
  select_eq name value df = Ok tv -> columns tv = columns df.
Proof.
  unfold select_eq. destruct (index_of name (columns df)); [ | discriminate ].
  now intros [= <-].
Qed.

(** Without the release year the genre-popularity analysis passes its
    guard, selects the shows, evaluates their genre texts, and raises at
    the bucketing: no diagnostic is printed. *)
Lemma plot_genre_popularity_no_year (eval : string -> M World Value) (w w1 : World)
    (tv : DataFrame) (genres : list Value) :
  has_column "genres" (table w) = true ->
  has_column "release_year" (table w) = false ->
  select_eq "type" (VStr "SHOW") (table w) = Ok tv ->
  apply_column "genres" (genres_lambda eval) tv w = (w1, Ok genres) ->
  plot_genre_popularity eval w = (w1, Raise (KeyError "release_year")).
Proof.
  intros Hg Hy Hsel Happly.
  pose proof (select_eq_columns _ _ _ _ Hsel) as Hcols.
  pose proof Hg as Hg'.
  apply index_of_has_column in Hg as [i Hi]. rewrite <- Hcols in Hi.
  apply index_of_absent in Hy. rewrite <- Hcols in Hy.
  rewrite plot_genre_popularity_run, Hg', Hsel, Happly. cbn [negb].
  unfold genre_popularity_long, explode.
  rewrite (setitem_columns_existing _ _ _ _ Hi), Hi.
  unfold bucket_rows, getitem. cbn [columns]. now rewrite Hy.
Qed.

(** C9 fails on the code.  The genre-popularity analysis checks for the
    genre column only: on a table that has the genres and the types but no
    release year, it passes the guard and the bucketing raises a key error,
    without any diagnostic.  The movies-versus-shows analysis has no guard
    at all and raises the same error at once. *)
Theorem missing_release_year_raises :
  has_column "release_year" sample_no_year = false
  /\ plot_genre_popularity py_eval (mkWorld sample_no_year [])
     = (mkWorld sample_no_year [], Raise (KeyError "release_year"))
  /\ plot_movies_vs_shows (mkWorld sample_no_year [])
     = (mkWorld sample_no_year [], Raise (KeyError "release_year")).
Proof. repeat split. Qed.

(** ** A run of the pipeline *)

(** The merge cell renames the key in both tables and joins them: the
    title without a viewership row is dropped. *)
Example scenario_merge :
  merge_cell (mkGlobals (Some scenario_content) (Some scenario_viewership) None [])
  = (mkGlobals (Some (rename "id" "show_id" scenario_content))
               (Some (rename "id" "show_id" scenario_viewership))
               (Some sample_data)
               [Displayed sample_data;
                Printed "We've successfully merged the Netflix content and viewership datasets on the 'show_id' column. This combined dataset will be used for our analysis."],
     Ok tt).
Proof. reflexivity. Qed.

(** The genre-popularity analysis of the merged table: two genres, each
    counted once in the interval 2015. *)
Example scenario_genre_popularity :
  plot_genre_popularity py_eval (mkWorld sample_data [])
  = (mkWorld sample_data
       [Shown (mkFigure Bar
                 (mkFrame ["year_interval"; "Genre"; "Count"]
                          [[VInt 2015; VStr "Comedy"; VInt 1];
                           [VInt 2015; VStr "Drama"; VInt 1]])
                 "Popularity of TV Show Genres Over 5-Year Intervals")],
     Ok tt).
Proof. reflexivity. Qed.

(** The explosion of the merged table, once the genre texts are lists:
    one row per genre, the other cells copied. *)
Example scenario_explode :
  and_then (explode "genres"
              (setitem "genres" [VList [VStr "Drama"; VStr "Comedy"]] sample_data))
           (fun ex => Ok (rows ex))
  = Ok [[VInt 1; VStr "SHOW"; VInt 2019; VStr "Drama"; VStr "18-25"; VStr "US"; VInt 100];
        [VInt 1; VStr "SHOW"; VInt 2019; VStr "Comedy"; VStr "18-25"; VStr "US"; VInt 100]].
Proof. reflexivity. Qed.

(** ** The key of the join *)

Lemma rename_no_old (old new : string) (cols : list string) :
  old <> new ->
  existsb (String.eqb old) (map (fun c => if String.eqb c old then new else c) cols)
  = false.
Proof.
  intros H. induction cols as [ | c cols IH ]; simpl; [ reflexivity | ].
  rewrite IH, orb_false_r. destruct (String.eqb c old) eqn:E.
  - now apply String.eqb_neq.
  - rewrite String.eqb_sym. exact E.
Qed.

Lemma rename_absent (old new : string) (cols : list string) :
  existsb (String.eqb old) cols = false ->
  map (fun c => if String.eqb c old then new else c) cols = cols.
Proof.
  induction cols as [ | c cols IH ]; simpl; [ reflexivity | ].
  intros H. apply orb_false_iff in H as [H1 H2].
  rewrite String.eqb_sym in H1. now rewrite H1, IH.
Qed.

Lemma count_label_rename (cols : list string) :
  count_label "show_id" (map (fun c => if String.eqb c "id" then "show_id" else c) cols)
  = (count_label "id" cols + count_label "show_id" cols)%nat.
Proof.
  unfold count_label. induction cols as [ | c cols IH ]; simpl; [ reflexivity | ].
  destruct (String.eqb c "id") eqn:E.
  - apply String.eqb_eq in E. subst c.
    destruct (string_dec "show_id" "show_id") as [_ | N]; [ | congruence ].
    destruct (string_dec "id" "id") as [_ | N]; [ | congruence ].
    destruct (string_dec "id" "show_id") as [N | _]; [ discriminate | ].
    rewrite IH. lia.
  - apply String.eqb_neq in E.
    destruct (string_dec c "id") as [N | _]; [ contradiction | ].
    destruct (string_dec c "show_id"); rewrite IH; lia.
Qed.

(** The loop of the merge cell is the renaming itself: the test for the
    label changes nothing. *)
Lemma normalize_key_rename (df : DataFrame) :
  normalize_key df = rename "id" "show_id" df.
Proof.
  unfold normalize_key. destruct (has_column "id" df) eqn:H; [ reflexivity | ].
  unfold rename. unfold has_column in H. rewrite (rename_absent _ _ _ H).
  now destruct df.
Qed.

(** X1.  After the loop of the merge cell a table has no column named id:
    every column that was named id is named show_id, so that the table has
    as many show_id columns as it had columns of either name; its rows are
    as before, and the loop does nothing when it is run again. *)
Theorem normalize_key_spec (df : DataFrame) :
  has_column "id" (normalize_key df) = false
  /\ count_label "show_id" (columns (normalize_key df)) = key_labels df
  /\ length (columns (normalize_key df)) = length (columns df)
  /\ rows (normalize_key df) = rows df
  /\ normalize_key (normalize_key df) = normalize_key df.
Proof.
  assert (Hno : has_column "id" (rename "id" "show_id" df) = false).
  { unfold has_column, rename. cbn [columns]. apply rename_no_old. discriminate. }
  rewrite !normalize_key_rename. repeat split.
  - exact Hno.
  - apply count_label_rename.
  - unfold rename. cbn [columns]. apply length_map.
  - rewrite <- (normalize_key_rename (rename "id" "show_id" df)).
    unfold normalize_key. now rewrite Hno.
Qed.

Lemma index_of_count (name : string) (cols : list string) :
  index_of name cols = None <-> count_label name cols = 0%nat.
Proof.
  unfold count_label. induction cols as [ | c cols IH ]; simpl; [ tauto | ].
  destruct (String.eqb c name) eqn:E.
  - apply String.eqb_eq in E. destruct (string_dec c name); [ | contradiction ].
    split; discriminate.
  - apply String.eqb_neq in E. destruct (string_dec c name); [ contradiction | ].
    rewrite <- IH. destruct (index_of name cols); simpl; split; congruence.
Qed.

(** The key is found when exactly one column has one of its two names. *)
Lemma key_position_normalized (df : DataFrame) :
  match key_labels df with
  | 0%nat => key_position "show_id" (normalize_key df) = Raise (KeyError "show_id")
  | 1%nat => exists i, key_position "show_id" (normalize_key df) = Ok i
  | _ => key_position "show_id" (normalize_key df)
         = Raise (ValueError "The column label 'show_id' is not unique.")
  end.
Proof.
  assert (Hc : count_label "show_id" (columns (normalize_key df)) = key_labels df)
    by (rewrite normalize_key_rename; apply count_label_rename).
  unfold key_position.
  rewrite Hc.
  destruct (index_of "show_id" (columns (normalize_key df))) as [i | ] eqn:E.
  - destruct (key_labels df) as [ | [ | k ] ] eqn:K; simpl.
    + apply (proj2 (index_of_count _ _)) in Hc. congruence.
    + eauto.
    + reflexivity.
  - apply index_of_count in E. rewrite Hc in E. now rewrite E.
Qed.

(** X2.  When both datasets are there but one of them does not have exactly
    one column named id or show_id, the merge cell raises: a key error when
    the column is missing, a value error when there are several.  The failure
    line is not printed and no merged table is assigned, but both tables have
    been renamed. *)
Theorem merge_cell_bad_key (g : Globals) (n v : DataFrame) :
  netflix_df g = Some n -> viewership_df g = Some v ->
  key_labels n <> 1%nat \/ key_labels v <> 1%nat ->
  exists e,
    merge_cell g
    = (mkGlobals (Some (normalize_key n)) (Some (normalize_key v)) (data g) (output g),
       Raise e)
    /\ (e = KeyError "show_id"
        \/ e = ValueError "The column label 'show_id' is not unique.").
Proof.
  intros Hn Hv Hbad. unfold merge_cell. rewrite Hn, Hv. unfold merge.
  pose proof (key_position_normalized n) as Kn.
  pose proof (key_position_normalized v) as Kv.
  destruct (key_labels n) as [ | [ | kn ] ].
  - rewrite Kn. eexists. split; [ reflexivity | now left ].
  - destruct Kn as [i Kn]. rewrite Kn.
    destruct (key_labels v) as [ | [ | kv ] ].
    + rewrite Kv. eexists. split; [ reflexivity | now left ].
    + destruct Hbad as [H | H]; now contradiction H.
    + rewrite Kv. eexists. split; [ reflexivity | now right ].
  - rewrite Kn. eexists. split; [ reflexivity | now right ].
Qed.

Lemma merge_cell_bad_key_witness :
  let n := mkFrame ["id"; "show_id"; "type"] [[VInt 1; VInt 1; VStr "SHOW"]] in
  let g := mkGlobals (Some n) (Some sample_viewership) None [] in
  key_labels n <> 1%nat
  /\ snd (merge_cell g) = Raise (ValueError "The column label 'show_id' is not unique.")
  /\ data (fst (merge_cell g)) = None.
Proof.
  intros n g.
  assert (H : key_labels n <> 1%nat) by discriminate.
  split; [ exact H | ].
  destruct (merge_cell_bad_key g n sample_viewership eq_refl eq_refl (or_introl H))
    as [e [E _]].
  rewrite E. split; [ | reflexivity ].
  vm_compute in E. now injection E as <-.
Defined.

(** ** The loading cell and the run of the cells *)

Lemma load_dataset_run (read_csv : string -> Result DataFrame) (url : string)
    (c : Console) :
  load_dataset read_csv url c
  = (c ++ load_diagnostic read_csv url, Ok (loaded read_csv url)).
Proof.
  unfold load_diagnostic, loaded. destruct (read_csv url) as [df | e] eqn:E.
  - rewrite (load_dataset_returns _ _ _ _ E). now rewrite app_nil_r.
  - now rewrite (load_dataset_fails _ _ _ _ E).
Qed.

(** X3.  The loading cell makes both loads, whatever the first one gives:
    each variable holds its table or the null marker, each failed load has
    printed its own diagnostic, in order, the closing line is printed after
    them, and the cell does not raise. *)
Theorem load_cell_run (read_csv : string -> Result DataFrame) (g : Globals) :
  load_cell read_csv g
  = (mkGlobals (loaded read_csv netflix_url) (loaded read_csv viewership_url) (data g)
       (output g ++ load_diagnostic read_csv netflix_url
        ++ load_diagnostic read_csv viewership_url ++ [Printed load_message]),
     Ok tt).
Proof.
  unfold load_cell, bind, on_output, assign_netflix_df, assign_viewership_df, print, emit.
  rewrite load_dataset_run. cbn [output netflix_df viewership_df data].
  rewrite load_dataset_run. cbn [output netflix_df viewership_df data].
  now rewrite <- !app_assoc.
Qed.

Lemma analysis_cell_unbound (analysis : M World unit) (closing : string) (g : Globals) :
  data g = None -> analysis_cell analysis closing g = (g, Raise (NameError "data")).
Proof. intros H. unfold analysis_cell. now rewrite H. Qed.

(** X4.  When a load fails in a fresh session, the run of the cells prints
    the diagnostics, the closing line of the loading cell, the failure line
    of the merge cell and the line of the cell that defines the first
    analysis, and stops at the first cell that calls an analysis, with a name
    error: no merged table exists, and nothing is evaluated, shown or
    displayed. *)
Theorem pipeline_load_failure (read_csv : string -> Result DataFrame)
    (eval : string -> M World Value) (g : Globals) :
  data g = None ->
  loaded read_csv netflix_url = None \/ loaded read_csv viewership_url = None ->
  pipeline read_csv eval g
  = (mkGlobals (loaded read_csv netflix_url) (loaded read_csv viewership_url) None
       (output g ++ load_diagnostic read_csv netflix_url
        ++ load_diagnostic read_csv viewership_url
        ++ [Printed load_message; Printed "Failed to load or merge datasets";
            Printed movies_defined]),
     Raise (NameError "data")).
Proof.
  intros Hd Hnull. unfold pipeline.
  unfold bind at 1. unfold load_cell.
  unfold bind, on_output, assign_netflix_df, assign_viewership_df, print, emit.
  rewrite load_dataset_run. cbn [output netflix_df viewership_df data].
  rewrite load_dataset_run. cbn [output netflix_df viewership_df data].
  assert (Hmerge : forall c,
             merge_cell (mkGlobals (loaded read_csv netflix_url)
                                   (loaded read_csv viewership_url) (data g) c)
             = (mkGlobals (loaded read_csv netflix_url) (loaded read_csv viewership_url)
                          (data g) (c ++ [Printed "Failed to load or merge datasets"]),
                Ok tt)).
  { intros c. unfold merge_cell. cbn [netflix_df viewership_df data output].
    destruct Hnull as [-> | ->]; [ reflexivity | ].
    destruct (loaded read_csv netflix_url); reflexivity. }
  rewrite Hmerge. unfold definition_cell, on_output, print, emit.
  cbn [output netflix_df viewership_df data]. unfold movies_cell.
  rewrite analysis_cell_unbound by exact Hd.
  rewrite Hd. now rewrite <- !app_assoc.
Qed.

Lemma pipeline_load_failure_witness :
  let read_csv := fun url : string =>
                    if String.eqb url netflix_url
                    then Ok sample_content
                    else Raise (OtherError "HTTPError" "HTTP Error 404: Not Found") in
  let g := mkGlobals None None None [] in
  (loaded read_csv netflix_url = None \/ loaded read_csv viewership_url = None)
  /\ snd (pipeline read_csv py_eval g) = Raise (NameError "data")
  /\ output (fst (pipeline read_csv py_eval g))
     = [Printed "Error loading dataset: HTTP Error 404: Not Found";
        Printed load_message;
        Printed "Failed to load or merge datasets";
        Printed movies_defined].
Proof.
  intros read_csv g.
  assert (H : loaded read_csv netflix_url = None \/ loaded read_csv viewership_url = None)
    by (right; reflexivity).
  split; [ exact H | ].
  rewrite (pipeline_load_failure read_csv py_eval g eq_refl H).
  split; reflexivity.
Defined.

(** ** Columns read back after an assignment *)

Lemma traverse_length {A B} (f : A -> Result B) (xs : list A) (ys : list B) :
  traverse f xs = Ok ys -> length ys = length xs.
Proof.
  revert ys. induction xs as [ | x xs IH ]; simpl; intros ys.
  - now intros [= <-].
  - destruct (f x); [ | discriminate ].
    destruct (traverse f xs) as [zs | ]; [ | discriminate ].
    intros [= <-]. simpl. now rewrite (IH zs).
Qed.

Lemma index_of_app_new (name c : string) (cols : list string) :
  index_of name cols = None ->
  index_of name (cols ++ [c]) = if String.eqb c name then Some (length cols) else None.
Proof.
  induction cols as [ | d cols IH ]; simpl.
  - intros _. now destruct (String.eqb c name).
  - destruct (String.eqb d name); [ discriminate | ].
    destruct (index_of name cols); [ discriminate | ].
    intros _. rewrite IH by reflexivity. now destruct (String.eqb c name).
Qed.

Lemma index_of_app_old (name c : string) (cols : list string) (i : nat) :
  index_of name cols = Some i -> index_of name (cols ++ [c]) = Some i.
Proof.
  revert i. induction cols as [ | d cols IH ]; simpl; intros i; [ discriminate | ].
  destruct (String.eqb d name); [ trivial | ].
  destruct (index_of name cols) as [k | ]; [ | discriminate ].
  intros [= <-]. now rewrite (IH k).
Qed.

Lemma index_of_distinct (n1 n2 : string) (cols : list string) (i1 i2 : nat) :
  n1 <> n2 -> index_of n1 cols = Some i1 -> index_of n2 cols = Some i2 -> i1 <> i2.
Proof.
  intros Hn H1 H2 E. subst i2.
  apply (index_of_bound _ _ _) in H1 as [_ H1].
  apply (index_of_bound _ _ _) in H2 as [_ H2]. congruence.
Qed.

Lemma cell_app_left (i : nat) (r : Row) (v : Value) :
  (i < length r)%nat -> cell i (r ++ [v]) = cell i r.
Proof. intros H. unfold cell. now apply app_nth1. Qed.

Lemma cell_app_last (r : Row) (v : Value) : cell (length r) (r ++ [v]) = v.
Proof. unfold cell. rewrite app_nth2, Nat.sub_diag by lia. reflexivity. Qed.

Lemma map_combine_fst {A B C} (f : A * B -> C) (g : A -> C) (xs : list A) (ys : list B) :
  length ys = length xs ->
  (forall x y, In x xs -> f (x, y) = g x) ->
  map f (combine xs ys) = map g xs.
Proof.
  revert ys. induction xs as [ | x xs IH ]; intros [ | y ys ] Hl Hf; simpl in *;
    try reflexivity; try discriminate.
  rewrite Hf by now left. f_equal. apply IH; [ lia | ]. intros. apply Hf. now right.
Qed.

Lemma map_combine_snd {A C} (f : A * C -> C) (xs : list A) (ys : list C) :
  length ys = length xs ->
  (forall x y, In x xs -> f (x, y) = y) ->
  map f (combine xs ys) = ys.
Proof.
  revert ys. induction xs as [ | x xs IH ]; intros [ | y ys ] Hl Hf; simpl in *;
    try reflexivity; try discriminate.
  rewrite Hf by now left. f_equal. apply IH; [ lia | ]. intros. apply Hf. now right.
Qed.

(** What was assigned to a column is what is read from it. *)
Lemma getitem_setitem_same (name : string) (values : list Value) (df : DataFrame) :
  well_formed df -> length values = length (rows df) ->
  getitem name (setitem name values df) = Ok values.
Proof.
  intros [_ Hfit] Hlen. unfold setitem, getitem.
  destruct (index_of name (columns df)) as [i | ] eqn:E; cbn [columns rows].
  - rewrite E. f_equal. rewrite map_map.
    apply map_combine_snd; [ assumption | ]. intros r v Hr. simpl.
    apply cell_set_cell_same. rewrite (Hfit r Hr). now apply index_of_bound in E.
  - rewrite (index_of_app_new _ _ _ E), String.eqb_refl. f_equal. rewrite map_map.
    apply map_combine_snd; [ assumption | ]. intros r v Hr. simpl.
    rewrite <- (Hfit r Hr). apply cell_app_last.
Qed.

(** The other columns are read as before. *)
Lemma getitem_setitem_other (name other : string) (values : list Value) (df : DataFrame) :
  well_formed df -> length values = length (rows df) -> other <> name ->
  getitem other (setitem name values df) = getitem other df.
Proof.
  intros [_ Hfit] Hlen Hneq. unfold setitem, getitem.
  destruct (index_of name (columns df)) as [i | ] eqn:E; cbn [columns rows].
  - destruct (index_of other (columns df)) as [k | ] eqn:Ek; [ | reflexivity ].
    f_equal. rewrite map_map. apply map_combine_fst; [ assumption | ].
    intros r v Hr. simpl. apply cell_set_cell_other.
    exact (index_of_distinct _ _ _ _ _ Hneq Ek E).
  - destruct (index_of other (columns df)) as [k | ] eqn:Ek.
    + rewrite (index_of_app_old _ _ _ _ Ek). f_equal. rewrite map_map.
      apply map_combine_fst; [ assumption | ]. intros r v Hr. simpl.
      apply cell_app_left. rewrite (Hfit r Hr). now apply index_of_bound in Ek.
    + rewrite (index_of_app_new _ _ _ Ek).
      destruct (String.eqb name other) eqn:N; [ | reflexivity ].
      apply String.eqb_eq in N. congruence.
Qed.


Lemma setitem_well_formed (name : string) (values : list Value) (df : DataFrame) :
  well_formed df -> well_formed (setitem name values df).
Proof.
  intros [Hc Hfit]. unfold setitem.
  destruct (index_of name (columns df)) as [i | ] eqn:E; split; cbn [columns rows].
  - assumption.
  - intros r Hr. apply in_map_iff in Hr as [[r0 v] [<- Hin]]. simpl.
    rewrite set_cell_length. apply Hfit. now apply in_combine_l in Hin.
  - apply NoDup_app; [ assumption | repeat constructor; simpl; tauto | ].
    intros c Hin [<- | []].
    assert (has_column name df = true) as H.
    { unfold has_column. apply existsb_exists. exists name.
      split; [ assumption | apply String.eqb_refl ]. }
    apply index_of_has_column in H as [k Hk]. congruence.
  - intros r Hr. apply in_map_iff in Hr as [[r0 v] [<- Hin]]. simpl.
    rewrite !length_app. simpl. f_equal. apply Hfit. now apply in_combine_l in Hin.
Qed.

Lemma set_cell_cell (i : nat) (r : Row) : set_cell i (cell i r) r = r.
Proof.
  unfold cell. revert r. induction i as [ | i IH ]; intros [ | x r ]; simpl;
    try reflexivity.
  now rewrite IH.
Qed.

(** Assigning to a column the values it holds changes nothing. *)
Lemma setitem_same_values (name : string) (values : list Value) (df : DataFrame) :
  getitem name df = Ok values -> setitem name values df = df.
Proof.
  unfold getitem, setitem. destruct (index_of name (columns df)) as [i | ];
    [ | discriminate ].
  intros [= <-]. rewrite combine_map_self, map_map. simpl.
  rewrite (map_ext _ (fun r => r)) by (intros r; apply set_cell_cell).
  rewrite map_id. now destruct df.
Qed.

(** ** The movies-versus-shows analysis *)

(** The analysis, step by step. *)
Lemma plot_movies_vs_shows_run (w : World) :
  plot_movies_vs_shows w
  = match bucket_column "release_year" (table w) with
    | Raise e => (w, Raise e)
    | Ok intervals =>
        let data := setitem "year_interval" intervals (table w) in
        match and_then (size_unstack "year_interval" "type" (VInt 0) data)
                       (reset_index_melt "Type" "Count") with
        | Raise e => (mkWorld data (console w), Raise e)
        | Ok long =>
            (mkWorld data
               (console w
                ++ [Shown (mkFigure Bar long "Movies vs TV Shows Over 5-Year Intervals")]),
             Ok tt)
        end
    end.
Proof.
  unfold plot_movies_vs_shows, bind, get_table, lift, put_table, on_console, emit.
  destruct (bucket_column "release_year" (table w)) as [ys | e]; [ | reflexivity ].
  cbn [table console].
  destruct (size_unstack "year_interval" "type" (VInt 0)
              (setitem "year_interval" ys (table w))) as [wide | e];
    [ | reflexivity ].
  cbn [and_then].
  destruct (reset_index_melt "Type" "Count" wide); reflexivity.
Qed.

Lemma bucket_column_length (name : string) (df : DataFrame) (intervals : list Value) :
  bucket_column name df = Ok intervals -> length intervals = length (rows df).
Proof.
  unfold bucket_column, getitem. destruct (index_of name (columns df)); [ | discriminate ].
  intros H. apply traverse_length in H. now rewrite length_map in H.
Qed.




(** X6.  Running the movies-versus-shows analysis a second time on the
    table the first run left changes nothing more: the table stays as the
    first run left it, the second run ends as the first, and it shows the
    same chart again. *)
Theorem plot_movies_vs_shows_again (w w1 : World) (r1 : Result unit) :
  well_formed (table w) ->
  plot_movies_vs_shows w = (w1, r1) ->
  exists shown,
    console w1 = console w ++ shown
    /\ plot_movies_vs_shows w1 = (mkWorld (table w1) (console w1 ++ shown), r1).
Proof.
  intros Hwf. rewrite plot_movies_vs_shows_run.
  destruct (bucket_column "release_year" (table w)) as [ys | e] eqn:Hb.
  - pose proof (bucket_column_length _ _ _ Hb) as Hlen.
    set (t1 := setitem "year_interval" ys (table w)).
    assert (Hb1 : bucket_column "release_year" t1 = Ok ys).
    { unfold bucket_column in *. unfold t1.
      rewrite getitem_setitem_other by (assumption || discriminate). exact Hb. }
    assert (Ht1 : setitem "year_interval" ys t1 = t1).
    { apply setitem_same_values. unfold t1. now apply getitem_setitem_same. }
    cbn zeta. fold t1.
    destruct (and_then (size_unstack "year_interval" "type" (VInt 0) t1)
                       (reset_index_melt "Type" "Count")) as [long | e] eqn:Hlong;
      intros [= <- <-]; rewrite plot_movies_vs_shows_run; cbn [table console];
      rewrite Hb1; cbn zeta; rewrite Ht1, Hlong.
    + eexists. split; reflexivity.
    + exists []. rewrite !app_nil_r. split; reflexivity.
  - intros [= <- <-]. exists []. rewrite plot_movies_vs_shows_run, Hb, !app_nil_r.
    split; [ reflexivity | now destruct w ].
Qed.

Lemma plot_movies_vs_shows_again_witness :
  let w := mkWorld sample_data [] in
  let w1 := fst (plot_movies_vs_shows w) in
  well_formed (table w)
  /\ table (fst (plot_movies_vs_shows w1)) = table w1
  /\ snd (plot_movies_vs_shows w1) = Ok tt.
Proof.
  intros w w1.
  assert (Hwf : well_formed (table w)).
  { split.
    - apply distinct_labels_NoDup. reflexivity.
    - intros r [<- | []]. reflexivity. }
  split; [ exact Hwf | ].
  destruct (plot_movies_vs_shows_again w w1 (snd (plot_movies_vs_shows w)) Hwf
              (surjective_pairing _)) as [shown [Hc Hrun]].
  rewrite Hrun. split; reflexivity.
Defined.

(** ** The counts of a chart add up *)

Lemma insert_sorted_NoDup {A} (leb : A -> A -> bool) (x : A) (xs : list A) :
  ~ In x xs -> NoDup xs -> NoDup (insert_sorted leb x xs).
Proof.
  induction xs as [ | y ys IH ]; simpl; intros Hx Hn.
  - repeat constructor. tauto.
  - destruct (leb x y).
    + constructor; [ simpl; tauto | assumption ].
    + inversion Hn as [ | ? ? Hy Hys ]; subst. constructor.
      * rewrite insert_sorted_In. intros [-> | H]; tauto.
      * apply IH; tauto.
Qed.

Lemma sort_by_NoDup {A} (leb : A -> A -> bool) (xs : list A) :
  NoDup xs -> NoDup (sort_by leb xs).
Proof.
  induction 1 as [ | x xs Hx _ IH ]; simpl; [ constructor | ].
  apply insert_sorted_NoDup; [ now rewrite sort_by_In | assumption ].
Qed.

Lemma distinct_values_NoDup (vs : list Value) : NoDup (distinct_values vs).
Proof. apply sort_by_NoDup, unique_NoDup, Value_eqb_eq. Qed.

Lemma flat_map_positions {A B} (d : A) (F : nat * A -> list B) (G : A -> list B)
    (xs : list A) (s : nat) :
  (forall k x, In (k, x) (combine (seq s (length xs)) xs) -> F (k, x) = G x) ->
  flat_map F (combine (seq s (length xs)) xs) = flat_map G xs.
Proof.
  revert s. induction xs as [ | x xs IH ]; intros s H; simpl; [ reflexivity | ].
  rewrite (H s x) by now left. f_equal. apply IH. intros k y Hin. apply H. now right.
Qed.

(** The rows of the long form, listed: label after label, one row per
    index value. *)
Lemma melt_unstack_rows (name var value : string) (fill : Value) (s : Series2)
    (long : DataFrame) :
  reset_index_melt var value (unstack name fill s) = Ok long ->
  rows long
  = flat_map (fun b => map (fun a => [a; b; wide_cell fill s a b])
                           (distinct_values (map (fun kv => fst (fst kv)) s)))
             (distinct_values (map (fun kv => snd (fst kv)) s)).
Proof.
  intros H. unfold reset_index_melt, unstack in H. cbn [index_name index labels matrix] in H.
  set (idx := distinct_values (map (fun kv => fst (fst kv)) s)) in *.
  set (lbl := distinct_values (map (fun kv => snd (fst kv)) s)) in *.
  destruct (existsb _ lbl); [ discriminate | ]. destruct (existsb _ lbl); [ discriminate | ].
  injection H as <-. cbn [rows]. rewrite combine_map_self.
  apply (flat_map_positions VNaN). intros k b Hkb. cbn [fst snd].
  apply (combine_seq_In VNaN) in Hkb as [Hk Hb]. rewrite Nat.sub_0_r in Hb.
  rewrite map_map. apply map_ext. intros a. cbn [fst snd].
  rewrite (cell_map _ _ VNaN) by lia. now rewrite Hb.
Qed.

Lemma fold_add_app (xs ys : list Z) :
  fold_right Z.add 0 (xs ++ ys) = fold_right Z.add 0 xs + fold_right Z.add 0 ys.
Proof. induction xs as [ | x xs IH ]; simpl; lia. Qed.

Lemma fold_add_of_nat (ns : list nat) :
  fold_right Z.add 0 (map Z.of_nat ns) = Z.of_nat (sum_nat ns).
Proof. induction ns as [ | n ns IH ]; simpl; lia. Qed.

Lemma sum_nat_add {A} (f g : A -> nat) (xs : list A) :
  sum_nat (map (fun x => f x + g x)%nat xs)
  = (sum_nat (map f xs) + sum_nat (map g xs))%nat.
Proof. induction xs as [ | x xs IH ]; simpl; lia. Qed.

Lemma sum_nat_zero {A} (xs : list A) : sum_nat (map (fun _ => 0%nat) xs) = 0%nat.
Proof. induction xs as [ | x xs IH ]; simpl; lia. Qed.

(** In a list without repetition an element of it is found once. *)
Lemma count_in_NoDup (x : Value) (xs : list Value) :
  NoDup xs -> In x xs ->
  sum_nat (map (fun a => if Value_eqb x a then 1 else 0)%nat xs) = 1%nat.
Proof.
  induction 1 as [ | y ys Hy _ IH ]; simpl; [ tauto | ].
  intros [-> | Hin].
  - rewrite Value_eqb_refl.
    rewrite (sum_nat_ext _ (fun _ => 0%nat)); [ now rewrite sum_nat_zero | ].
    intros a Ha. destruct (Value_eqb x a) eqn:E; [ | reflexivity ].
    apply Value_eqb_eq in E. subst. contradiction.
  - destruct (Value_eqb x y) eqn:E.
    + apply Value_eqb_eq in E. subst. contradiction.
    + now rewrite IH.
Qed.

(** Every row with both dimensions in the lists is counted for one pair. *)
Lemma occurrences_total (i j : nat) (idx lbl : list Value) (rs : list Row) :
  NoDup idx -> NoDup lbl ->
  (forall r, In r rs -> In (cell i r) idx /\ In (cell j r) lbl) ->
  sum_nat (map (fun b => sum_nat (map (fun a => occurrences i j a b rs) idx)) lbl)
  = length rs.
Proof.
  intros Hidx Hlbl. induction rs as [ | r rs IH ]; intros Hin.
  - unfold occurrences. simpl.
    rewrite (sum_nat_ext _ (fun _ => 0%nat)); [ apply sum_nat_zero | ].
    intros b _. apply sum_nat_zero.
  - destruct (Hin r (or_introl eq_refl)) as [Hi Hj].
    rewrite (sum_nat_ext _
               (fun b => (if Value_eqb (cell j r) b then 1 else 0)
                         + sum_nat (map (fun a => occurrences i j a b rs) idx))%nat).
    + rewrite sum_nat_add, IH by (intros; apply Hin; now right).
      rewrite (count_in_NoDup _ _ Hlbl Hj). reflexivity.
    + intros b _.
      rewrite (sum_nat_ext _
                 (fun a => (if Value_eqb (cell i r) a && Value_eqb (cell j r) b
                            then 1 else 0)
                           + occurrences i j a b rs)%nat).
      * rewrite sum_nat_add. f_equal.
        destruct (Value_eqb (cell j r) b).
        -- rewrite (sum_nat_ext _ (fun a => if Value_eqb (cell i r) a then 1 else 0)%nat)
             by (intros a _; now rewrite andb_true_r).
           apply (count_in_NoDup _ _ Hidx Hi).
        -- rewrite (sum_nat_ext _ (fun _ => 0%nat))
             by (intros a _; now rewrite andb_false_r).
           apply sum_nat_zero.
      * intros a _. unfold occurrences, Key2_eqb, keyed. simpl.
        now destruct (Value_eqb (cell i r) a && Value_eqb (cell j r) b).
Qed.

Lemma column_sum_flat_map {A} (k : nat) (cols : list string) (F : A -> list Row)
    (xs : list A) :
  column_sum k (mkFrame cols (flat_map F xs))
  = fold_right Z.add 0 (map (fun x => column_sum k (mkFrame cols (F x))) xs).
Proof.
  unfold column_sum. cbn [rows]. induction xs as [ | x xs IH ]; simpl; [ reflexivity | ].
  now rewrite map_app, fold_add_app, IH.
Qed.

(** X7.  In a grouping that counts rows, the counts of the long form add up
    to the number of rows of the table in which neither dimension is missing:
    every such row is counted for exactly one pair, and no other row is
    counted. *)
Theorem counts_add_up (d1 d2 var value : string) (df : DataFrame) (i j : nat) :
  index_of d1 (columns df) = Some i -> index_of d2 (columns df) = Some j ->
  forallb (fun r => hashable (cell i r) && hashable (cell j r)) (rows df) = true ->
  (forall r, In r (rows df) -> cell j r <> VStr d1 /\ cell j r <> VStr value) ->
  exists w long,
    size_unstack d1 d2 (VInt 0) df = Ok w
    /\ reset_index_melt var value w = Ok long
    /\ column_sum 2 long = Z.of_nat (length (valid_rows i j (rows df))).
Proof.
  intros Hi Hj Hh Hlabels.
  rewrite (size_unstack_returns d1 d2 (VInt 0) df i j Hi Hj Hh).
  set (groups := map _ (group_keys i j (rows df))).
  assert (Hkeys : map fst (size groups) = group_keys i j (rows df)).
  { unfold size, groups. rewrite !map_map. simpl. apply map_id. }
  destruct (long_form_of_series d1 var value (VInt 0) (size groups) i j (rows df)
              Hkeys Hlabels) as [long [Hlong [Hcols _]]].
  exists (unstack d1 (VInt 0) (size groups)), long.
  split; [ reflexivity | ]. split; [ exact Hlong | ].
  pose proof (melt_unstack_rows _ _ _ _ _ _ Hlong) as Hrows.
  set (idx := distinct_values (map (fun kv => fst (fst kv)) (size groups))) in *.
  set (lbl := distinct_values (map (fun kv => snd (fst kv)) (size groups))) in *.
  assert (Hidx : forall a, In a idx <-> In a (map (cell i) (valid_rows i j (rows df)))).
  { intros a. unfold idx. rewrite distinct_values_In, <- group_keys_fst, <- Hkeys.
    rewrite map_map. reflexivity. }
  assert (Hlbl : forall b, In b lbl <-> In b (map (cell j) (valid_rows i j (rows df)))).
  { intros b. unfold lbl. rewrite distinct_values_In, <- group_keys_snd, <- Hkeys.
    rewrite map_map. reflexivity. }
  destruct long as [cols lrows]. cbn [rows columns] in *. subst lrows.
  rewrite column_sum_flat_map.
  rewrite (map_ext_in _ (fun b => Z.of_nat (sum_nat (map (fun a =>
             occurrences i j a b (valid_rows i j (rows df))) idx)))).
  - rewrite <- (map_map _ Z.of_nat), fold_add_of_nat. f_equal.
    apply occurrences_total; try apply distinct_values_NoDup.
    intros r Hr. split; [ apply Hidx | apply Hlbl ]; now apply in_map.
  - intros b _. unfold column_sum. cbn [rows]. rewrite map_map.
    rewrite (map_ext _ (fun a => Z.of_nat (occurrences i j a b (valid_rows i j (rows df))))).
    + now rewrite <- (map_map _ Z.of_nat), fold_add_of_nat.
    + intros a. cbn [cell nth number_of]. unfold groups.
      now rewrite wide_cell_size.
Qed.

Lemma counts_add_up_witness :
  exists w long,
    size_unstack "year_interval" "type" (VInt 0) sample_titles = Ok w
    /\ reset_index_melt "Type" "Count" w = Ok long
    /\ column_sum 2 long = 2.
Proof.
  assert (Hlabels : forall r, In r (rows sample_titles) ->
                      cell 1 r <> VStr "year_interval" /\ cell 1 r <> VStr "Count").
  { intros r [<- | [<- | []]]; split; discriminate. }
  destruct (counts_add_up "year_interval" "type" "Type" "Count" sample_titles 0 1
              eq_refl eq_refl eq_refl Hlabels) as [w [long [Hw [Hlong Hsum]]]].
  exists w, long. split; [ exact Hw | ]. split; [ exact Hlong | exact Hsum ].
Defined.

(** ** The genre analyses on a table without texts *)

Lemma mapM_genres_lambda_no_text (eval : string -> M World Value)
    (values : list Value) (w : World) :
  forallb (fun v => negb (is_str v)) values = true ->
  mapM (genres_lambda eval) values w = (w, Ok values).
Proof.
  induction values as [ | v vs IH ]; simpl; intros H; [ reflexivity | ].
  apply andb_true_iff in H as [Hv Hvs].
  unfold bind at 1. rewrite genres_lambda_other by now apply negb_true_iff.
  unfold ret at 1. unfold bind at 1. now rewrite (IH Hvs).
Qed.

(** On a column without texts the normalization returns the column and
    calls nothing. *)
Lemma apply_column_no_text (eval : string -> M World Value) (df : DataFrame)
    (w : World) :
  no_genre_text df ->
  apply_column "genres" (genres_lambda eval) df w = (w, getitem "genres" df).
Proof.
  intros H. rewrite apply_column_run. unfold getitem.
  destruct (index_of "genres" (columns df)) as [i | ] eqn:E; [ | reflexivity ].
  apply mapM_genres_lambda_no_text. rewrite forallb_of_map.
  apply forallb_forall. intros r Hr. now rewrite (H i E r Hr).
Qed.

Lemma select_eq_no_genre_text (name : string) (value : Value) (df tv : DataFrame) :
  no_genre_text df -> select_eq name value df = Ok tv -> no_genre_text tv.
Proof.
  intros H. unfold select_eq. destruct (index_of name (columns df)); [ | discriminate ].
  intros [= <-] i Hi r Hr. cbn [columns rows] in *.
  apply filter_In in Hr as [Hr _]. now apply (H i Hi).
Qed.

Lemma genre_analyses_agree_without_text (eval1 eval2 : string -> M World Value)
    (w : World) :
  no_genre_text (table w) ->
  plot_genre_distribution_by_region eval1 w = plot_genre_distribution_by_region eval2 w
  /\ plot_genre_popularity eval1 w = plot_genre_popularity eval2 w.
Proof.
  intros H. split.
  - destruct plot_genre_distribution_by_region_steps as [rest [_ Hrun]]. rewrite !Hrun.
    now rewrite !(apply_column_no_text _ _ _ H).
  - rewrite !plot_genre_popularity_run.
    destruct (negb (has_column "genres" (table w))); [ reflexivity | ].
    destruct (select_eq "type" (VStr "SHOW") (table w)) as [tv | e] eqn:E;
      [ | reflexivity ].
    now rewrite !(apply_column_no_text _ tv _ (select_eq_no_genre_text _ _ _ _ H E)).
Qed.

(** X8.  On a table whose genre cells are not texts (they are lists
    already, or missing), neither genre analysis calls the evaluator: its
    run is the same whatever the evaluator would do. *)
Theorem genre_analyses_without_text (eval1 eval2 : string -> M World Value)
    (w : World) :
  no_genre_text (table w) ->
  plot_genre_popularity eval1 w = plot_genre_popularity eval2 w
  /\ plot_genre_distribution_by_region eval1 w
     = plot_genre_distribution_by_region eval2 w.
Proof.
  intros H. split.
  - rewrite !plot_genre_popularity_run.
    destruct (negb (has_column "genres" (table w))); [ reflexivity | ].
    destruct (select_eq "type" (VStr "SHOW") (table w)) as [tv | e] eqn:E;
      [ | reflexivity ].
    now rewrite !(apply_column_no_text _ tv _ (select_eq_no_genre_text _ _ _ _ H E)).
  - destruct plot_genre_distribution_by_region_steps as [rest [_ Hrun]]. rewrite !Hrun.
    now rewrite !(apply_column_no_text _ _ _ H).
Qed.

Lemma genre_analyses_without_text_witness :
  let df := mkFrame ["type"; "release_year"; "genres"; "viewer_region"]
                    [[VStr "SHOW"; VInt 2019; VList [VStr "Drama"]; VStr "US"]] in
  no_genre_text df
  /\ plot_genre_popularity py_eval (mkWorld df [])
     = plot_genre_popularity (fun text => on_console (literal_eval text)) (mkWorld df []).
Proof.
  intros df.
  assert (H : no_genre_text df).
  { intros i Hi r [<- | []]. injection Hi as <-. reflexivity. }
  split; [ exact H | ].
  exact (proj1 (genre_analyses_without_text py_eval
                  (fun text => on_console (literal_eval text)) (mkWorld df []) H)).
Defined.

(** ** The table after the genre-distribution analysis *)

Lemma mapM_length {S A B} (f : A -> M S B) (xs : list A) (s s' : S) (ys : list B) :
  mapM f xs s = (s', Ok ys) -> length ys = length xs.
Proof.
  revert s s' ys. induction xs as [ | x xs IH ]; simpl; intros s s' ys.
  - unfold ret. now intros [= _ <-].
  - unfold bind at 1. destruct (f x s) as [s1 [y | e]]; [ | discriminate ].
    unfold bind at 1. destruct (mapM f xs s1) as [s2 [zs | e]] eqn:E; [ | discriminate ].
    unfold ret. intros [= _ <-]. simpl. now rewrite (IH _ _ _ E).
Qed.

Lemma apply_column_length {S} (name : string) (f : Value -> M S Value) (df : DataFrame)
    (s s' : S) (values : list Value) :
  apply_column name f df s = (s', Ok values) -> length values = length (rows df).
Proof.
  unfold apply_column, bind, lift, getitem.
  destruct (index_of name (columns df)); [ | discriminate ].
  intros H. apply mapM_length in H. now rewrite length_map in H.
Qed.

Lemma no_genre_text_getitem (df : DataFrame) (genres : list Value) :
  getitem "genres" df = Ok genres ->
  forallb (fun v => negb (is_str v)) genres = true ->
  no_genre_text df.
Proof.
  unfold getitem. intros H Hall i Hi r Hr. rewrite Hi in H. injection H as <-.
  rewrite forallb_of_map in Hall. rewrite forallb_forall in Hall.
  apply negb_true_iff. now apply Hall.
Qed.

(** X9.  When the evaluation of the genre texts of a well-formed table
    does not change the table, and the genre-distribution analysis has
    evaluated them, the table it was given holds the evaluated values in its
    genres column, whatever happens afterwards; its other columns read as
    before.  If none of the values is a text, a later run of either genre
    analysis on that table evaluates nothing. *)
Theorem plot_genre_distribution_by_region_table (eval : string -> M World Value)
    (w w1 : World) (genres : list Value) :
  well_formed (table w) ->
  has_column "genres" (table w) = true ->
  has_column "viewer_region" (table w) = true ->
  unchanging eval (table w) ->
  apply_column "genres" (genres_lambda eval) (table w) w = (w1, Ok genres) ->
  let after := fst (plot_genre_distribution_by_region eval w) in
  getitem "genres" (table after) = Ok genres
  /\ (forall other, other <> "genres" ->
        getitem other (table after) = getitem other (table w))
  /\ well_formed (table after)
  /\ (forallb (fun v => negb (is_str v)) genres = true ->
      forall eval' : string -> M World Value,
        plot_genre_distribution_by_region eval' after
        = plot_genre_distribution_by_region eval after
        /\ plot_genre_popularity eval' after = plot_genre_popularity eval after).
Proof.
  intros Hwf Hg Hr Hkeep Happly after.
  pose proof (apply_column_length _ _ _ _ _ _ Happly) as Hlen.
  assert (Hw1 : table w1 = table w).
  { pose proof (apply_column_keeps_table eval (table w) Hkeep w) as Hk.
    now rewrite Happly in Hk. }
  assert (Ht : table after = setitem "genres" genres (table w)).
  { unfold after.
    rewrite (plot_genre_distribution_by_region_assigns eval w w1 genres Hg Hr Happly).
    now rewrite Hw1. }
  rewrite Ht.
  assert (Hget : getitem "genres" (setitem "genres" genres (table w)) = Ok genres)
    by now apply getitem_setitem_same.
  split; [ exact Hget | ]. split; [ | split ].
  - intros other Hne. now apply getitem_setitem_other.
  - now apply setitem_well_formed.
  - intros Hall eval'.
    assert (Hno : no_genre_text (table after)).
    { rewrite Ht. exact (no_genre_text_getitem _ _ Hget Hall). }
    exact (genre_analyses_agree_without_text eval' eval after Hno).
Qed.

Lemma plot_genre_distribution_by_region_table_witness :
  let w := mkWorld sample_data [] in
  well_formed (table w)
  /\ unchanging py_eval (table w)
  /\ getitem "genres" (table (fst (plot_genre_distribution_by_region py_eval w)))
     = Ok [VList [VStr "Drama"; VStr "Comedy"]]
  /\ getitem "type" (table (fst (plot_genre_distribution_by_region py_eval w)))
     = Ok [VStr "SHOW"].
Proof.
  intros w.
  assert (Hwf : well_formed (table w)).
  { split.
    - apply distinct_labels_NoDup. reflexivity.
    - intros r [<- | []]. reflexivity. }
  assert (Hkeep : unchanging py_eval (table w)).
  { intros g r s Hg [<- | []] Hs. injection Hg as <-. injection Hs as <-.
    apply console_only_keeps_table.
    eapply py_eval_literal_console_only; reflexivity. }
  split; [ exact Hwf | ]. split; [ exact Hkeep | ].
  destruct (plot_genre_distribution_by_region_table py_eval w w
              [VList [VStr "Drama"; VStr "Comedy"]] Hwf eq_refl eq_refl Hkeep eq_refl)
    as [H1 [H2 _]].
  split; [ exact H1 | ]. rewrite H2 by discriminate. reflexivity.
Defined.

(** ** The loop over the regions *)

Lemma for_each_emits {A} (xs : list A) (body : A -> M World unit) (events : A -> list Event) :
  (forall x, In x xs ->
     forall w, body x w = (mkWorld (table w) (console w ++ events x), Ok tt)) ->
  forall w,
    for_each xs body w = (mkWorld (table w) (console w ++ flat_map events xs), Ok tt).
Proof.
  induction xs as [ | x xs IH ]; intros H w; simpl.
  - unfold ret. rewrite app_nil_r. now destruct w.
  - unfold bind. rewrite (H x (or_introl eq_refl)).
    rewrite IH by (intros; apply H; now right).
    cbn [table console]. now rewrite app_assoc.
Qed.

(** A region with a count that is not zero gets its pie and the pause. *)
Lemma plot_region_shows (wide : Wide) (region : Value) (counts : list Value) (w : World) :
  region <> VStr "genres" ->
  column_sum 1 (frame (pie_of (labels wide) region counts)) <> 0 ->
  plot_region wide (region, counts) w
  = (mkWorld (table w)
       (console w ++ [Shown (pie_of (labels wide) region counts); Slept 1]),
     Ok tt).
Proof.
  intros Hne Hsum. unfold plot_region, loc_reset_index. cbn [fst snd].
  apply Value_eqb_neq in Hne. rewrite Hne.
  unfold bind at 1. unfold lift at 1.
  unfold pie_of in Hsum. cbn [frame] in Hsum. apply Z.eqb_neq in Hsum. rewrite Hsum.
  unfold bind, on_console, emit. cbn [table console]. unfold pie_of.
  now rewrite <- app_assoc.
Qed.

Lemma flat_map_of_map {A B C} (f : B -> list C) (g : A -> B) (xs : list A) :
  flat_map f (map g xs) = flat_map (fun x => f (g x)) xs.
Proof.
  induction xs as [ | x xs IH ]; simpl; [ reflexivity | now rewrite IH ].
Qed.

Lemma flat_map_agree {A B} (f g : A -> list B) (xs : list A) :
  (forall x, In x xs -> f x = g x) -> flat_map f xs = flat_map g xs.
Proof.
  induction xs as [ | x xs IH ]; simpl; intros H; [ reflexivity | ].
  rewrite (H x) by now left. f_equal. apply IH. intros. apply H. now right.
Qed.

Lemma sum_nat_ge {A} (f : A -> nat) (x : A) (xs : list A) :
  In x xs -> (f x <= sum_nat (map f xs))%nat.
Proof.
  induction xs as [ | y ys IH ]; simpl; [ tauto | ].
  intros [-> | H]; [ lia | ]. specialize (IH H). lia.
Qed.

(** X10.  The loop of the genre-distribution analysis shows one pie chart
    per region that has a row with a genre, in the order of the index, each
    followed by the pause of one second; the pie of a region lists every
    genre of the table with the number of rows of that region and genre.
    The branch that skips a region without counts is never taken. *)
Theorem regions_loop (df : DataFrame) (i j : nat) :
  index_of "viewer_region" (columns df) = Some i ->
  index_of "genres" (columns df) = Some j ->
  forallb (fun r => hashable (cell i r) && hashable (cell j r)) (rows df) = true ->
  (forall r, In r (rows df) -> cell i r <> VStr "genres") ->
  exists wide,
    size_unstack "viewer_region" "genres" (VInt 0) df = Ok wide
    /\ NoDup (index wide)
    /\ (forall a, In a (index wide) <-> In a (dimension1 i j (rows df)))
    /\ (forall b, In b (labels wide) <-> In b (dimension2 i j (rows df)))
    /\ forall w,
         for_each (combine (index wide) (matrix wide)) (plot_region wide) w
         = (mkWorld (table w)
              (console w
               ++ flat_map
                    (fun a =>
                       [Shown (pie_of (labels wide) a
                                 (map (fun b => VInt (Z.of_nat (occurrences i j a b (rows df))))
                                      (labels wide)));
                        Slept 1])
                    (index wide)),
            Ok tt).
Proof.
  intros Hi Hj Hh Hname.
  rewrite (size_unstack_returns _ _ (VInt 0) df i j Hi Hj Hh).
  set (groups := map _ (group_keys i j (rows df))).
  assert (Hkeys : map fst (size groups) = group_keys i j (rows df)).
  { unfold size, groups. rewrite !map_map. simpl. apply map_id. }
  eexists. split; [ reflexivity | ].
  unfold unstack. cbn [index labels matrix].
  set (idx := distinct_values (map (fun kv => fst (fst kv)) (size groups))).
  set (lbl := distinct_values (map (fun kv => snd (fst kv)) (size groups))).
  assert (Hidx : forall a, In a idx <-> In a (dimension1 i j (rows df))).
  { intros a. unfold idx, dimension1.
    rewrite !distinct_values_In, <- group_keys_fst, <- Hkeys.
    rewrite map_map. reflexivity. }
  assert (Hlbl : forall b, In b lbl <-> In b (dimension2 i j (rows df))).
  { intros b. unfold lbl, dimension2.
    rewrite !distinct_values_In, <- group_keys_snd, <- Hkeys.
    rewrite map_map. reflexivity. }
  split; [ apply distinct_values_NoDup | ]. split; [ exact Hidx | ].
  split; [ exact Hlbl | ].
  assert (Hcounts : forall a, In a idx ->
            map (wide_cell (VInt 0) (size groups) a) lbl
            = map (fun b => VInt (Z.of_nat (occurrences i j a b (rows df)))) lbl).
  { intros a Ha. apply map_ext_in. intros b Hb. unfold groups.
    rewrite wide_cell_size, occurrences_valid; [ reflexivity | | ].
    - apply Hidx, dimension1_In in Ha as [r [_ [<- [N _]]]]. exact N.
    - apply Hlbl, dimension2_In in Hb as [r [_ [<- [_ N]]]]. exact N. }
  intros w. rewrite combine_map_self.
  rewrite (for_each_emits _ _
             (fun rc => [Shown (pie_of lbl (fst rc) (snd rc)); Slept 1])).
  - rewrite flat_map_of_map. cbn [fst snd].
    do 3 f_equal. apply flat_map_agree.
    intros a Ha. now rewrite (Hcounts a Ha).
  - intros rc Hrc w'. apply in_map_iff in Hrc as [a [<- Ha]]. cbn [fst snd].
    apply (plot_region_shows (mkWide "viewer_region" idx lbl _)).
    + apply Hidx, dimension1_In in Ha as [r [Hr [<- _]]]. now apply Hname.
    + cbn [labels]. rewrite (Hcounts a Ha). unfold pie_of. cbn [frame].
      rewrite combine_map_self, map_map. unfold column_sum. cbn [rows].
      rewrite map_map. cbn [fst snd cell nth number_of].
      rewrite <- (map_map (fun b => occurrences i j a b (rows df)) Z.of_nat).
      rewrite fold_add_of_nat.
      pose proof (proj1 (Hidx a) Ha) as Ha'.
      apply dimension1_In in Ha' as [r [Hr [Ea [N1 N2]]]].
      assert (Hb : In (cell j r) lbl).
      { apply Hlbl, dimension2_In. exists r. tauto. }
      pose proof (sum_nat_ge (fun b => occurrences i j a b (rows df)) _ _ Hb) as Hge.
      assert (Hocc : (1 <= occurrences i j a (cell j r) (rows df))%nat).
      { unfold occurrences.
        assert (Hin : In r (filter (fun r0 => Key2_eqb (keyed i j r0) (a, cell j r))
                                   (rows df))).
        { apply filter_In. split; [ assumption | ].
          apply Key2_eqb_eq. unfold keyed. now rewrite Ea. }
        destruct (filter _ (rows df)); [ destruct Hin | simpl; lia ]. }
      cbn beta in Hge. lia.
Qed.

Lemma regions_loop_witness :
  let df := mkFrame ["viewer_region"; "genres"]
                    [[VStr "US"; VStr "Drama"]; [VStr "IN"; VStr "Drama"];
                     [VStr "US"; VStr "Comedy"]] in
  exists wide,
    size_unstack "viewer_region" "genres" (VInt 0) df = Ok wide
    /\ length (console (fst (for_each (combine (index wide) (matrix wide))
                                      (plot_region wide) (mkWorld df []))))
       = (2 * length (index wide))%nat.
Proof.
  intros df.
  assert (Hname : forall r, In r (rows df) -> cell 0 r <> VStr "genres").
  { intros r [<- | [<- | [<- | []]]]; discriminate. }
  destruct (regions_loop df 0 1 eq_refl eq_refl eq_refl Hname)
    as [wide [Hw [_ [_ [_ Hloop]]]]].
  exists wide. split; [ exact Hw | ].
  rewrite Hloop. cbn [fst console app].
  rewrite flat_map_count, (sum_nat_const 2). apply Nat.mul_comm.
Defined.

(** ** The viewership analysis *)

Lemma plot_viewership_run (w : World) :
  plot_viewership_by_age_and_region w
  = match and_then (sum_unstack "viewer_age_group" "viewer_region" "viewership_count"
                                (table w))
                   (reset_index_melt "Region" "Viewership") with
    | Raise e => (w, Raise e)
    | Ok long =>
        (mkWorld (table w)
           (console w
            ++ [Shown (mkFigure Bar long "Stacked Viewership by Age Group and Region")]),
         Ok tt)
    end.
Proof.
  unfold plot_viewership_by_age_and_region, bind, get_table, lift, on_console, emit.
  destruct (sum_unstack _ _ _ (table w)) as [wide | e]; [ | reflexivity ].
  cbn [and_then]. destruct (reset_index_melt "Region" "Viewership" wide); reflexivity.
Qed.

(** X11.  On a table that has the three columns, with hashable dimension
    cells, no region named like a column of the long form, and viewership
    counts that are numbers or missing and add up to [2 ^ 53] at most in
    absolute value, the viewership analysis leaves the table as it is and
    shows one bar chart.  The chart has one row for every pair of an age
    group and a region of the table; the row of a pair that some row of the
    table has holds the sum of the viewership counts of those rows, and the
    row of a pair that no row has holds a missing value. *)
Theorem plot_viewership_chart (w : World) (i j m : nat) :
  index_of "viewer_age_group" (columns (table w)) = Some i ->
  index_of "viewer_region" (columns (table w)) = Some j ->
  index_of "viewership_count" (columns (table w)) = Some m ->
  forallb (fun r => hashable (cell i r) && hashable (cell j r)) (rows (table w)) = true ->
  (forall r, In r (rows (table w)) ->
             cell j r <> VStr "viewer_age_group" /\ cell j r <> VStr "Viewership") ->
  summable m (rows (table w)) ->
  exists long,
    plot_viewership_by_age_and_region w
    = (mkWorld (table w)
         (console w
          ++ [Shown (mkFigure Bar long "Stacked Viewership by Age Group and Region")]),
       Ok tt)
    /\ columns long = ["viewer_age_group"; "Region"; "Viewership"]
    /\ length (rows long)
       = (length (dimension1 i j (rows (table w)))
          * length (dimension2 i j (rows (table w))))%nat
    /\ forall row,
         In row (rows long) <->
         exists a b,
           In a (dimension1 i j (rows (table w)))
           /\ In b (dimension2 i j (rows (table w)))
           /\ row = [a; b;
                     if (occurrences i j a b (rows (table w)) =? 0)%nat then VNaN
                     else VInt (total i j m a b (rows (table w)))].
Proof.
  intros Hi Hj Hm Hh Hlabels Hsum. rewrite plot_viewership_run.
  destruct (sum_long_form "viewer_age_group" "viewer_region" "viewership_count"
              "Region" "Viewership" (table w) i j m Hi Hj Hm Hh Hlabels Hsum)
    as [wide [long [Hw [Hlong [Hcols [Hn Hrows]]]]]].
  rewrite Hw. cbn [and_then]. rewrite Hlong. exists long.
  split; [ reflexivity | ]. split; [ exact Hcols | ]. split; [ exact Hn | ].
  exact Hrows.
Qed.

Lemma plot_viewership_chart_witness :
  let views := mkFrame ["viewer_age_group"; "viewer_region"; "viewership_count"]
                       [[VStr "18-25"; VStr "US"; VInt 100];
                        [VStr "18-25"; VStr "US"; VInt 20];
                        [VStr "26-35"; VStr "IN"; VInt 50]] in
  summable 2 (rows views)
  /\ exists long,
       fst (plot_viewership_by_age_and_region (mkWorld views []))
       = mkWorld views
           [Shown (mkFigure Bar long "Stacked Viewership by Age Group and Region")]
       /\ In [VStr "18-25"; VStr "US"; VInt 120] (rows long)
       /\ In [VStr "18-25"; VStr "IN"; VNaN] (rows long).
Proof.
  intros views.
  assert (Hlabels : forall r, In r (rows views) ->
            cell 1 r <> VStr "viewer_age_group" /\ cell 1 r <> VStr "Viewership").
  { intros r [<- | [<- | [<- | []]]]; split; discriminate. }
  assert (Hsum : summable 2 (rows views)).
  { split.
    - intros r [<- | [<- | [<- | []]]]; reflexivity.
    - apply Z.leb_le. reflexivity. }
  split; [ exact Hsum | ].
  destruct (plot_viewership_chart (mkWorld views []) 0 1 2 eq_refl eq_refl eq_refl
              eq_refl Hlabels Hsum) as [long [Hrun [_ [_ Hrows]]]].
  exists long. rewrite Hrun. split; [ reflexivity | ]. split; apply Hrows.
  - exists (VStr "18-25"), (VStr "US").
    split; [ now left | ]. split; [ right; now left | reflexivity ].
  - exists (VStr "18-25"), (VStr "IN").
    split; [ now left | ]. split; [ now left | reflexivity ].
Defined.

(** The sum of a single cell is the cell, or zero for a missing value. *)
Lemma sum_cells_one (wraps : bool) (v : Value) : exists s, sum_cells wraps [v] = Ok s.
Proof.
  unfold sum_cells. destruct v; cbn [filter notna add_all]; eauto.
Qed.

(** Two rows under two different labels are two groups of one row: their
    sums are made, whatever the cells are. *)
Lemma sum_groups_two_labels (m : nat) (df : DataFrame) (d1 d2 : string) :
  length (rows df) = 2%nat -> d1 <> d2 ->
  exists s, sum_groups m df (label_groups [VStr d1; VStr d2] (rows df)) = Ok s.
Proof.
  intros Hlen Hne. destruct (rows df) as [ | r1 [ | r2 [ | r3 rs ] ] ] eqn:Hrows;
    try discriminate.
  unfold sum_groups. set (wraps := int64_column _). clearbody wraps.
  unfold label_groups, distinct_values. cbn [unique filter map combine fst snd Value_eqb].
  assert (E12 : String.eqb d1 d2 = false) by now apply String.eqb_neq.
  assert (E21 : String.eqb d2 d1 = false) by (rewrite String.eqb_sym; exact E12).
  rewrite E12. cbn [negb filter sort_by insert_sorted Value_leb].
  destruct (sum_cells_one wraps (cell m r1)) as [s1 H1].
  destruct (sum_cells_one wraps (cell m r2)) as [s2 H2].
  destruct (String.leb d1 d2);
    cbn [map filter combine fst snd Value_eqb traverse];
    rewrite ?String.eqb_refl, ?E12, ?E21; cbn [map filter snd fst traverse];
    rewrite ?String.eqb_refl, ?E12, ?E21; cbn [map filter snd fst traverse];
    rewrite ?H1, ?H2; eauto.
Qed.

(** X12.  The viewership analysis has no guard, and what it raises without
    one of its columns depends on the number of rows.  On a table that does
    not have exactly two rows, an absent dimension column is a key error that
    names it, the age group before the region.  On a table of two rows the
    two keys are taken for the labels of the two rows: the grouping goes
    through, an absent count column is the key error, and with a count
    column of numbers there the sums of the two rows cannot be unstacked,
    which is a value error.  With both dimension columns there, an absent count column
    is a key error on every table.  In no case is anything shown, and the
    table is as before. *)
Theorem plot_viewership_missing_column (w : World) :
  (length (rows (table w)) <> 2%nat ->
   (has_column "viewer_age_group" (table w) = false ->
    plot_viewership_by_age_and_region w = (w, Raise (KeyError "viewer_age_group")))
   /\ (has_column "viewer_age_group" (table w) = true ->
       has_column "viewer_region" (table w) = false ->
       plot_viewership_by_age_and_region w = (w, Raise (KeyError "viewer_region"))))
  /\ (length (rows (table w)) = 2%nat ->
      has_column "viewer_age_group" (table w) = false
      \/ has_column "viewer_region" (table w) = false ->
      (has_column "viewership_count" (table w) = false ->
       plot_viewership_by_age_and_region w
       = (w, Raise (KeyError "Column not found: viewership_count")))
      /\ (forall m, index_of "viewership_count" (columns (table w)) = Some m ->
          (forall r, In r (rows (table w)) -> is_number_or_missing (cell m r) = true) ->
          exists msg, plot_viewership_by_age_and_region w = (w, Raise (ValueError msg))))
  /\ (has_column "viewer_age_group" (table w) = true ->
      has_column "viewer_region" (table w) = true ->
      has_column "viewership_count" (table w) = false ->
      plot_viewership_by_age_and_region w
      = (w, Raise (KeyError "Column not found: viewership_count"))).
Proof.
  split; [ | split ].
  - intros Hlen. apply Nat.eqb_neq in Hlen. split.
    + intros H. rewrite plot_viewership_run. unfold sum_unstack, groupby2, absent_key.
      now rewrite (index_of_absent _ _ H), Hlen.
    + intros Ha H. rewrite plot_viewership_run. unfold sum_unstack, groupby2, absent_key.
      apply index_of_has_column in Ha as [i Hi].
      now rewrite Hi, (index_of_absent _ _ H), Hlen.
  - intros Hlen Habsent.
    assert (Hg : groupby2 "viewer_age_group" "viewer_region" (table w)
                 = Ok (KeyLabels [VStr "viewer_age_group"; VStr "viewer_region"])).
    { unfold groupby2, absent_key. rewrite Hlen. cbn [Nat.eqb].
      destruct (index_of "viewer_age_group" (columns (table w))) as [i | ] eqn:Hi;
        [ | reflexivity ].
      destruct Habsent as [H | H].
      - apply index_of_absent in H. congruence.
      - now rewrite (index_of_absent _ _ H). }
    split.
    + intros H. rewrite plot_viewership_run. unfold sum_unstack.
      now rewrite Hg, (index_of_absent _ _ H).
    + intros m Hm _.
      rewrite plot_viewership_run. unfold sum_unstack. rewrite Hg, Hm.
      destruct (sum_groups_two_labels m (table w) "viewer_age_group" "viewer_region" Hlen)
        as [s Hs]; [ discriminate | ].
      rewrite Hs. eexists. reflexivity.
  - intros Ha Hr H. rewrite plot_viewership_run. unfold sum_unstack.
    apply index_of_has_column in Ha as [i Hi].
    apply index_of_has_column in Hr as [j Hj].
    now rewrite (groupby2_returns _ _ _ i j Hi Hj), (index_of_absent _ _ H).
Qed.

Lemma plot_viewership_missing_column_witness :
  length (rows sample_content) = 2%nat
  /\ has_column "viewer_age_group" sample_content = false
  /\ has_column "viewership_count" sample_content = false
  /\ plot_viewership_by_age_and_region (mkWorld sample_content [])
     = (mkWorld sample_content [], Raise (KeyError "Column not found: viewership_count")).
Proof.
  split; [ reflexivity | ]. split; [ reflexivity | ]. split; [ reflexivity | ].
  exact (proj1 (proj1 (proj2 (plot_viewership_missing_column (mkWorld sample_content [])))
                  eq_refl (or_introl eq_refl))
           eq_refl).
Defined.

(** ** What the analyses leave alone *)

(** X13.  The genre-popularity analysis and the viewership analysis assign
    nothing to the table they are given.  The viewership analysis leaves it
    as it is, on any table.  The genre-popularity analysis works on a copy
    and leaves the table as the evaluation of the genre texts leaves it: the
    table is as before whenever the evaluation of its genre texts does not
    change it, also when the analysis raises. *)
Theorem analyses_keep_the_table (eval : string -> M World Value) (w : World) :
  (unchanging eval (table w) ->
   table (fst (plot_genre_popularity eval w)) = table w)
  /\ (forall tv, select_eq "type" (VStr "SHOW") (table w) = Ok tv ->
        has_column "genres" (table w) = true ->
        table (fst (plot_genre_popularity eval w))
        = table (fst (apply_column "genres" (genres_lambda eval) tv w)))
  /\ table (fst (plot_viewership_by_age_and_region w)) = table w.
Proof.
  split; [ | split ].
  - apply plot_genre_popularity_keeps_table.
  - intros tv Hsel Hg. rewrite plot_genre_popularity_run, Hg, Hsel. cbn [negb].
    destruct (apply_column "genres" (genres_lambda eval) tv w) as [w1 [genres | e]];
      [ | reflexivity ].
    destruct (genre_popularity_long _ (setitem "genres" genres tv)); reflexivity.
  - apply plot_viewership_keeps_table.
Qed.

Lemma analyses_keep_the_table_witness :
  unchanging py_eval sample_data
  /\ table (fst (plot_genre_popularity py_eval (mkWorld sample_data []))) = sample_data.
Proof.
  assert (Hkeep : unchanging py_eval sample_data).
  { intros g r s Hg [<- | []] Hs. injection Hg as <-. injection Hs as <-.
    apply console_only_keeps_table.
    eapply py_eval_literal_console_only; reflexivity. }
  split; [ exact Hkeep | ].
  exact (proj1 (analyses_keep_the_table py_eval (mkWorld sample_data [])) Hkeep).
Defined.

(** X14.  When the guard of a genre analysis finds a column absent, the
    analysis prints its one diagnostic and returns: the evaluator is not
    called, nothing is shown, and the table is as before. *)
Theorem genre_guards_return (eval : string -> M World Value) (w : World) :
  (has_column "genres" (table w) = false ->
   plot_genre_popularity eval w
   = (mkWorld (table w)
        (console w ++ [Printed "No 'genres' column found. Please check the dataset."]),
      Ok tt))
  /\ (has_column "genres" (table w) = false
      \/ has_column "viewer_region" (table w) = false ->
      plot_genre_distribution_by_region eval w
      = (mkWorld (table w)
           (console w
            ++ [Printed "The 'genres' or 'viewer_region' column is not found in the dataset."]),
         Ok tt)).
Proof.
  split.
  - apply plot_genre_popularity_guard.
  - apply plot_genre_distribution_by_region_guard.
Qed.

Lemma genre_guards_return_witness :
  has_column "genres" sample_viewership = false
  /\ plot_genre_popularity py_eval (mkWorld sample_viewership [])
     = (mkWorld sample_viewership
          [Printed "No 'genres' column found. Please check the dataset."],
        Ok tt).
Proof.
  split; [ reflexivity | ].
  exact (proj1 (genre_guards_return py_eval (mkWorld sample_viewership [])) eq_refl).
Defined.

(** ** The merged table *)




(** ** Shows without genres *)

Lemma mapM_insert {S A} (f : A -> M S A) (x : A) (xs1 xs2 : list A) (s : S) :
  (forall s0, f x s0 = (s0, Ok x)) ->
  mapM f (xs1 ++ x :: xs2) s
  = match mapM f (xs1 ++ xs2) s with
    | (s', Ok ys) => (s', Ok (insert_at (length xs1) x ys))
    | (s', Raise e) => (s', Raise e)
    end.
Proof.
  intros Hx. revert s. induction xs1 as [ | y ys IH ]; intros s; simpl.
  - unfold bind at 1. rewrite Hx. unfold bind at 1.
    destruct (mapM f xs2 s) as [s' [zs | e]]; reflexivity.
  - unfold bind. destruct (f y s) as [s1 [y' | e]]; [ | reflexivity ].
    rewrite IH.
    destruct (mapM f (ys ++ xs2) s1) as [s2 [zs | e]]; reflexivity.
Qed.

Lemma traverse_insert {A B} (f : A -> Result B) (x : A) (y : B) (xs1 xs2 : list A) :
  f x = Ok y ->
  traverse f (xs1 ++ x :: xs2)
  = match traverse f (xs1 ++ xs2) with
    | Ok ys => Ok (insert_at (length xs1) y ys)
    | Raise e => Raise e
    end.
Proof.
  intros Hx. induction xs1 as [ | z zs IH ]; simpl.
  - rewrite Hx. destruct (traverse f xs2); reflexivity.
  - destruct (f z); [ | reflexivity ]. rewrite IH.
    destruct (traverse f (zs ++ xs2)); reflexivity.
Qed.

Lemma combine_insert {A B} (xs1 xs2 : list A) (x : A) (y : B) (ys : list B) :
  (length xs1 <= length ys)%nat ->
  combine (xs1 ++ x :: xs2) (insert_at (length xs1) y ys)
  = combine xs1 (firstn (length xs1) ys) ++ (x, y) :: combine xs2 (skipn (length xs1) ys).
Proof.
  revert ys. induction xs1 as [ | z zs IH ]; intros ys H; simpl.
  - reflexivity.
  - destruct ys as [ | w ws ]; simpl in *; [ lia | ].
    unfold insert_at in IH. now rewrite IH by lia.
Qed.

Lemma combine_split_at {A B} (xs1 xs2 : list A) (ys : list B) :
  (length xs1 <= length ys)%nat ->
  combine (xs1 ++ xs2) ys
  = combine xs1 (firstn (length xs1) ys) ++ combine xs2 (skipn (length xs1) ys).
Proof.
  revert ys. induction xs1 as [ | z zs IH ]; intros ys H; simpl.
  - reflexivity.
  - destruct ys as [ | w ws ]; simpl in *; [ lia | ]. now rewrite IH by lia.
Qed.

(** The rows of a table after an assignment to a column, when a row and its
    value are put in at the same place. *)
Lemma setitem_insert (name : string) (cols : list string) (rows1 rows2 : list Row)
    (r : Row) (v : Value) (values : list Value) :
  (length rows1 <= length values)%nat ->
  exists (update : Row -> Value -> Row) (cols' : list string) (rows1' rows2' : list Row),
    setitem name (insert_at (length rows1) v values) (mkFrame cols (rows1 ++ r :: rows2))
    = mkFrame cols' (rows1' ++ update r v :: rows2')
    /\ setitem name values (mkFrame cols (rows1 ++ rows2)) = mkFrame cols' (rows1' ++ rows2')
    /\ length rows1' = length rows1
    /\ match index_of name cols with
       | Some k => cols' = cols /\ update = (fun r v => set_cell k v r)
       | None => cols' = cols ++ [name] /\ update = (fun r v => r ++ [v])
       end.
Proof.
  intros Hlen. unfold setitem. cbn [columns rows].
  destruct (index_of name cols) as [k | ].
  - exists (fun r v => set_cell k v r), cols,
      (map (fun rv => set_cell k (snd rv) (fst rv)) (combine rows1 (firstn (length rows1) values))),
      (map (fun rv => set_cell k (snd rv) (fst rv)) (combine rows2 (skipn (length rows1) values))).
    rewrite combine_insert, combine_split_at, !map_app by assumption.
    repeat split. rewrite length_map, length_combine, length_firstn. lia.
  - exists (fun r v => r ++ [v]), (cols ++ [name]),
      (map (fun rv => fst rv ++ [snd rv]) (combine rows1 (firstn (length rows1) values))),
      (map (fun rv => fst rv ++ [snd rv]) (combine rows2 (skipn (length rows1) values))).
    rewrite combine_insert, combine_split_at, !map_app by assumption.
    repeat split. rewrite length_map, length_combine, length_firstn. lia.
Qed.

(** A row without a genre is in no group: the groups are those of the
    table without it. *)
Lemma size_unstack_insert (d1 d2 : string) (fill : Value) (cols : list string)
    (rows1 rows2 : list Row) (r : Row) (i j : nat) :
  index_of d1 cols = Some i -> index_of d2 cols = Some j ->
  hashable (cell i r) = true -> cell j r = VNaN ->
  size_unstack d1 d2 fill (mkFrame cols (rows1 ++ r :: rows2))
  = size_unstack d1 d2 fill (mkFrame cols (rows1 ++ rows2)).
Proof.
  intros Hi Hj Hh Hn. unfold size_unstack, groupby2, group_rows. cbn [columns rows].
  rewrite Hi, Hj. unfold valid_rows.
  assert (Hv : valid_key (keyed i j r) = false).
  { unfold valid_key, keyed. cbn [fst snd]. rewrite Hn. apply andb_false_r. }
  rewrite !forallb_app, !filter_app. cbn [forallb filter].
  rewrite Hv, Hh, Hn. reflexivity.
Qed.

Lemma cell_in_row (i : nat) (r : Row) : cell i r <> VNaN -> (i < length r)%nat.
Proof.
  intros H. destruct (Nat.lt_ge_cases i (length r)) as [ | Hge ]; [ assumption | ].
  exfalso. apply H. unfold cell. now apply nth_overflow.
Qed.

(** The long-form table of the chart is the same with and without a show
    whose genre list is empty. *)
Lemma genre_popularity_long_insert (wraps : bool) (cols : list string)
    (rows1 rows2 : list Row) (r : Row) (g : nat) :
  index_of "genres" cols = Some g ->
  cell g r = VList [] ->
  length r = length cols ->
  (forall y, index_of "release_year" cols = Some y ->
             exists z, cell y r = VInt z /\ in_int64 z = true) ->
  genre_popularity_long wraps (mkFrame cols (rows1 ++ r :: rows2))
  = genre_popularity_long wraps (mkFrame cols (rows1 ++ rows2)).
Proof.
  intros Hg Hc Hlen Hyear.
  assert (Hgr : (g < length r)%nat) by (apply cell_in_row; rewrite Hc; discriminate).
  unfold genre_popularity_long, explode. cbn [columns rows]. rewrite Hg.
  rewrite !flat_map_app. cbn [flat_map].
  replace (explode_row g r) with [set_cell g VNaN r] by (unfold explode_row; now rewrite Hc).
  cbn [app].
  set (r' := set_cell g VNaN r).
  set (A := flat_map (explode_row g) rows1). set (B := flat_map (explode_row g) rows2).
  assert (Hr'g : cell g r' = VNaN) by (now apply cell_set_cell_same).
  assert (Hr'len : length r' = length cols) by (unfold r'; now rewrite set_cell_length).
  unfold bucket_rows, getitem. cbn [columns rows].
  destruct (index_of "release_year" cols) as [y | ] eqn:Hy; [ | reflexivity ].
  destruct (Hyear y eq_refl) as [z [Hz Hrange]].
  assert (Hyg : y <> g) by (apply (index_of_distinct "release_year" "genres" cols);
                            [ discriminate | assumption | assumption ]).
  assert (Hz' : cell y r' = VInt z) by (unfold r'; now rewrite cell_set_cell_other).
  rewrite !map_app. cbn [map]. rewrite Hz'.
  rewrite (traverse_insert (floordiv_mul wraps) (VInt z) _ _ _ (floordiv_mul_int wraps z)).
  set (b := VInt (if wraps then year_interval z else floor_bucket z)).
  rewrite <- map_app.
  destruct (traverse (floordiv_mul wraps) (map (cell y) (A ++ B))) as [ys | e] eqn:Ht;
    [ | reflexivity ].
  apply traverse_length in Ht. rewrite length_map, length_app in Ht.
  rewrite length_map.
  destruct (setitem_insert "year_interval" cols A B r' b ys)
    as (update & cols' & A' & B' & E1 & E2 & _ & Hcase); [ lia | ].
  rewrite E1, E2.
  assert (H : exists i, index_of "year_interval" cols' = Some i
                        /\ index_of "genres" cols' = Some g
                        /\ hashable (cell i (update r' b)) = true
                        /\ cell g (update r' b) = VNaN).
  { destruct (index_of "year_interval" cols) as [k | ] eqn:Hk.
    - destruct Hcase as [-> ->]. exists k. repeat split; try assumption.
      + rewrite cell_set_cell_same; [ reflexivity | ].
        apply index_of_bound in Hk. lia.
      + rewrite cell_set_cell_other; [ assumption | ].
        apply (index_of_distinct "genres" "year_interval" cols);
          [ discriminate | assumption | assumption ].
    - destruct Hcase as [-> ->]. exists (length cols). repeat split.
      + now rewrite index_of_app_new, String.eqb_refl.
      + now apply index_of_app_old.
      + now rewrite <- Hr'len, cell_app_last.
      + rewrite cell_app_left; [ assumption | ]. apply index_of_bound in Hg. lia. }
  destruct H as (i & Hi & Hg' & Hh & Hn).
  now rewrite (size_unstack_insert "year_interval" "genres" (VInt 0) cols' A' B'
                 (update r' b) i g Hi Hg' Hh Hn).
Qed.

(** *** Shows with an empty genre list *)

(** X16.  A row whose genre cell is the empty list takes no part in the
    genre-popularity analysis, whatever its type, when the genre texts of the
    other rows are evaluated on the console only, as literals are: the
    explosion keeps the row as one row with a missing genre and the grouping
    leaves that row out, so with the row or without it the analysis shows the
    same chart, prints the same lines and ends in the same way.  The row has
    one cell per column, and its release year is a 64-bit integer. *)
Theorem empty_genres_not_counted (eval : string -> M World Value)
    (cols : list string) (rows1 rows2 : list Row) (r : Row) (g : nat) (c : Console) :
  index_of "genres" cols = Some g ->
  cell g r = VList [] ->
  length r = length cols ->
  (forall y, index_of "release_year" cols = Some y ->
             exists z, cell y r = VInt z /\ in_int64 z = true) ->
  confined eval (mkFrame cols (rows1 ++ rows2)) ->
  let with_row := plot_genre_popularity eval (mkWorld (mkFrame cols (rows1 ++ r :: rows2)) c) in
  let without := plot_genre_popularity eval (mkWorld (mkFrame cols (rows1 ++ rows2)) c) in
  console (fst with_row) = console (fst without) /\ snd with_row = snd without.
Proof.
  intros Hg Hc Hlen Hyear Hconf with_row without. subst with_row without.
  destruct (index_of "type" cols) as [i | ] eqn:Hi.
  2: { rewrite !plot_genre_popularity_run. cbn [table]. unfold select_eq. cbn [columns].
       rewrite Hi. unfold has_column. cbn [columns].
       destruct (negb (existsb (String.eqb "genres") cols)); split; reflexivity. }
  destruct (Value_eqb (cell i r) (VStr "SHOW")) eqn:Hshow.
  2: { apply Value_eqb_neq in Hshow.
       exact (plot_genre_popularity_drops_row eval cols rows1 rows2 r i c Hi Hshow
                Hyear Hconf). }
  rewrite !plot_genre_popularity_run. cbn [table console].
  rewrite (is_int64_insert "release_year" cols rows1 rows2 r Hyear).
  set (wraps := is_int64 "release_year" (mkFrame cols (rows1 ++ rows2))).
  assert (Hhas : forall rs, has_column "genres" (mkFrame cols rs) = true)
    by (intros rs; apply index_of_has_column; now exists g).
  rewrite !Hhas. cbn [negb].
  unfold select_eq. cbn [columns rows]. rewrite Hi.
  rewrite !filter_app. cbn [filter]. rewrite Hshow.
  set (A := filter (fun r0 => Value_eqb (cell i r0) (VStr "SHOW")) rows1).
  set (B := filter (fun r0 => Value_eqb (cell i r0) (VStr "SHOW")) rows2).
  assert (Hconf' : confined eval (mkFrame cols (A ++ B))).
  { intros g' r' s' Hg' Hr' Hs'. cbn [columns rows] in *.
    apply (Hconf g' r' s' Hg'); [ | exact Hs' ].
    apply in_app_iff in Hr' as [Hr' | Hr']; apply filter_In in Hr' as [Hr' _];
      apply in_app_iff; auto. }
  destruct (apply_column_console_only eval _ Hconf' c) as [c' [res Hrun0]].
  assert (Hrun : forall t, mapM (genres_lambda eval) (map (cell g) (A ++ B)) (mkWorld t c)
                           = (mkWorld t c', res)).
  { intros t. rewrite <- (Hrun0 t), apply_column_run. unfold getitem.
    cbn [columns rows]. now rewrite Hg. }
  rewrite !apply_column_run. unfold getitem. cbn [columns rows].
  rewrite Hg. rewrite !map_app. cbn [map]. rewrite Hc.
  rewrite (mapM_insert (genres_lambda eval) (VList [])) by reflexivity.
  rewrite <- map_app. rewrite !Hrun.
  destruct res as [gs | e]; [ | split; reflexivity ].
  assert (Hm : length gs = (length A + length B)%nat).
  { pose proof (Hrun (mkFrame cols (A ++ B))) as Hm.
    apply mapM_length in Hm. now rewrite length_map, length_app in Hm. }
  rewrite length_map.
  destruct (setitem_insert "genres" cols A B r (VList []) gs)
    as (update & cols' & A' & B' & E1 & E2 & _ & Hcase); [ lia | ].
  rewrite Hg in Hcase. destruct Hcase as [-> ->].
  rewrite E1, E2.
  replace (set_cell g (VList []) r) with r by (rewrite <- Hc; symmetry; apply set_cell_cell).
  rewrite (genre_popularity_long_insert wraps cols A' B' r g Hg Hc Hlen Hyear).
  destruct (genre_popularity_long wraps (mkFrame cols (A' ++ B'))); split; reflexivity.
Qed.

Lemma empty_genres_not_counted_witness :
  let cols := ["show_id"; "type"; "release_year"; "genres"] in
  let show := [VInt 1; VStr "SHOW"; VInt 2019; VStr "['Drama']"] in
  let bare := [VInt 2; VStr "SHOW"; VInt 2020; VList []] in
  index_of "genres" cols = Some 3%nat
  /\ cell 3 bare = VList []
  /\ length bare = length cols
  /\ confined py_eval (mkFrame cols [show])
  /\ console (fst (plot_genre_popularity py_eval (mkWorld (mkFrame cols [show; bare]) [])))
     = console (fst (plot_genre_popularity py_eval (mkWorld (mkFrame cols [show]) []))).
Proof.
  intros cols show bare.
  assert (Hyear : forall y, index_of "release_year" cols = Some y ->
                            exists z, cell y bare = VInt z /\ in_int64 z = true).
  { intros y [= <-]. exists 2020. split; reflexivity. }
  assert (Hconf : confined py_eval (mkFrame cols [show])).
  { intros g r s Hg [<- | []] Hs. injection Hg as <-. injection Hs as <-.
    eapply py_eval_literal_console_only; reflexivity. }
  split; [ reflexivity | ]. split; [ reflexivity | ]. split; [ reflexivity | ].
  split; [ exact Hconf | ].
  exact (proj1 (empty_genres_not_counted py_eval cols [show] [] bare 3 []
                  eq_refl eq_refl eq_refl Hyear Hconf)).
Defined.
